(** * website_summarizer: the RAG summarization backend (backend/main.py)

    A shallow embedding of the request-handling core of [backend/main.py]:
    the character chunker, the regular-expression cleaning passes, the
    reduce-phase summary mapping, and the two endpoints [/summarize] and
    [/qa] over an in-memory model of the vector store; with them the
    seeding of the main collection at start-up, and the white-space
    normalisation of [backend/preprocessing.py].

    Python values are modelled as follows.
    - [str] is a list of Unicode code points ([pystr]); [len] is [length].
    - [int] is [Z]; slices clamp their bounds as Python does.
    - [float] is Rocq's primitive binary64 [float], so that [d < 1.2] is
      the comparison the interpreter performs.
    - exceptions are the [Raise] outcome of a state-and-exception monad.
    - the file system under an upload, the language model, the embedding
      model, the PDF converter, the JSON parser and the store's
      nearest-neighbour search are black boxes: they are parameters of
      the development (record [Collaborators]). *)

From Stdlib Require Import ZArith Lia PrimFloat Ascii String DecimalString DecimalNat.
From stdpp Require Import base option list gmap.

Set Warnings "-inexact-float,-register-all".
Local Open Scope Z_scope.

(** * Part I: the program *)

(** ** Python strings *)

Abbreviation codepoint := N (only parsing).
Abbreviation pystr := (list N) (only parsing).

(** String literals of the source, as code-point lists. *)
Definition lit (s : string) : pystr :=
  List.map N_of_ascii (list_ascii_of_string s).

Definition len (s : pystr) : Z := Z.of_nat (length s).

(** [sep.join(parts)]. *)
Fixpoint join (sep : pystr) (parts : list pystr) : pystr :=
  match parts with
  | [] => []
  | [p] => p
  | p :: rest => p ++ sep ++ join sep rest
  end.

(** [s.endswith(suffix)]. *)
Definition endswith (s suffix : pystr) : bool :=
  bool_decide (drop (length s - length suffix)%nat s = suffix).

(** Bound normalisation of a slice [s[lo:hi]] on a sequence of length [n]:
    a negative bound counts from the end, and every bound is clamped to
    [0..n]. *)
Definition slice_index (n i : Z) : Z :=
  if i <? 0 then Z.max 0 (i + n) else Z.min i n.

Definition py_slice (s : pystr) (lo hi : Z) : pystr :=
  let l := slice_index (len s) lo in
  let h := slice_index (len s) hi in
  take (Z.to_nat (h - l)) (drop (Z.to_nat l) s).

(** ** The chunker: [chunk_text_by_char] (main.py, lines 95-100)

    The [while] loop is modelled with fuel: one unit per evaluation of the
    loop test. [None] means that the fuel ran out before the loop left. *)

Fixpoint chunk_loop (fuel : nat) (text : pystr) (chunk_size overlap : Z)
    (start : Z) (chunks : list pystr) : option (list pystr) :=
  match fuel with
  | O => None
  | S fuel' =>
      if start <? len text then
        let end_ := start + chunk_size in
        chunk_loop fuel' text chunk_size overlap
          (start + (chunk_size - overlap))
          (chunks ++ [py_slice text start end_])
      else Some chunks
  end.

Definition chunk_text_by_char (fuel : nat) (text : pystr)
    (chunk_size overlap : Z) : option (list pystr) :=
  if len text <=? chunk_size then Some [text]
  else chunk_loop fuel text chunk_size overlap 0 [].

(** Ceiling of [a / b] for a positive divisor. *)
Definition ceil_div (a b : Z) : Z := (a + b - 1) / b.

(** The [k]-th window of the sliding pass: [text[k*step : k*step + size]]. *)
Definition window (text : pystr) (chunk_size step : Z) (k : nat) : pystr :=
  py_slice text (Z.of_nat k * step) (Z.of_nat k * step + chunk_size).


(** ** Character classes of Python's [re] and [str] (Unicode 14)

    [\s], [str.strip] and [str.isspace] share one whitespace predicate;
    [\d] is the decimal-digit category Nd; [.] is any character but the
    line feed. *)

Local Open Scope N_scope.

Definition LF : codepoint := 10.

Definition in_range (lo hi c : codepoint) : bool := (lo <=? c)%N && (c <=? hi)%N.

Definition is_space (c : codepoint) : bool :=
  in_range 9 13 c || in_range 28 32 c || (c =? 133)%N || (c =? 160)%N
  || (c =? 5760)%N || in_range 8192 8202 c || (c =? 8232)%N || (c =? 8233)%N
  || (c =? 8239)%N || (c =? 8287)%N || (c =? 12288)%N.

(** First code point of every run of ten decimal digits. *)
Definition DIGIT_ZEROS : list codepoint :=
  [48; 1632; 1776; 1984; 2406; 2534; 2662; 2790; 2918; 3046; 3174; 3302;
   3430; 3558; 3664; 3792; 3872; 4160; 4240; 6112; 6160; 6470; 6608; 6784;
   6800; 6992; 7088; 7232; 7248; 42528; 43216; 43264; 43472; 43504; 43600;
   44016; 65296; 66720; 68912; 69734; 69872; 69942; 70096; 70384; 70736;
   70864; 71248; 71360; 71472; 71904; 72016; 72784; 73040; 73120; 92768;
   92864; 93008; 120782; 120792; 120802; 120812; 120822; 123200; 123632;
   125264; 130032]%N.

Definition is_digit (c : codepoint) : bool :=
  existsb (fun z => in_range z (z + 9) c) DIGIT_ZEROS.

Definition is_char (x : codepoint) : codepoint -> bool := fun c => (c =? x)%N.

Definition any_but_newline : codepoint -> bool := fun c => negb (c =? LF)%N.

(** ** The regular expressions of [clean_text]

    The four patterns are sequences of single-character classes, each
    taken once, or repeated greedily ([*], [+]). [match_here p s] is the
    length of the match that the backtracking matcher finds for [p] at the
    start of [s]: a greedy repetition first consumes as much as it can and
    gives characters back one at a time while the rest of the pattern
    fails. *)

Inductive quantifier := Once | Star | Plus.

Definition atom : Type := (codepoint -> bool) * quantifier.
Definition regex := list atom.

Fixpoint greedy (cls : codepoint -> bool) (rest : pystr -> option nat)
    (s : pystr) : option nat :=
  match s with
  | c :: s' =>
      if cls c then
        match greedy cls rest s' with
        | Some n => Some (S n)
        | None => rest s
        end
      else rest s
  | [] => rest []
  end.

Fixpoint match_here (p : regex) (s : pystr) : option nat :=
  match p with
  | [] => Some 0%nat
  | (cls, Once) :: p' =>
      match s with
      | c :: s' => if cls c then S <$> match_here p' s' else None
      | [] => None
      end
  | (cls, Star) :: p' => greedy cls (match_here p') s
  | (cls, Plus) :: p' =>
      match s with
      | c :: s' => if cls c then S <$> greedy cls (match_here p') s' else None
      | [] => None
      end
  end.

(** [re.sub(p, repl, s)] for a pattern that matches no empty string (all
    four patterns start with a class taken at least once): scan from the
    left; where the pattern matches, emit [repl] and skip the match;
    elsewhere copy one character. [skip] counts the characters of the
    current match that are still to be dropped. *)
Fixpoint re_sub_from (p : regex) (repl : pystr) (skip : nat) (s : pystr) : pystr :=
  match s with
  | [] => []
  | c :: s' =>
      match skip with
      | S k => re_sub_from p repl k s'
      | O =>
          match match_here p s with
          | Some (S n) => repl ++ re_sub_from p repl n s'
          | _ => c :: re_sub_from p repl O s'
          end
      end
  end.

Definition re_sub (p : regex) (repl : pystr) (s : pystr) : pystr :=
  re_sub_from p repl O s.

(** [r'\|.*\|'] *)
Definition TABLE_ROW : regex :=
  [(is_char 124, Once); (any_but_newline, Star); (is_char 124, Once)].
(** [r'\[\d+\]'] *)
Definition CITATION : regex :=
  [(is_char 91, Once); (is_digit, Plus); (is_char 93, Once)].
(** [r'#+\s.*'] *)
Definition HEADER : regex :=
  [(is_char 35, Plus); (is_space, Once); (any_but_newline, Star)].
(** [r'\n\s*\n'] *)
Definition BLANK_LINES : regex :=
  [(is_char LF, Once); (is_space, Star); (is_char LF, Once)].

Local Close Scope N_scope.

(** [str.strip()], [str.isspace()]. *)
Fixpoint lstrip (s : pystr) : pystr :=
  match s with
  | c :: s' => if is_space c then lstrip s' else s
  | [] => []
  end.

Definition rstrip (s : pystr) : pystr := rev (lstrip (rev s)).

Definition strip (s : pystr) : pystr := rstrip (lstrip s).

Definition isspace (s : pystr) : bool :=
  match s with
  | [] => false
  | _ => forallb is_space s
  end.

(** [clean_text] (main.py, lines 92-93). *)
Definition clean_text (text : pystr) : pystr :=
  let text := re_sub TABLE_ROW [] text in
  let text := re_sub CITATION [] text in
  let text := re_sub HEADER [] text in
  let text := re_sub BLANK_LINES [LF] text in
  strip text.

(** ** Values, exceptions and outcomes *)

(** What [json.loads] returns. A [dict] is the list of its items (keys are
    unique); [d.get(key, default)] reads the item with that key. *)
Inductive pyvalue :=
  | PNone
  | PBool (b : bool)
  | PInt (n : Z)
  | PFloat (x : float)
  | PStr (s : pystr)
  | PList (items : list pyvalue)
  | PDict (items : list (pystr * pyvalue)).

Fixpoint dict_get (items : list (pystr * pyvalue)) (key : pystr)
    (default : pyvalue) : pyvalue :=
  match items with
  | [] => default
  | (k, v) :: rest => if bool_decide (k = key) then v else dict_get rest key default
  end.

Definition type_name (v : pyvalue) : pystr :=
  match v with
  | PNone => lit "NoneType"
  | PBool _ => lit "bool"
  | PInt _ => lit "int"
  | PFloat _ => lit "float"
  | PStr _ => lit "str"
  | PList _ => lit "list"
  | PDict _ => lit "dict"
  end.

(** Exceptions, by what the handlers of the source tell apart:
    [HTTPException], [ValueError] (with [json.JSONDecodeError], its
    subclass), and every other [Exception]. *)
Inductive exn :=
  | HTTPException (status_code : Z) (detail : pystr)
  | ValueError (message : pystr)
  | OtherError (message : pystr).

Definition is_value_error (e : exn) : bool :=
  match e with ValueError _ => true | _ => false end.

(** [str(n)] for a non-negative [int]. *)
Definition str_nat (n : nat) : pystr := lit (NilEmpty.string_of_uint (Nat.to_uint n)).

(** [str(e)]; an [HTTPException] prints as ["<status>: <detail>"]. *)
Definition str_exn (e : exn) : pystr :=
  match e with
  | HTTPException status_code detail =>
      str_nat (Z.to_nat status_code) ++ lit ": " ++ detail
  | ValueError message => message
  | OtherError message => message
  end.

(** What a call to a collaborator gives back. *)
Inductive result (A : Type) :=
  | Returns (a : A)
  | Throws (e : exn).
Arguments Returns {A} a.
Arguments Throws {A} e.

(** What a piece of the program does: it returns, raises, or runs for
    ever (only a loop can; see [chunk_text_by_char]). *)
Inductive outcome (A : Type) :=
  | Ok (a : A)
  | Raise (e : exn)
  | Diverge.
Arguments Ok {A} a.
Arguments Raise {A} e.
Arguments Diverge {A}.

(** ** The vector store, the temporary files and the trace of calls *)

Record Entry := {
  entry_id : pystr;
  entry_document : pystr;
  entry_embedding : list float
}.

Record QueryResult := {
  documents : list (list pystr);
  distances : list (list float)
}.

(** One event per call that leaves the process. *)
Inductive Event :=
  | EConvert (path : pystr)
  | EChatCompletion (messages : list (pystr * pystr)) (max_tokens : Z)
      (temperature : float) (json_object : bool)
  | EEmbedDocuments (texts : list pystr)
  | EEmbedQuery (text : pystr)
  | EGetCollection (name : pystr)
  | ECreateCollection (name : pystr)
  | EAdd (name : pystr) (ids : list pystr)
  | EQuery (name : pystr) (n_results : Z)
  | EDeleteCollection (name : pystr).

Record State := {
  collections : gmap pystr (list Entry);
  files : gmap pystr (list N);
  trace : list Event
}.

Definition set_collections (f : gmap pystr (list Entry) -> gmap pystr (list Entry))
    (st : State) : State :=
  {| collections := f (collections st); files := files st; trace := trace st |}.

Definition set_files (f : gmap pystr (list N) -> gmap pystr (list N))
    (st : State) : State :=
  {| collections := collections st; files := f (files st); trace := trace st |}.

Definition record_event (ev : Event) (st : State) : State :=
  {| collections := collections st; files := files st; trace := trace st ++ [ev] |}.

(** What becomes of the temporary file of an upload (main.py, lines
    138-139): [NamedTemporaryFile] raises and there is no file; or
    [tmp.write(await file.read())] raises, with [written] bytes in the
    file; or the file is written and closing it on the way out of the
    [with] block raises; or nothing raises. *)
Inductive Upload :=
  | Saved
  | CreateFails (e : exn)
  | WriteFails (e : exn) (written : nat)
  | CloseFails (e : exn).

(** The black boxes: the file system under the upload, the converter
    ([DOC_CONVERTER]), the language model ([LLM.create_chat_completion],
    read at [choices[0].message.content]), [json.loads], the embedding
    model, and the store's nearest-neighbour search and its validation of
    an [add]. *)
Record Collaborators := {
  upload : list N -> Upload;
  convert : list N -> result pystr;
  create_chat_completion :
    list (pystr * pystr) -> Z -> float -> bool -> result pystr;
  json_loads : pystr -> result pyvalue;
  embed_documents : list pystr -> result (list (list float));
  embed_query : pystr -> result (list float);
  query_nearest : list Entry -> list float -> Z -> result QueryResult;
  add_rejects : list pystr -> list pystr -> list (list float) -> option exn
}.

(** ** The monad of requests: state and exceptions *)

Definition M (A : Type) : Type := State -> outcome A * State.

Definition ret {A} (a : A) : M A := fun st => (Ok a, st).

Definition bind {A B} (m : M A) (f : A -> M B) : M B :=
  fun st =>
    match m st with
    | (Ok a, st') => f a st'
    | (Raise e, st') => (Raise e, st')
    | (Diverge, st') => (Diverge, st')
    end.

Definition raise {A} (e : exn) : M A := fun st => (Raise e, st).

Definition diverge {A} : M A := fun st => (Diverge, st).

(** [try: m  except Exception as e: handler e]. *)
Definition try_except {A} (m : M A) (handler : exn -> M A) : M A :=
  fun st =>
    match m st with
    | (Raise e, st') => handler e st'
    | r => r
    end.

(** [try: m  finally: cleanup]. *)
Definition try_finally {A} (m : M A) (cleanup : M unit) : M A :=
  fun st =>
    match m st with
    | (Diverge, st') => (Diverge, st')
    | (r, st') =>
        match cleanup st' with
        | (Ok _, st'') => (r, st'')
        | (Raise e, st'') => (Raise e, st'')
        | (Diverge, st'') => (Diverge, st'')
        end
    end.

(** [x = None
     try: x = m; k x
     except Exception as e: handler e
     finally: cleanup x]
    The [finally] reads a variable that the [try] assigns: it finds it
    bound when [m] has returned, and still [None] when [m] raised. *)
Definition try_bind_finally {L A} (m : M L) (k : L -> M A) (handler : exn -> M A)
    (cleanup : option L -> M unit) : M A :=
  fun st =>
    match m st with
    | (Ok x, st') => try_finally (try_except (k x) handler) (cleanup (Some x)) st'
    | (Raise e, st') => try_finally (handler e) (cleanup None) st'
    | (Diverge, st') => (Diverge, st')
    end.

(** The result of a collaborator, as an outcome. *)
Definition lift {A} (r : result A) : M A :=
  fun st =>
    match r with
    | Returns a => (Ok a, st)
    | Throws e => (Raise e, st)
    end.

(** A call to a collaborator: the call is recorded, its result is the
    call's. *)
Definition call {A} (ev : Event) (r : result A) : M A :=
  fun st =>
    match r with
    | Returns a => (Ok a, record_event ev st)
    | Throws e => (Raise e, record_event ev st)
    end.

Declare Scope monad_scope.
Delimit Scope monad_scope with monad.
Notation "x <- m ;; k" := (bind m (fun x => k))
  (at level 100, m at next level, right associativity) : monad_scope.
Notation "m ;;; k" := (bind m (fun _ => k))
  (at level 100, right associativity) : monad_scope.
Local Open Scope monad_scope.

(** ** The store's operations (a [chromadb] client)

    A collection is known by its name; [get_collection] and
    [delete_collection] raise when no collection has the name,
    [create_collection] raises when one has. *)

Definition get_collection (name : pystr) : M pystr :=
  fun st =>
    let st := record_event (EGetCollection name) st in
    match collections st !! name with
    | Some _ => (Ok name, st)
    | None => (Raise (ValueError (lit "Collection " ++ name ++ lit " does not exist.")), st)
    end.

Definition create_collection (name : pystr) : M pystr :=
  fun st =>
    let st := record_event (ECreateCollection name) st in
    match collections st !! name with
    | Some _ => (Raise (ValueError (lit "Collection " ++ name ++ lit " already exists")), st)
    | None => (Ok name, set_collections (insert name []) st)
    end.

Definition delete_collection (name : pystr) : M unit :=
  fun st =>
    let st := record_event (EDeleteCollection name) st in
    match collections st !! name with
    | Some _ => (Ok tt, set_collections (delete name) st)
    | None => (Raise (ValueError (lit "Collection " ++ name ++ lit " does not exist.")), st)
    end.

Fixpoint entries_of (ids documents : list pystr) (embeddings : list (list float))
    : list Entry :=
  match ids, documents, embeddings with
  | i :: ids', d :: documents', e :: embeddings' =>
      {| entry_id := i; entry_document := d; entry_embedding := e |}
      :: entries_of ids' documents' embeddings'
  | _, _, _ => []
  end.

(** [collection.add(embeddings=.., documents=.., ids=..)]: the three lists
    must have one length, and the store may reject the batch. *)
Definition collection_add (C : Collaborators) (name : pystr)
    (embeddings : list (list float)) (documents ids : list pystr) : M unit :=
  fun st =>
    let st := record_event (EAdd name ids) st in
    match collections st !! name with
    | None => (Raise (ValueError (lit "Collection " ++ name ++ lit " does not exist.")), st)
    | Some entries =>
        if negb (bool_decide (length embeddings = length ids)
                 && bool_decide (length documents = length ids))
        then (Raise (ValueError (lit "Unequal lengths for fields")), st)
        else
          match add_rejects C ids documents embeddings with
          | Some e => (Raise e, st)
          | None =>
              (Ok tt, set_collections
                        (insert name (entries ++ entries_of ids documents embeddings)) st)
          end
    end.

(** [collection.query(query_embeddings=[q], n_results=n)]. *)
Definition collection_query (C : Collaborators) (name : pystr)
    (query_embedding : list float) (n_results : Z) : M QueryResult :=
  fun st =>
    let st := record_event (EQuery name n_results) st in
    match collections st !! name with
    | None => (Raise (ValueError (lit "Collection " ++ name ++ lit " does not exist.")), st)
    | Some entries => lift (query_nearest C entries query_embedding n_results) st
    end.

(** Lines 138-139, up to the assignment: [NamedTemporaryFile(delete=False)]
    creates the file [path] and [tmp.write(await file.read())] fills it;
    the value is [tmp.name], which line 139 binds to [tmp_pdf_path]. When
    the write raises, the file stays with what was written. *)
Definition write_temp (C : Collaborators) (path : pystr) (content : list N) : M pystr :=
  fun st =>
    match upload C content with
    | CreateFails e => (Raise e, st)
    | WriteFails e written => (Raise e, set_files (insert path (take written content)) st)
    | Saved | CloseFails _ => (Ok path, set_files (insert path content) st)
    end.

(** Leaving the [with] block of line 138 closes the file. *)
Definition close_temp (C : Collaborators) (content : list N) : M unit :=
  fun st =>
    match upload C content with
    | CloseFails e => (Raise e, st)
    | _ => (Ok tt, st)
    end.

(** Line 181: [if tmp_pdf_path and os.path.exists(tmp_pdf_path):
    os.remove(tmp_pdf_path)]. Neither [None] nor the empty string passes
    the first test. *)
Definition remove_if_exists (tmp_pdf_path : option pystr) : M unit :=
  fun st =>
    match tmp_pdf_path with
    | Some (c :: path') => (Ok tt, set_files (delete (c :: path')) st)
    | _ => (Ok tt, st)
    end.

(** [convert_pdf_to_markdown] (main.py, lines 88-90). *)
Definition convert_pdf_to_markdown (C : Collaborators) (pdf_path : pystr) : M pystr :=
  fun st =>
    match files st !! pdf_path with
    | Some content => call (EConvert pdf_path) (convert C content) st
    | None => (Raise (OtherError (lit "No such file: " ++ pdf_path)), st)
    end.

(** [l[0]]. *)
Definition index0 {A} (l : list A) : M A :=
  match l with
  | x :: _ => ret x
  | [] => raise (OtherError (lit "list index out of range"))
  end.

(** [str(uuid.uuid4())]: the 128 bits of the identifier in lower-case
    hexadecimal, grouped 8-4-4-4-12. *)
Definition hex_digit (d : N) : N :=
  if (d <? 10)%N then (48 + d)%N else (87 + d)%N.

Fixpoint hex (digits : nat) (x : N) : pystr :=
  match digits with
  | O => []
  | S k => hex k (x / 16)%N ++ [hex_digit (x mod 16)%N]
  end.

Definition uuid_str (u : N) : pystr :=
  hex 8 (u / 2 ^ 96)%N ++ lit "-" ++ hex 4 (u / 2 ^ 80)%N ++ lit "-"
  ++ hex 4 (u / 2 ^ 64)%N ++ lit "-" ++ hex 4 (u / 2 ^ 48)%N ++ lit "-"
  ++ hex 12 u.

Definition MAIN_COLLECTION : pystr := lit "main_research_papers".

(** ** Prompts ([PROMPT_TEMPLATES], main.py, lines 102-113)

    A template with a [{placeholder}] is the function that [str.format]
    computes from it. *)

Record Prompts := {
  map_system : pystr;
  map_user : pystr -> pystr;
  reduce_system : pystr;
  reduce_user : pystr -> pystr;
  qa_system : pystr;
  qa_user : pystr -> pystr -> pystr
}.

Definition RULE : pystr := [LF] ++ lit "---" ++ [LF].

Definition PROMPTS_EN : Prompts := {|
  map_system := lit "Summarize the key points of the following text in a single, well-written paragraph in English.";
  map_user := fun chunk => lit "Please summarize this text: " ++ chunk;
  reduce_system := lit "You are an expert academic research summarizer. Generate a final structured summary in a valid JSON format in English. The JSON keys must be: 'research_objective', 'methods', 'main_results', 'conclusions'. If a key's information is not found, return an empty string.";
  reduce_user := fun combined_summary =>
    lit "Here are the summaries:" ++ [LF] ++ RULE ++ combined_summary ++ [LF] ++ lit "---";
  qa_system := lit "You are a helpful Q&A assistant. Based on the provided context, answer the user's question **in the same language they used for the question**. If the context isn't relevant or doesn't contain the answer, state that you cannot answer based on the information.";
  qa_user := fun context question =>
    lit "Context:" ++ RULE ++ context ++ RULE ++ lit "Question: " ++ question
|}.

Definition PROMPTS_ID : Prompts := {|
  map_system := lit "Ringkaslah poin-poin utama dari teks berikut dalam satu paragraf yang ditulis dengan baik dalam Bahasa Indonesia.";
  map_user := fun chunk => lit "Tolong ringkas teks ini: " ++ chunk;
  reduce_system := lit "Anda adalah seorang ahli peringkas riset akademis. Buatlah sebuah ringkasan akhir terstruktur dalam format JSON yang valid dalam Bahasa Indonesia. Kunci JSON harus: 'research_objective', 'methods', 'main_results', 'conclusions'. Jika informasi untuk kunci tidak ditemukan, kembalikan string kosong.";
  reduce_user := fun combined_summary =>
    lit "Berikut adalah kumpulan ringkasan:" ++ [LF] ++ RULE ++ combined_summary ++ [LF] ++ lit "---";
  qa_system := lit "Anda adalah asisten Tanya Jawab yang membantu. Berdasarkan konteks yang diberikan, jawab pertanyaan pengguna **dalam bahasa yang sama dengan yang mereka gunakan untuk bertanya**. Jika konteks tidak relevan atau tidak berisi jawaban, nyatakan bahwa Anda tidak dapat menjawab berdasarkan informasi yang diberikan.";
  qa_user := fun context question =>
    lit "Konteks:" ++ RULE ++ context ++ RULE ++ lit "Pertanyaan: " ++ question
|}.

(** The dictionary, as its lookup. *)
Definition PROMPT_TEMPLATES (lang : pystr) : option Prompts :=
  if bool_decide (lang = lit "en") then Some PROMPTS_EN
  else if bool_decide (lang = lit "id") then Some PROMPTS_ID
  else None.

(** [NO_CONTEXT_MESSAGES] (main.py, lines 236-239). *)
Definition NO_CONTEXT_MESSAGES (lang : pystr) : option pystr :=
  if bool_decide (lang = lit "id") then
    Some (lit "Hmm, saya tidak melihat jawaban yang pas dari data saat ini. Bisa jadi pertanyaannya perlu sedikit diperjelas.")
  else if bool_decide (lang = lit "en") then
    Some (lit "Hmm, I can't seem to find a suitable answer from the current data. Perhaps the question could be clarified a bit.")
  else None.

Definition messages (system user : pystr) : list (pystr * pystr) :=
  [(lit "system", system); (lit "user", user)].

(** ** [POST /summarize]: [summarize_pdf] (main.py, lines 131-181) *)

Record SummarizeResponse := {
  response_filename : pystr;
  structured_summary : list (pystr * pyvalue);
  response_document_id : pystr
}.

Definition NOT_FOUND : pyvalue := PStr (lit "Tidak ditemukan.").

(** [structured_summary.get(key, "Tidak ditemukan.")]: only a [dict] has
    [get]. *)
Definition get_or_not_found (structured : pyvalue) (key : pystr) : M pyvalue :=
  match structured with
  | PDict items => ret (dict_get items key NOT_FOUND)
  | other =>
      raise (OtherError (lit "'" ++ type_name other
                         ++ lit "' object has no attribute 'get'"))
  end.

(** Line 160. *)
Definition final_summary_of (structured : pyvalue) : M (list (pystr * pyvalue)) :=
  research_objective <- get_or_not_found structured (lit "research_objective") ;;
  methods <- get_or_not_found structured (lit "methods") ;;
  main_results <- get_or_not_found structured (lit "main_results") ;;
  conclusions <- get_or_not_found structured (lit "conclusions") ;;
  ret [ (lit "Tujuan Penelitian", research_objective);
        (lit "Metode", methods);
        (lit "Hasil Utama", main_results);
        (lit "Kesimpulan", conclusions) ].

(** Lines 158-162: a [ValueError] of the parse becomes the 500 of the
    summary; nothing else is caught here. *)
Definition parse_summary (C : Collaborators) (llm_output_text : pystr)
    : M (list (pystr * pyvalue)) :=
  try_except
    (structured <- lift (json_loads C llm_output_text) ;;
     final_summary_of structured)
    (fun e =>
       if is_value_error e
       then raise (HTTPException 500 (lit "Failed to parse summary from LLM."))
       else raise e).

(** The chunker inside a request: the loop gets more fuel than it can
    use on a text of this length whenever it leaves at all. *)
Definition chunks_of (text : pystr) (chunk_size overlap : Z) : M (list pystr) :=
  match chunk_text_by_char (S (length text)) text chunk_size overlap with
  | Some chunks => ret chunks
  | None => diverge
  end.

Definition chat (C : Collaborators) (msgs : list (pystr * pystr))
    (max_tokens : Z) (temperature : float) (json_object : bool) : M pystr :=
  call (EChatCompletion msgs max_tokens temperature json_object)
       (create_chat_completion C msgs max_tokens temperature json_object).

(** Lines 146-151: the map phase, chunk after chunk. *)
Fixpoint map_phase (C : Collaborators) (prompts : Prompts)
    (text_chunks : list pystr) (chunk_summaries : list pystr) : M (list pystr) :=
  match text_chunks with
  | [] => ret chunk_summaries
  | chunk :: rest =>
      content <- chat C (messages (map_system prompts) (map_user prompts chunk))
                   512 0.2%float false ;;
      map_phase C prompts rest (chunk_summaries ++ [content])
  end.

(** [f"chunk_{i}" for i in range(n)]. *)
Definition chunk_ids (n : nat) : list pystr :=
  List.map (fun i => lit "chunk_" ++ str_nat i) (seq 0 n).

(** Lines 140-174: the body of the [try], after the upload is saved. *)
Definition summarize_body (C : Collaborators) (filename : pystr)
    (lang : pystr) (document_id tmp_pdf_path : pystr)
    : M SummarizeResponse :=
  markdown_text <- convert_pdf_to_markdown C tmp_pdf_path ;;
  let cleaned_text := clean_text markdown_text in
  if bool_decide (cleaned_text = []) || isspace cleaned_text then
    raise (HTTPException 500 (lit "Failed to extract meaningful text from PDF."))
  else
    text_chunks <- chunks_of cleaned_text 3000 200 ;;
    prompts <- match PROMPT_TEMPLATES lang with
               | Some prompts => ret prompts
               | None => raise (OtherError (lit "'" ++ lang ++ lit "'"))
               end ;;
    chunk_summaries <- map_phase C prompts text_chunks [] ;;
    let combined_summary := join [LF; LF] chunk_summaries in
    llm_output_text <- chat C (messages (reduce_system prompts)
                                 (reduce_user prompts combined_summary))
                         1024 0.1%float true ;;
    final_summary <- parse_summary C llm_output_text ;;
    doc_chunks_for_qa <- chunks_of cleaned_text 1000 150 ;;
    embeddings <- call (EEmbedDocuments doc_chunks_for_qa)
                    (embed_documents C doc_chunks_for_qa) ;;
    collection <- create_collection document_id ;;
    collection_add C collection embeddings doc_chunks_for_qa
      (chunk_ids (length doc_chunks_for_qa)) ;;;
    ret {| response_filename := filename;
           structured_summary := final_summary;
           response_document_id := document_id |}.

(** Lines 175-179: the handler. *)
Definition summarize_rollback (document_id : pystr) (e : exn) : M SummarizeResponse :=
  try_except (delete_collection document_id) (fun _ => ret tt) ;;;
  raise (HTTPException 500 (lit "Internal server error: " ++ str_exn e)).

(** Line 134: [if lang not in PROMPT_TEMPLATES: lang = "en"]. *)
Definition normalize_lang (lang : pystr) : pystr :=
  match PROMPT_TEMPLATES lang with
  | None => lit "en"
  | Some _ => lang
  end.

(** [content] is the upload, [uuid] the value that [uuid.uuid4()] draws,
    [tmp] the name that [NamedTemporaryFile] picks. [tmp_pdf_path] is
    [None] (line 135) until line 139 binds it; the [finally] of line 181
    reads it. *)
Definition summarize_pdf (C : Collaborators) (filename : pystr)
    (content : list N) (lang : pystr) (uuid : N) (tmp : pystr)
    : M SummarizeResponse :=
  if negb (endswith filename (lit ".pdf")) then
    raise (HTTPException 400 (lit "Invalid file type. Please upload a PDF."))
  else
    let lang := normalize_lang lang in
    let document_id := uuid_str uuid in
    try_bind_finally
      (write_temp C tmp content)
      (fun tmp_pdf_path =>
         close_temp C content ;;;
         summarize_body C filename lang document_id tmp_pdf_path)
      (summarize_rollback document_id)
      remove_if_exists.

(** ** [POST /qa]: [question_answering] (main.py, lines 183-245) *)

Record QARequest := {
  document_id : option pystr;
  question : pystr;
  lang : pystr
}.

Definition T1 : float := 1.0%float.
Definition T2 : float := 1.2%float.

(** Lines 195-208. The step gives the context it found, if any; every
    exception inside it is caught and means no context. *)
Definition step1 (C : Collaborators) (request : QARequest)
    (query_embedding : list float) : M (option pystr) :=
  match document_id request with
  | Some (c :: name') =>
      let name := c :: name' in
      try_except
        (temp_collection <- get_collection name ;;
         results <- collection_query C temp_collection query_embedding 2 ;;
         match documents results with
         | [] => ret None
         | _ :: _ =>
             row <- index0 (distances results) ;;
             d <- index0 row ;;
             if (d <? T1)%float then
               docs <- index0 (documents results) ;;
               ret (Some (join [LF; LF] docs))
             else ret None
         end)
        (fun _ => ret None)
  | _ => ret None
  end.

(** Lines 211-224. *)
Definition step2 (C : Collaborators) (query_embedding : list float)
    : M (option pystr) :=
  try_except
    (main_collection <- get_collection MAIN_COLLECTION ;;
     results <- collection_query C main_collection query_embedding 1 ;;
     docs <- index0 (documents results) ;;
     match docs with
     | [] => ret None
     | _ :: _ =>
         row <- index0 (distances results) ;;
         d <- index0 row ;;
         if (d <? T2)%float then ret (Some (join [LF; LF] docs)) else ret None
     end)
    (fun _ => ret None).

(** Lines 227-241. *)
Definition step3 (C : Collaborators) (request : QARequest)
    (context_text : option pystr) : M pystr :=
  match context_text with
  | Some context =>
      let prompts := default PROMPTS_EN (PROMPT_TEMPLATES (lang request)) in
      chat C (messages (qa_system prompts)
                (qa_user prompts context (question request)))
        512 0.3%float false
  | None =>
      ret (default
             (lit "Hmm, I can't seem to find a suitable answer from the current data. Perhaps the question could be clarified a bit.")
             (NO_CONTEXT_MESSAGES (lang request)))
  end.

Definition question_answering (C : Collaborators) (request : QARequest) : M pystr :=
  try_except
    (query_embedding <- call (EEmbedQuery (question request))
                          (embed_query C (question request)) ;;
     found1 <- step1 C request query_embedding ;;
     context_text <- match found1 with
                     | Some context => ret (Some context)
                     | None => step2 C query_embedding
                     end ;;
     step3 C request context_text)
    (fun e => raise (HTTPException 500 (lit "Internal server error: " ++ str_exn e))).

(** ** [GET /]: [root] (main.py, lines 128-129) *)
Definition root : M pystr := ret (lit "RAG Summarization API is running.").

(** ** Vocabulary of the properties *)

(** How many chunks a call of the chunker returns. *)
Definition chunk_number (text : pystr) (chunk_size overlap : Z) : nat :=
  if len text <=? chunk_size then 1%nat
  else Z.to_nat (ceil_div (len text) (chunk_size - overlap)).

(** The events that a run added to the trace. *)
Definition new_events (before after : State) : list Event :=
  drop (length (trace before)) (trace after).

Definition is_chat (ev : Event) : bool :=
  match ev with EChatCompletion _ _ _ _ => true | _ => false end.

Definition is_delete (ev : Event) : bool :=
  match ev with EDeleteCollection _ => true | _ => false end.

(** Calls to the language model among some events. *)
Definition llm_calls (evs : list Event) : list Event := List.filter is_chat evs.

(** What the store answers when collection [name] is asked for the [k]
    nearest chunks: the chunks of the first (only) query, and the distance
    of the nearest. [None] when there is no such collection, the query
    fails, or the answer has no first chunk list or no first distance. *)
Definition nearest (C : Collaborators) (st : State) (name : pystr)
    (query_embedding : list float) (k : Z) : option (list pystr * float) :=
  match collections st !! name with
  | None => None
  | Some entries =>
      match query_nearest C entries query_embedding k with
      | Throws _ => None
      | Returns r =>
          match documents r, distances r with
          | docs :: _, (d :: _) :: _ => Some (docs, d)
          | _, _ => None
          end
      end
  end.

(** Tier 1 admits: a document id is supplied and the nearest distance in
    its collection is below [T1]. The context is the chunks returned,
    joined by a blank line. *)
Definition tier1_context (C : Collaborators) (st : State) (request : QARequest)
    (query_embedding : list float) : option pystr :=
  match document_id request with
  | Some (c :: name') =>
      match nearest C st (c :: name') query_embedding 2 with
      | Some (docs, d1) => if (d1 <? T1)%float then Some (join [LF; LF] docs) else None
      | None => None
      end
  | _ => None
  end.

(** Tier 2 admits: the main collection returns a chunk and its distance is
    below [T2]. *)
Definition main_context (C : Collaborators) (st : State)
    (query_embedding : list float) : option pystr :=
  match nearest C st MAIN_COLLECTION query_embedding 1 with
  | Some (doc :: docs, d2) =>
      if (d2 <? T2)%float then Some (join [LF; LF] (doc :: docs)) else None
  | _ => None
  end.

(** The call that generates an answer from a context, and what the
    endpoint makes of its result. *)
Definition qa_call (request : QARequest) (context : pystr) : Event :=
  let prompts := default PROMPTS_EN (PROMPT_TEMPLATES (lang request)) in
  EChatCompletion
    (messages (qa_system prompts) (qa_user prompts context (question request)))
    512 0.3%float false.

Definition generated (C : Collaborators) (request : QARequest) (context : pystr)
    : outcome pystr :=
  let prompts := default PROMPTS_EN (PROMPT_TEMPLATES (lang request)) in
  match create_chat_completion C
          (messages (qa_system prompts) (qa_user prompts context (question request)))
          512 0.3%float false with
  | Returns answer => Ok answer
  | Throws e => Raise (HTTPException 500 (lit "Internal server error: " ++ str_exn e))
  end.

Definition no_answer_message (language : pystr) : pystr :=
  if bool_decide (language = lit "id") then
    lit "Hmm, saya tidak melihat jawaban yang pas dari data saat ini. Bisa jadi pertanyaannya perlu sedikit diperjelas."
  else
    lit "Hmm, I can't seem to find a suitable answer from the current data. Perhaps the question could be clarified a bit.".

(** The value bound to a key in a list of items, if any. *)
Fixpoint lookup_key (items : list (pystr * pyvalue)) (key : pystr) : option pyvalue :=
  match items with
  | [] => None
  | (k, v) :: rest => if bool_decide (k = key) then Some v else lookup_key rest key
  end.

(** JSON key and display field, in the order of the summary. *)
Definition SUMMARY_KEYS : list (pystr * pystr) :=
  [ (lit "research_objective", lit "Tujuan Penelitian");
    (lit "methods", lit "Metode");
    (lit "main_results", lit "Hasil Utama");
    (lit "conclusions", lit "Kesimpulan") ].

(** The prompts that a language code stands for. *)
Definition prompts_of (language : pystr) : Prompts :=
  if bool_decide (language = lit "id") then PROMPTS_ID else PROMPTS_EN.

(** A call to the language model made with the map or the reduce prompt
    of [prompts]. *)
Definition summarizer_call (prompts : Prompts) (ev : Event) : Prop :=
  match ev with
  | EChatCompletion msgs _ _ _ =>
      (exists chunk, msgs = messages (map_system prompts) (map_user prompts chunk))
      \/ (exists combined, msgs = messages (reduce_system prompts) (reduce_user prompts combined))
  | _ => True
  end.

(** The calls that steps 1 and 2 of [/qa] make to the store. *)
Definition step1_events (st : State) (request : QARequest) : list Event :=
  match document_id request with
  | Some (c :: name') =>
      EGetCollection (c :: name')
      :: match collections st !! (c :: name') with
         | Some _ => [EQuery (c :: name') 2]
         | None => []
         end
  | _ => []
  end.

Definition step2_events (st : State) : list Event :=
  EGetCollection MAIN_COLLECTION
  :: match collections st !! MAIN_COLLECTION with
     | Some _ => [EQuery MAIN_COLLECTION 1]
     | None => []
     end.

(** [st'] is [st] with the events [evs] appended to its trace. *)
Definition extends (st : State) (evs : list Event) (st' : State) : Prop :=
  collections st' = collections st /\ files st' = files st
  /\ trace st' = trace st ++ evs.

(** Where a pattern matches: at the start of a text (with a match that
    is not empty), and anywhere in it. *)
Definition matches_at (p : regex) (s : pystr) : bool :=
  match match_here p s with
  | Some (S _) => true
  | _ => false
  end.

Fixpoint has_match (p : regex) (s : pystr) : bool :=
  match s with
  | [] => false
  | _ :: s' => matches_at p s || has_match p s'
  end.

(** What must follow a first character for a pattern to match: a [|]
    further on the line, after [|]; the rest of a run of [#] and then a
    white space, after [#]; white space up to a line feed, after a line
    feed. *)
Fixpoint pipe_in_line (s : pystr) : bool :=
  match s with
  | [] => false
  | c :: s' =>
      if (c =? LF)%N then false
      else if (c =? 124)%N then true
      else pipe_in_line s'
  end.

Fixpoint hashes_then_space (s : pystr) : bool :=
  match s with
  | [] => false
  | c :: s' => if (c =? 35)%N then hashes_then_space s' else is_space c
  end.

Fixpoint spaces_then_newline (s : pystr) : bool :=
  match s with
  | [] => false
  | c :: s' =>
      if (c =? LF)%N then true
      else if is_space c then spaces_then_newline s'
      else false
  end.

(** A pattern whose matches are told by the first character and by what
    follows it. *)
Definition match_told_by (p : regex) (first : N -> bool) (follows : pystr -> bool) : Prop :=
  forall c s, matches_at p (c :: s) = first c && follows s.

(** A text that is at the end of a line. *)
Definition at_line_end (s : pystr) : bool :=
  match s with
  | [] => true
  | c :: _ => (c =? LF)%N
  end.

(** Every run of [m] takes a state to one related to it by [R]. *)
Definition respects (R : State -> State -> Prop) {A} (m : M A) : Prop :=
  forall st, R st (snd (m st)).

(** The relation used throughout: the run appended events that all
    satisfy [P], and left alone every collection whose name satisfies
    [keep]. *)
Definition frame (P : Event -> Prop) (keep : pystr -> Prop) (st st' : State) : Prop :=
  (exists evs, trace st' = trace st ++ evs /\ Forall P evs) /\
  (forall name, keep name -> collections st' !! name = collections st !! name).

(** Every run of [m] returns or raises. *)
Definition total {A} (m : M A) : Prop := forall st, fst (m st) <> Diverge.

(** ** Sample collaborators and states, for the examples

    A converter that yields one short page, a language model that answers
    with fixed texts, a store that measures distance on the first
    coordinate and returns the first [k] entries; [fault] makes one of
    them fail. *)

Inductive Fault :=
  | NoFault | ConverterFails | ModelFails | OutputNotJSON | EmbeddingFails
  | StoreRejects.

Definition SAMPLE_PAGE : pystr :=
  lit "# Deep nets" ++ [LF] ++ lit "Deep nets [1] work." ++ [LF] ++ [LF]
  ++ lit "| a | b |".

Definition sample (fault : Fault) : Collaborators := {|
  upload := fun _ => Saved;
  convert := fun _ =>
    match fault with
    | ConverterFails => Throws (OtherError (lit "conversion failed"))
    | _ => Returns SAMPLE_PAGE
    end;
  create_chat_completion := fun _ _ _ json_object =>
    match fault with
    | ModelFails => Throws (OtherError (lit "model failed"))
    | _ => Returns (if json_object then lit "{}" else lit "Nets work.")
    end;
  json_loads := fun _ =>
    match fault with
    | OutputNotJSON => Throws (ValueError (lit "Expecting value"))
    | _ => Returns (PDict [ (lit "research_objective", PStr (lit "Study nets"));
                            (lit "methods", PStr []) ])
    end;
  embed_documents := fun texts =>
    match fault with
    | EmbeddingFails => Throws (OtherError (lit "embedding failed"))
    | _ => Returns (List.map (fun _ => [0.25%float]) texts)
    end;
  embed_query := fun _ => Returns [0.5%float];
  query_nearest := fun entries q k =>
    let hits := take (Z.to_nat k) entries in
    Returns {| documents := [List.map entry_document hits];
               distances :=
                 [List.map (fun e => abs (hd 0%float q - hd 0%float (entry_embedding e))%float)
                    hits] |};
  add_rejects := fun _ _ _ =>
    match fault with
    | StoreRejects => Some (ValueError (lit "batch rejected"))
    | _ => None
    end
|}.

(** A store with the main collection only; its one entry lies at
    [first] on the first coordinate. *)
Definition main_only (first : float) : State := {|
  collections :=
    {[ MAIN_COLLECTION :=
         [ {| entry_id := lit "dummy_entry_1";
              entry_document := lit "Artificial intelligence is a branch of computer science.";
              entry_embedding := [first] |} ] ]};
  files := ∅;
  trace := []
|}.

Definition SAMPLE_UUID : N := 0x123e4567e89b42d3a456426614174000%N.

(** The store after the sample page has been ingested. *)
Definition after_ingestion (first : float) : State :=
  snd (summarize_pdf (sample NoFault) (lit "paper.pdf") [37; 80; 68; 70]%N
         (lit "en") SAMPLE_UUID (lit "/tmp/tmpa1b2c3.pdf") (main_only first)).

(** ** Start-up: [lifespan] (main.py, lines 42-60), the part on the store

    [get_or_create_collection] and [count] have no event of their own in
    the trace. [default_embedding] is the embedding function that the
    store applies to documents added without embeddings. *)

Definition get_or_create_collection (name : pystr) : M pystr :=
  fun st =>
    match collections st !! name with
    | Some _ => (Ok name, st)
    | None => (Ok name, set_collections (insert name []) st)
    end.

Definition collection_count (name : pystr) : M Z :=
  fun st =>
    match collections st !! name with
    | Some entries => (Ok (Z.of_nat (length entries)), st)
    | None => (Raise (ValueError (lit "Collection " ++ name ++ lit " does not exist.")), st)
    end.

Definition DUMMY_DOCUMENT : pystr :=
  lit "Artificial intelligence is a branch of computer science.".

Definition DUMMY_ID : pystr := lit "dummy_entry_1".

Definition lifespan_store (C : Collaborators)
    (default_embedding : list pystr -> result (list (list float))) : M unit :=
  try_except
    (main_collection <- get_or_create_collection MAIN_COLLECTION ;;
     n <- collection_count main_collection ;;
     (if n =? 0 then
        embeddings <- lift (default_embedding [DUMMY_DOCUMENT]) ;;
        collection_add C main_collection embeddings [DUMMY_DOCUMENT] [DUMMY_ID]
      else ret tt) ;;;
     collection_count main_collection ;;;
     ret tt)
    (fun _ => ret tt).

(** ** [preprocessing.py], line 120: [" ".join(clean_text.split())] *)

(** [s.split()]: the maximal runs of characters that are not white
    space. [word] is the run being read. *)
Fixpoint split_from (word : pystr) (s : pystr) : list pystr :=
  match s with
  | [] => match word with [] => [] | _ => [word] end
  | c :: s' =>
      if is_space c then
        match word with
        | [] => split_from [] s'
        | _ => word :: split_from [] s'
        end
      else split_from (word ++ [c]) s'
  end.

Definition split (s : pystr) : list pystr := split_from [] s.

Definition SPACE : N := 32%N.

Definition normalize_spaces (s : pystr) : pystr := join [SPACE] (split s).

(** ** Vocabulary of the further properties *)

(** The chunks of a text, for valid parameters. *)
Definition windows (text : pystr) (chunk_size overlap : Z) : list pystr :=
  List.map (window text chunk_size (chunk_size - overlap))
    (seq 0 (chunk_number text chunk_size overlap)).

(** The calls of the map and the reduce phase. *)
Definition map_call (prompts : Prompts) (chunk : pystr) : Event :=
  EChatCompletion (messages (map_system prompts) (map_user prompts chunk))
    512 0.2%float false.

Definition reduce_call (prompts : Prompts) (combined_summary : pystr) : Event :=
  EChatCompletion
    (messages (reduce_system prompts) (reduce_user prompts combined_summary))
    1024 0.1%float true.

(** The summary that line 160 builds from the items of an object. *)
Definition summary_of_items (items : list (pystr * pyvalue)) : list (pystr * pyvalue) :=
  List.map (fun kf => (snd kf, default NOT_FOUND (lookup_key items (fst kf))))
    SUMMARY_KEYS.

(** Every step of an ingestion succeeds: the upload is saved, the
    converter returns a text that is not empty after cleaning, the model
    answers every map call and the reduce call, the answer of the reduce
    call parses to an object, the embedding model returns one vector per
    chunk, no collection has the document id yet, and the store accepts
    the chunks. [summaries] are the answers of the map calls, [items] the
    parsed object, [embeddings] the vectors. *)
Definition ingestion_succeeds (C : Collaborators) (content : list N)
    (language : pystr) (document_id : pystr) (st : State)
    (markdown : pystr) (summaries : list pystr) (items : list (pystr * pyvalue))
    (embeddings : list (list float)) : Prop :=
  let cleaned := clean_text markdown in
  let prompts := prompts_of language in
  let qa_chunks := windows cleaned 1000 150 in
  upload C content = Saved /\
  convert C content = Returns markdown /\
  cleaned <> [] /\
  Forall2 (fun chunk summary =>
             create_chat_completion C
               (messages (map_system prompts) (map_user prompts chunk))
               512 0.2%float false = Returns summary)
    (windows cleaned 3000 200) summaries /\
  (exists output,
     create_chat_completion C
       (messages (reduce_system prompts)
          (reduce_user prompts (join [LF; LF] summaries)))
       1024 0.1%float true = Returns output /\
     json_loads C output = Returns (PDict items)) /\
  embed_documents C qa_chunks = Returns embeddings /\
  length embeddings = length qa_chunks /\
  collections st !! document_id = None /\
  add_rejects C (chunk_ids (length qa_chunks)) qa_chunks embeddings = None.

(** A word of a split text: not empty, without white space. *)
Definition is_word (w : pystr) : Prop :=
  w <> [] /\ Forall (fun c => is_space c = false) w.

(** The events of a question that talk to the store or to the model. *)
Definition is_store_read (ev : Event) : bool :=
  match ev with
  | EGetCollection _ | EQuery _ _ => true
  | _ => false
  end.

(** ** More samples, for the examples

    A converter that finds a table and nothing else on the page; an
    upload that cannot be written; the embedding function of a store; a
    store without collections. *)

Definition sample_scan : Collaborators := {|
  upload := fun _ => Saved;
  convert := fun _ => Returns (lit "| a | b |" ++ [LF] ++ lit "| 1 | 2 |");
  create_chat_completion := create_chat_completion (sample NoFault);
  json_loads := json_loads (sample NoFault);
  embed_documents := embed_documents (sample NoFault);
  embed_query := embed_query (sample NoFault);
  query_nearest := query_nearest (sample NoFault);
  add_rejects := add_rejects (sample NoFault)
|}.

(** An upload that cannot be written: the disk is full after two bytes. *)
Definition sample_disk_full : Collaborators := {|
  upload := fun _ => WriteFails (OtherError (lit "[Errno 28] No space left on device")) 2;
  convert := convert (sample NoFault);
  create_chat_completion := create_chat_completion (sample NoFault);
  json_loads := json_loads (sample NoFault);
  embed_documents := embed_documents (sample NoFault);
  embed_query := embed_query (sample NoFault);
  query_nearest := query_nearest (sample NoFault);
  add_rejects := add_rejects (sample NoFault)
|}.

Definition sample_default_embedding (works : bool) (texts : list pystr)
    : result (list (list float)) :=
  if works then Returns (List.map (fun _ => [0.5%float]) texts)
  else Throws (OtherError (lit "no embedding model")).

Definition empty_store : State := {| collections := ∅; files := ∅; trace := [] |}.

(** * Part II: properties *)

(** ** The chunker *)

Section Chunker.

Lemma ceil_div_bounds a b :
  0 < b -> b * (ceil_div a b - 1) < a <= b * ceil_div a b.
Proof.
  intros Hb. unfold ceil_div.
  pose proof (Z.div_mod (a + b - 1) b ltac:(lia)) as Hdm.
  pose proof (Z.mod_pos_bound (a + b - 1) b Hb) as Hm.
  lia.
Qed.

Lemma ceil_div_nonneg a b : 0 < b -> 0 <= a -> 0 <= ceil_div a b.
Proof.
  intros Hb Ha. pose proof (ceil_div_bounds a b Hb). nia.
Qed.

Lemma py_slice_take_drop (s : pystr) lo n :
  0 <= lo -> 0 <= n ->
  py_slice s lo (lo + n) = take (Z.to_nat n) (drop (Z.to_nat lo) s).
Proof.
  intros Hlo Hn. unfold py_slice, slice_index, len.
  destruct (Z.ltb_spec lo 0); [lia|]. destruct (Z.ltb_spec (lo + n) 0); [lia|].
  destruct (Z.le_gt_cases lo (Z.of_nat (length s))) as [Hle|Hgt].
  - rewrite (Z.min_l lo) by lia.
    destruct (Z.le_gt_cases (lo + n) (Z.of_nat (length s))) as [Hle'|Hgt'].
    + rewrite Z.min_l by lia. f_equal. lia.
    + rewrite Z.min_r by lia.
      rewrite !take_ge; [done| |]; rewrite length_drop; lia.
  - rewrite !drop_ge by lia. by rewrite !take_nil.
Qed.

(** With a positive step, [m] windows remain from [start] when
    [start + (m-1)*step < len <= start + m*step]; any fuel above [m]
    lets the loop emit exactly those windows and leave. *)
Lemma chunk_loop_unroll (text : pystr) chunk_size overlap :
  forall (m fuel : nat) (start : Z) (chunks : list pystr),
    0 < chunk_size - overlap ->
    (m < fuel)%nat ->
    len text <= start + Z.of_nat m * (chunk_size - overlap) ->
    (m = 0%nat \/ start + (Z.of_nat m - 1) * (chunk_size - overlap) < len text) ->
    chunk_loop fuel text chunk_size overlap start chunks =
      Some (chunks ++
            List.map (fun k => py_slice text
                        (start + Z.of_nat k * (chunk_size - overlap))
                        (start + Z.of_nat k * (chunk_size - overlap) + chunk_size))
                     (seq 0 m)).
Proof.
  induction m as [|m IH]; intros fuel start chunks Hstep Hfuel Hhi Hlo.
  - destruct fuel as [|fuel]; [lia|]. simpl.
    destruct (Z.ltb_spec start (len text)); [lia|]. by rewrite app_nil_r.
  - destruct fuel as [|fuel]; [lia|]. simpl chunk_loop.
    destruct (Z.ltb_spec start (len text)) as [Hlt|Hge].
    2:{ destruct Hlo as [?|Hlo]; [lia|]. nia. }
    rewrite IH by lia.
    rewrite <- app_assoc. f_equal. f_equal. simpl. f_equal.
    + f_equal; lia.
    + rewrite <- seq_shift, List.map_map. apply List.map_ext. intros k.
      f_equal; lia.
Qed.

Lemma chunk_number_le (text : pystr) chunk_size overlap :
  0 <= overlap < chunk_size ->
  (chunk_number text chunk_size overlap <= Nat.max 1 (length text))%nat.
Proof.
  intros H. unfold chunk_number. destruct (Z.leb_spec (len text) chunk_size); [lia|].
  pose proof (ceil_div_bounds (len text) (chunk_size - overlap) ltac:(lia)).
  unfold len in *. nia.
Qed.

(** The whole result: the windows [0 .. chunk_number - 1], in order. *)
Lemma chunk_text_by_char_windows (text : pystr) chunk_size overlap fuel :
  0 <= overlap < chunk_size ->
  (length text < fuel)%nat ->
  chunk_text_by_char fuel text chunk_size overlap =
    Some (List.map (window text chunk_size (chunk_size - overlap))
            (seq 0 (chunk_number text chunk_size overlap))).
Proof.
  intros Hv Hfuel. unfold chunk_text_by_char, chunk_number.
  destruct (Z.leb_spec (len text) chunk_size) as [Hle|Hgt].
  - simpl. unfold window. rewrite Z.mul_0_l.
    rewrite (py_slice_take_drop text 0 chunk_size) by (unfold len in *; lia).
    simpl. rewrite take_ge; [done|]. rewrite length_drop. unfold len in Hle. lia.
  - pose proof (ceil_div_bounds (len text) (chunk_size - overlap) ltac:(lia)) as Hc.
    pose proof (ceil_div_nonneg (len text) (chunk_size - overlap) ltac:(lia)
                  ltac:(unfold len; lia)) as Hn.
    rewrite (chunk_loop_unroll text chunk_size overlap
               (Z.to_nat (ceil_div (len text) (chunk_size - overlap)))).
    + simpl. f_equal.
    + lia.
    + unfold len in *. nia.
    + rewrite Z2Nat.id by lia. lia.
    + right. rewrite Z2Nat.id by lia. lia.
Qed.

Lemma window_take_drop (text : pystr) chunk_size step k :
  0 <= chunk_size -> 0 <= step ->
  window text chunk_size step k =
    take (Z.to_nat chunk_size) (drop (k * Z.to_nat step) text).
Proof.
  intros Hs Hst. unfold window. rewrite py_slice_take_drop by lia.
  do 2 f_equal. lia.
Qed.

(** C9. Under [0 <= overlap < chunk_size] the chunker returns on every
    text: the loop has left once it has had more fuel than the text has
    characters, and more fuel does not change what it returns. *)
Theorem chunker_terminates (text : pystr) (chunk_size overlap : Z) :
  0 <= overlap < chunk_size ->
  exists chunks, forall fuel, (length text < fuel)%nat ->
    chunk_text_by_char fuel text chunk_size overlap = Some chunks.
Proof.
  intros Hv. eexists. intros fuel Hfuel.
  by apply chunk_text_by_char_windows.
Qed.

Lemma chunker_terminates_witness :
  exists chunks, forall fuel, (length (lit "abcdefghij") < fuel)%nat ->
    chunk_text_by_char fuel (lit "abcdefghij") 4 2 = Some chunks.
Proof. apply (chunker_terminates (lit "abcdefghij") 4 2). lia. Defined.

(** Outside the precondition the loop need not leave: with
    [overlap = chunk_size] the start never moves. *)
Lemma chunker_stuck_without_progress (text : pystr) (chunk_size : Z) fuel :
  0 <= chunk_size < len text ->
  chunk_text_by_char fuel text chunk_size chunk_size = None.
Proof.
  intros H. unfold chunk_text_by_char.
  destruct (Z.leb_spec (len text) chunk_size); [lia|].
  assert (Hlen : 0 < len text) by lia.
  generalize (@nil pystr) as acc.
  induction fuel as [|fuel IH]; intros acc; [done|]. simpl.
  destruct (Z.ltb_spec 0 (len text)); [|lia].
  replace (0 + (chunk_size - chunk_size)) with 0 by lia. apply IH.
Qed.

(** C2 (as amended). With [0 <= overlap < chunk_size], a text no longer
    than [chunk_size] gives exactly one chunk, and a longer text gives
    exactly [ceil(len(text) / (chunk_size - overlap))] chunks. *)
Theorem chunk_count (text : pystr) (chunk_size overlap : Z) (fuel : nat) :
  0 <= overlap < chunk_size ->
  (length text < fuel)%nat ->
  exists chunks,
    chunk_text_by_char fuel text chunk_size overlap = Some chunks /\
    (len text <= chunk_size -> length chunks = 1%nat) /\
    (chunk_size < len text ->
       Z.of_nat (length chunks) = ceil_div (len text) (chunk_size - overlap)).
Proof.
  intros Hv Hfuel. eexists. split; [by apply chunk_text_by_char_windows|].
  rewrite length_map, length_seq. unfold chunk_number.
  destruct (Z.leb_spec (len text) chunk_size); split; intros; try lia.
  rewrite Z2Nat.id; [done|].
  apply ceil_div_nonneg; unfold len; lia.
Qed.

Lemma chunk_count_witness :
  exists chunks,
    chunk_text_by_char 11 (lit "abcdefghij") 4 2 = Some chunks /\
    (len (lit "abcdefghij") <= 4 -> length chunks = 1%nat) /\
    (4 < len (lit "abcdefghij") ->
       Z.of_nat (length chunks) = ceil_div (len (lit "abcdefghij")) (4 - 2)).
Proof. apply (chunk_count (lit "abcdefghij") 4 2 11); simpl; lia. Defined.

(** C2 (as stated) fails: ten characters cut with size 4 and overlap 2
    give the five chunks that start at 0, 2, 4, 6 and 8, not
    [ceil((10 - 2) / (4 - 2)) = 4]. *)
Lemma chunk_count_claimed_formula_fails :
  ~ (forall (text : pystr) (chunk_size overlap : Z) (fuel : nat) chunks,
       0 <= overlap < chunk_size ->
       chunk_size < len text ->
       chunk_text_by_char fuel text chunk_size overlap = Some chunks ->
       Z.of_nat (length chunks)
         = ceil_div (len text - overlap) (chunk_size - overlap)).
Proof.
  intros H.
  specialize (H (lit "abcdefghij") 4 2 11%nat
                [lit "abcd"; lit "cdef"; lit "efgh"; lit "ghij"; lit "ij"]).
  discriminate H; [lia | reflexivity | reflexivity].
Qed.

(** C7. With [0 <= overlap < chunk_size]: the [k]-th chunk is
    [text[k*step : k*step + chunk_size]] for [step = chunk_size - overlap],
    so consecutive chunks start [step] characters apart; every character of
    the text lies in the span of some chunk; no chunk is longer than
    [chunk_size]; and a text no longer than [chunk_size] comes back whole,
    as the only chunk. *)
Theorem chunks_cover_text (text : pystr) (chunk_size overlap : Z) (fuel : nat) :
  0 <= overlap < chunk_size ->
  (length text < fuel)%nat ->
  exists chunks,
    chunk_text_by_char fuel text chunk_size overlap = Some chunks /\
    (forall k c, chunks !! k = Some c ->
       c = py_slice text (Z.of_nat k * (chunk_size - overlap))
                         (Z.of_nat k * (chunk_size - overlap) + chunk_size)) /\
    (forall j x, text !! j = Some x ->
       exists k c, chunks !! k = Some c /\
         (k * Z.to_nat (chunk_size - overlap) <= j
            < k * Z.to_nat (chunk_size - overlap) + length c)%nat /\
         c !! (j - k * Z.to_nat (chunk_size - overlap))%nat = Some x) /\
    Forall (fun c => len c <= chunk_size) chunks /\
    (len text <= chunk_size -> chunks = [text]).
Proof.
  intros Hv Hfuel.
  set (step := Z.to_nat (chunk_size - overlap)).
  assert (Hstep : (0 < step)%nat) by (unfold step; lia).
  eexists. split; [by apply chunk_text_by_char_windows|].
  set (n := chunk_number text chunk_size overlap).
  assert (Hlook : forall k c,
            List.map (window text chunk_size (chunk_size - overlap)) (seq 0 n) !! k = Some c ->
            (k < n)%nat /\ c = take (Z.to_nat chunk_size) (drop (k * step) text)).
  { intros k c Hk. rewrite list_lookup_fmap in Hk.
    destruct (seq 0 n !! k) as [k'|] eqn:Hs; [|done].
    apply lookup_seq in Hs as [-> Hlt]. simpl in Hk. injection Hk as <-.
    split; [done|]. apply window_take_drop; lia. }
  split; [|split; [|split]].
  - intros k c Hk. rewrite list_lookup_fmap in Hk.
    destruct (seq 0 n !! k) as [k'|] eqn:Hs; [|done].
    apply lookup_seq in Hs as [-> Hlt]. simpl in Hk. by injection Hk as <-.
  - intros j x Hj. apply lookup_lt_Some in Hj as Hjlt.
    assert (Hex : exists k, (k < n)%nat /\ (k * step <= j < k * step + Z.to_nat chunk_size)%nat).
    { unfold n, chunk_number. destruct (Z.leb_spec (len text) chunk_size) as [Hle|Hgt].
      - exists 0%nat. unfold len in *. lia.
      - exists (j / step)%nat.
        pose proof (Nat.div_mod_eq j step) as Hdm.
        pose proof (Nat.mod_upper_bound j step ltac:(lia)) as Hm.
        pose proof (ceil_div_bounds (len text) (chunk_size - overlap) ltac:(lia)) as Hc.
        unfold len in *. split; [|unfold step in *; nia].
        assert (Z.of_nat (j / step) * (chunk_size - overlap) < Z.of_nat (length text)).
        { unfold step in *. nia. }
        nia. }
    destruct Hex as (k & Hkn & Hkj).
    exists k, (take (Z.to_nat chunk_size) (drop (k * step) text)). split.
    + rewrite list_lookup_fmap, (proj2 (lookup_seq 0 n k k)) by lia.
      simpl. f_equal. apply window_take_drop; lia.
    + rewrite length_take, length_drop. split; [lia|].
      rewrite lookup_take_lt by lia. rewrite lookup_drop.
      rewrite <- Hj. f_equal. lia.
  - apply Forall_forall. intros c Hc. apply list_elem_of_lookup in Hc as [k Hk].
    apply Hlook in Hk as [_ ->]. unfold len. rewrite length_take. lia.
  - intros Hle. unfold n, chunk_number.
    destruct (Z.leb_spec (len text) chunk_size); [|lia]. simpl. f_equal.
    rewrite window_take_drop by lia. simpl. apply take_ge. unfold len in *. lia.
Qed.

Lemma chunks_cover_text_witness :
  exists chunks,
    chunk_text_by_char 11 (lit "abcdefghij") 4 2 = Some chunks /\
    (forall k c, chunks !! k = Some c ->
       c = py_slice (lit "abcdefghij") (Z.of_nat k * (4 - 2)) (Z.of_nat k * (4 - 2) + 4)) /\
    (forall j x, lit "abcdefghij" !! j = Some x ->
       exists k c, chunks !! k = Some c /\
         (k * Z.to_nat (4 - 2) <= j < k * Z.to_nat (4 - 2) + length c)%nat /\
         c !! (j - k * Z.to_nat (4 - 2))%nat = Some x) /\
    Forall (fun c => len c <= 4) chunks /\
    (len (lit "abcdefghij") <= 4 -> chunks = [lit "abcdefghij"]).
Proof. apply (chunks_cover_text (lit "abcdefghij") 4 2 11); simpl; lia. Defined.

End Chunker.

(** ** The cleaning passes *)

Section Substitution.

Variable p : regex.
Variable repl : pystr.

Lemma re_sub_from_skip (k : nat) (s : pystr) :
  re_sub_from p repl k s = re_sub p repl (drop k s).
Proof.
  revert k. induction s as [|c s IH]; intros k.
  - by destruct k.
  - destruct k as [|k]; [done|]. simpl. apply IH.
Qed.

(** One step of [re.sub]. *)
Lemma re_sub_cons (c : N) (s : pystr) :
  re_sub p repl (c :: s) =
    match match_here p (c :: s) with
    | Some (S n) => repl ++ re_sub p repl (drop n s)
    | _ => c :: re_sub p repl s
    end.
Proof.
  unfold re_sub at 1. cbn [re_sub_from].
  destruct (match_here p (c :: s)) as [[|n]|]; try done.
  by rewrite re_sub_from_skip.
Qed.

Lemma re_sub_cons_no_match (c : N) (s : pystr) :
  matches_at p (c :: s) = false -> re_sub p repl (c :: s) = c :: re_sub p repl s.
Proof.
  unfold matches_at. rewrite re_sub_cons.
  by destruct (match_here p (c :: s)) as [[|n]|].
Qed.

(** Induction along the scan of [re.sub]: a character is copied where the
    pattern does not match, and a match is replaced as a whole. *)
Lemma re_sub_ind (Q : pystr -> pystr -> Prop) :
  Q [] [] ->
  (forall c s, matches_at p (c :: s) = false ->
     Q s (re_sub p repl s) -> Q (c :: s) (c :: re_sub p repl s)) ->
  (forall c s n, match_here p (c :: s) = Some (S n) ->
     Q (drop n s) (re_sub p repl (drop n s)) ->
     Q (c :: s) (repl ++ re_sub p repl (drop n s))) ->
  forall s, Q s (re_sub p repl s).
Proof.
  intros Hnil Hcopy Hmatch s.
  remember (length s) as k eqn:Hk. revert s Hk.
  induction k as [k IH] using lt_wf_ind. intros [|c s] Hk; [done|].
  simpl in Hk. rewrite re_sub_cons.
  destruct (match_here p (c :: s)) as [[|n]|] eqn:Hm.
  - apply Hcopy; [unfold matches_at; by rewrite Hm|].
    apply (IH (length s)); [lia|done].
  - apply (Hmatch c s n Hm).
    apply (IH (length (drop n s))); [rewrite length_drop; lia|done].
  - apply Hcopy; [unfold matches_at; by rewrite Hm|].
    apply (IH (length s)); [lia|done].
Qed.

(** A text in which the pattern matches nowhere is left as it is. *)
Lemma re_sub_no_match (s : pystr) : has_match p s = false -> re_sub p repl s = s.
Proof.
  induction s as [|c s IH]; [done|]. cbn [has_match].
  intros [Hm Hs]%orb_false_iff. rewrite re_sub_cons_no_match by done.
  by rewrite IH.
Qed.

Lemma has_match_suffix (u v : pystr) :
  has_match p (u ++ v) = false -> has_match p v = false.
Proof.
  induction u as [|c u IH]; [done|]. cbn [app has_match].
  intros [_ H]%orb_false_iff. by apply IH.
Qed.

Lemma has_match_drop (n : nat) (s : pystr) :
  has_match p s = false -> has_match p (drop n s) = false.
Proof. rewrite <- (take_drop n s) at 1. apply has_match_suffix. Qed.

End Substitution.

Section Preservation.

Variables (px : regex) (first : N -> bool) (follows : pystr -> bool).
Hypothesis told : match_told_by px first follows.

(** Pass [py] keeps a text free of matches of [px], provided it never
    turns what follows a character into a continuation of [px], and its
    replacement starts no match of [px]. *)
Lemma free_preserved (py : regex) (repl : pystr) :
  (forall s, follows s = false -> follows (re_sub py repl s) = false) ->
  (forall s, has_match px s = false -> has_match px (repl ++ s) = false) ->
  forall s, has_match px s = false -> has_match px (re_sub py repl s) = false.
Proof.
  intros Hfollows Hrepl.
  apply (re_sub_ind py repl
           (fun s o => has_match px s = false -> has_match px o = false)).
  - done.
  - intros c s _ IH. cbn [has_match]. rewrite !told.
    intros [Hm Hs]%orb_false_iff. apply orb_false_iff. split; [|by apply IH].
    apply andb_false_iff in Hm as [Hf|Hf]; [by rewrite Hf|].
    rewrite (Hfollows _ Hf). apply andb_false_r.
  - intros c s n _ IH Hs. apply Hrepl, IH.
    apply (has_match_drop px (S n) (c :: s)), Hs.
Qed.

(** Cutting a text at its end keeps it free of matches when a
    continuation stays one in a longer text. *)
Lemma free_prefix (u v : pystr) :
  (forall s t, follows s = true -> follows (s ++ t) = true) ->
  has_match px (u ++ v) = false -> has_match px u = false.
Proof.
  intros Hmono. induction u as [|c u IH]; [done|]. cbn [app has_match].
  rewrite !told. intros [Hm Hs]%orb_false_iff. apply orb_false_iff.
  split; [|by apply IH].
  apply andb_false_iff in Hm as [Hf|Hf]; [by rewrite Hf|].
  destruct (follows u) eqn:Hu; [|apply andb_false_r].
  by rewrite (Hmono _ v Hu) in Hf.
Qed.

End Preservation.

(** *** What the four patterns match *)

Lemma is_space_LF : is_space LF = true.
Proof. reflexivity. Qed.

Lemma is_digit_not_LF c : is_digit c = true -> c <> LF.
Proof. intros H ->. discriminate H. Qed.

(** [\|.*\|]: the greedy [.*] backs up to the last [|] of the line. *)
Lemma greedy_table_row (s : pystr) :
  match greedy any_but_newline (match_here [(is_char 124%N, Once)]) s with
  | Some _ => pipe_in_line s = true
  | None => pipe_in_line s = false
  end.
Proof.
  induction s as [|c s IH]; [done|]. cbn [greedy pipe_in_line].
  unfold any_but_newline at 1.
  destruct (N.eqb_spec c LF) as [->|Hc]; cbn [negb].
  - reflexivity.
  - destruct (greedy any_but_newline _ s) as [n|].
    + rewrite IH. by destruct (c =? 124)%N.
    + cbn. unfold is_char. destruct (c =? 124)%N; [done|]. exact IH.
Qed.

Lemma table_row_told : match_told_by TABLE_ROW (is_char 124%N) pipe_in_line.
Proof.
  intros c s. unfold matches_at, TABLE_ROW. cbn [match_here].
  destruct (is_char 124%N c); [|done]. cbn [andb].
  pose proof (greedy_table_row s) as H.
  destruct (greedy any_but_newline _ s) as [n|]; cbn; by rewrite H.
Qed.

(** [#+\s.*]: the run of [#], one white space, the rest of the line. *)
Lemma greedy_rest_of_line (s : pystr) :
  exists n, greedy any_but_newline (fun _ => Some 0%nat) s = Some n
            /\ at_line_end (drop n s) = true.
Proof.
  induction s as [|c s (n & Hn & Hend)]; [by exists 0%nat|]. cbn [greedy].
  unfold any_but_newline at 1. destruct (N.eqb_spec c LF) as [->|Hc]; cbn [negb].
  - by exists 0%nat.
  - rewrite Hn. by exists (S n).
Qed.

Lemma greedy_header (s : pystr) :
  match greedy (is_char 35%N) (match_here [(is_space, Once); (any_but_newline, Star)]) s with
  | Some n => hashes_then_space s = true /\ at_line_end (drop n s) = true
  | None => hashes_then_space s = false
  end.
Proof.
  induction s as [|c s IH]; [done|]. cbn [greedy hashes_then_space].
  unfold is_char at 1. destruct (N.eqb_spec c 35) as [->|Hc].
  - destruct (greedy (is_char 35%N) _ s) as [n|]; [done|]. cbn. exact IH.
  - cbn [match_here]. destruct (is_space c); [|done].
    destruct (greedy_rest_of_line s) as (n & -> & Hend). done.
Qed.

Lemma header_told : match_told_by HEADER (is_char 35%N) hashes_then_space.
Proof.
  intros c s. unfold matches_at, HEADER. cbn [match_here].
  destruct (is_char 35%N c); [|done]. cbn [andb].
  pose proof (greedy_header s) as H.
  destruct (greedy (is_char 35%N) _ s) as [n|]; cbn; [by destruct H as [-> _]|by rewrite H].
Qed.

Lemma header_match_ends_line c s n :
  match_here HEADER (c :: s) = Some (S n) -> at_line_end (drop n s) = true.
Proof.
  unfold HEADER. cbn [match_here]. destruct (is_char 35%N c); [|done].
  pose proof (greedy_header s) as H.
  destruct (greedy (is_char 35%N) _ s) as [m|]; [|done].
  cbn. intros [= <-]. apply H.
Qed.

(** [\n\s*\n]: the greedy [\s*] backs up to the last line feed of the
    run of white space. *)
Lemma greedy_blank_lines (s : pystr) :
  match greedy is_space (match_here [(is_char LF, Once)]) s with
  | Some n => spaces_then_newline s = true /\ spaces_then_newline (drop n s) = false
  | None => spaces_then_newline s = false
  end.
Proof.
  induction s as [|c s IH]; [done|]. cbn [greedy spaces_then_newline].
  destruct (is_space c) eqn:Hsp.
  - destruct (greedy is_space _ s) as [n|].
    + destruct IH as [-> Hrest]. by destruct (c =? LF)%N.
    + cbn. unfold is_char. destruct (c =? LF)%N; [done|]. exact IH.
  - cbn. unfold is_char. destruct (N.eqb_spec c LF) as [->|Hc]; [|done].
    by rewrite is_space_LF in Hsp.
Qed.

Lemma blank_lines_told : match_told_by BLANK_LINES (is_char LF) spaces_then_newline.
Proof.
  intros c s. unfold matches_at, BLANK_LINES. cbn [match_here].
  destruct (is_char LF c); [|done]. cbn [andb].
  pose proof (greedy_blank_lines s) as H.
  destruct (greedy is_space _ s) as [n|]; cbn; [by destruct H as [-> _]|by rewrite H].
Qed.

Lemma blank_lines_match_rest c s n :
  match_here BLANK_LINES (c :: s) = Some (S n) ->
  spaces_then_newline (drop n s) = false.
Proof.
  unfold BLANK_LINES. cbn [match_here]. destruct (is_char LF c); [|done].
  pose proof (greedy_blank_lines s) as H.
  destruct (greedy is_space _ s) as [m|]; [|done].
  cbn. intros [= <-]. apply H.
Qed.

(** [\[\d+\]]: a match lies within one line. *)
Lemma greedy_citation (s : pystr) n :
  greedy is_digit (match_here [(is_char 93%N, Once)]) s = Some n ->
  Forall (fun c => c <> LF) (take n s).
Proof.
  revert n. induction s as [|c s IH]; intros n; [done|]. cbn [greedy].
  assert (Hclose : match_here [(is_char 93%N, Once)] (c :: s) = Some n ->
                   Forall (fun c => c <> LF) (take n (c :: s))).
  { cbn. unfold is_char. destruct (N.eqb_spec c 93) as [->|]; [|done].
    intros [= <-]. by repeat constructor. }
  destruct (is_digit c) eqn:Hd; [|exact Hclose].
  destruct (greedy is_digit _ s) as [m|]; [|exact Hclose].
  intros [= <-]. cbn. constructor; [by apply is_digit_not_LF|by apply IH].
Qed.

Lemma citation_match_inline c s n :
  match_here CITATION (c :: s) = Some (S n) ->
  Forall (fun c => c <> LF) (c :: take n s).
Proof.
  unfold CITATION. cbn [match_here]. unfold is_char at 1.
  destruct (N.eqb_spec c 91) as [->|]; [|done].
  destruct s as [|d s]; [done|]. destruct (is_digit d) eqn:Hd; [|done].
  destruct (greedy is_digit _ s) as [m|] eqn:Hg; [|done].
  cbn. intros [= <-]. constructor; [done|]. cbn.
  constructor; [by apply is_digit_not_LF|by apply greedy_citation].
Qed.

(** *** What a pass does to the continuations *)

Lemma pipe_in_line_cons c (s o : pystr) :
  (pipe_in_line s = false -> pipe_in_line o = false) ->
  pipe_in_line (c :: s) = false -> pipe_in_line (c :: o) = false.
Proof.
  cbn [pipe_in_line]. destruct (c =? LF)%N; [done|]. by destruct (c =? 124)%N.
Qed.

Lemma pipe_in_line_at_line_end (s : pystr) :
  at_line_end s = true -> pipe_in_line s = false.
Proof. destruct s as [|c s]; [done|]. cbn. by intros ->. Qed.

Lemma pipe_in_line_drop_inline (u v : pystr) :
  Forall (fun c => c <> LF) u ->
  pipe_in_line (u ++ v) = false -> pipe_in_line v = false.
Proof.
  induction 1 as [|c u Hc _ IH]; [done|]. cbn [app pipe_in_line].
  destruct (N.eqb_spec c LF); [done|]. by destruct (c =? 124)%N.
Qed.

(** A pass that leaves the head of a line-ending text in place. *)
Lemma at_line_end_re_sub p repl (s : pystr) :
  (forall t, matches_at p (LF :: t) = false) ->
  at_line_end s = true -> at_line_end (re_sub p repl s) = true.
Proof.
  intros Hp. destruct s as [|c s]; [done|]. intros H. cbn in H.
  apply N.eqb_eq in H as ->. by rewrite re_sub_cons_no_match.
Qed.

Lemma table_row_keeps_no_pipe (s : pystr) :
  pipe_in_line s = false -> pipe_in_line (re_sub TABLE_ROW [] s) = false.
Proof.
  apply (re_sub_ind TABLE_ROW []
           (fun s o => pipe_in_line s = false -> pipe_in_line o = false)).
  - done.
  - intros c t _. apply pipe_in_line_cons.
  - intros c t n Hm _. cbn [pipe_in_line].
    assert (Ht : matches_at TABLE_ROW (c :: t) = true)
      by (unfold matches_at; by rewrite Hm).
    rewrite table_row_told in Ht. apply andb_true_iff in Ht as [Hc _].
    unfold is_char in Hc. apply N.eqb_eq in Hc as ->. done.
Qed.

Lemma citation_keeps_no_pipe (s : pystr) :
  pipe_in_line s = false -> pipe_in_line (re_sub CITATION [] s) = false.
Proof.
  apply (re_sub_ind CITATION []
           (fun s o => pipe_in_line s = false -> pipe_in_line o = false)).
  - done.
  - intros c t _. apply pipe_in_line_cons.
  - intros c t n Hm IH Hs. apply IH.
    apply (pipe_in_line_drop_inline (c :: take n t)).
    + by apply citation_match_inline.
    + cbn [app]. by rewrite take_drop.
Qed.

Lemma header_keeps_no_pipe (s : pystr) :
  pipe_in_line s = false -> pipe_in_line (re_sub HEADER [] s) = false.
Proof.
  apply (re_sub_ind HEADER []
           (fun s o => pipe_in_line s = false -> pipe_in_line o = false)).
  - done.
  - intros c t _. apply pipe_in_line_cons.
  - intros c t n Hm _ _. apply pipe_in_line_at_line_end, at_line_end_re_sub.
    + intros u. by rewrite header_told.
    + by apply (header_match_ends_line c).
Qed.

Lemma blank_lines_keeps_no_pipe (s : pystr) :
  pipe_in_line s = false -> pipe_in_line (re_sub BLANK_LINES [LF] s) = false.
Proof.
  apply (re_sub_ind BLANK_LINES [LF]
           (fun s o => pipe_in_line s = false -> pipe_in_line o = false)).
  - done.
  - intros c t _. apply pipe_in_line_cons.
  - done.
Qed.

Lemma header_keeps_no_header (s : pystr) :
  hashes_then_space s = false -> hashes_then_space (re_sub HEADER [] s) = false.
Proof.
  induction s as [|c s IH]; [done|]. intros Hs.
  rewrite re_sub_cons_no_match.
  - cbn [hashes_then_space] in *. destruct (c =? 35)%N; [by apply IH|done].
  - rewrite header_told. cbn [hashes_then_space] in Hs. unfold is_char.
    destruct (c =? 35)%N; [by rewrite Hs|done].
Qed.

Lemma blank_lines_keeps_no_header (s : pystr) :
  hashes_then_space s = false -> hashes_then_space (re_sub BLANK_LINES [LF] s) = false.
Proof.
  induction s as [|c s IH]; [done|]. intros Hs.
  rewrite re_sub_cons_no_match.
  - cbn [hashes_then_space] in *. destruct (c =? 35)%N; [by apply IH|done].
  - rewrite blank_lines_told. unfold is_char.
    destruct (N.eqb_spec c LF) as [->|]; [|done]. cbn in Hs. discriminate Hs.
Qed.

Lemma blank_lines_keeps_no_blank (s : pystr) :
  spaces_then_newline s = false ->
  spaces_then_newline (re_sub BLANK_LINES [LF] s) = false.
Proof.
  induction s as [|c s IH]; [done|]. intros Hs.
  cbn [spaces_then_newline] in Hs.
  destruct (N.eqb_spec c LF) as [->|Hc]; [done|].
  rewrite re_sub_cons_no_match.
  - cbn [spaces_then_newline]. destruct (N.eqb_spec c LF); [done|].
    destruct (is_space c); [by apply IH|done].
  - rewrite blank_lines_told. unfold is_char. by destruct (N.eqb_spec c LF).
Qed.

(** *** Each pass clears its own pattern *)

Lemma re_sub_clears (p : regex) (first : N -> bool) (follows : pystr -> bool)
    (repl : pystr) :
  match_told_by p first follows ->
  (forall s, follows s = false -> follows (re_sub p repl s) = false) ->
  (forall c s n, match_here p (c :: s) = Some (S n) ->
     has_match p (re_sub p repl (drop n s)) = false ->
     has_match p (repl ++ re_sub p repl (drop n s)) = false) ->
  forall s, has_match p (re_sub p repl s) = false.
Proof.
  intros told Hfollows Hrepl.
  apply (re_sub_ind p repl (fun _ o => has_match p o = false)).
  - done.
  - intros c s Hm IH. cbn [has_match]. rewrite IH, orb_false_r.
    rewrite told in *. apply andb_false_iff in Hm as [Hf|Hf]; [by rewrite Hf|].
    rewrite (Hfollows _ Hf). apply andb_false_r.
  - intros c s n Hm IH. by apply (Hrepl c s n).
Qed.

Lemma table_row_cleared (s : pystr) : has_match TABLE_ROW (re_sub TABLE_ROW [] s) = false.
Proof.
  apply (re_sub_clears _ _ _ _ table_row_told); [apply table_row_keeps_no_pipe|done].
Qed.

Lemma header_cleared (s : pystr) : has_match HEADER (re_sub HEADER [] s) = false.
Proof.
  apply (re_sub_clears _ _ _ _ header_told); [apply header_keeps_no_header|done].
Qed.

Lemma blank_lines_cleared (s : pystr) :
  has_match BLANK_LINES (re_sub BLANK_LINES [LF] s) = false.
Proof.
  apply (re_sub_clears _ _ _ _ blank_lines_told); [apply blank_lines_keeps_no_blank|].
  intros c t n Hm IH. cbn [app has_match]. rewrite IH, orb_false_r.
  rewrite blank_lines_told. cbn.
  by apply blank_lines_keeps_no_blank, (blank_lines_match_rest c).
Qed.

(** *** [strip] *)

Lemma lstrip_suffix (s : pystr) : exists u, s = u ++ lstrip s.
Proof.
  induction s as [|c s (u & Hu)]; [by exists []|]. cbn.
  destruct (is_space c); [|by exists []].
  exists (c :: u). cbn. by rewrite <- Hu.
Qed.

Lemma rstrip_prefix (s : pystr) : exists v, s = rstrip s ++ v.
Proof.
  unfold rstrip. destruct (lstrip_suffix (rev s)) as (u & Hu).
  exists (rev u). rewrite <- rev_app_distr, <- Hu. by rewrite rev_involutive.
Qed.

Lemma lstrip_fixed (s : pystr) :
  match s with [] => True | c :: _ => is_space c = false end -> lstrip s = s.
Proof. destruct s as [|c s]; [done|]. cbn. by intros ->. Qed.

Lemma lstrip_head (s : pystr) :
  match lstrip s with [] => True | c :: _ => is_space c = false end.
Proof.
  induction s as [|c s IH]; [done|]. cbn. destruct (is_space c) eqn:Hc; [done|].
  exact Hc.
Qed.

Lemma lstrip_idempotent (s : pystr) : lstrip (lstrip s) = lstrip s.
Proof. apply lstrip_fixed, lstrip_head. Qed.

Lemma lstrip_snoc (u : pystr) (c : N) :
  is_space c = false -> exists w, lstrip (u ++ [c]) = w ++ [c].
Proof.
  intros Hc. induction u as [|d u (w & Hw)]; cbn.
  - rewrite Hc. by exists [].
  - destruct (is_space d); [by exists w|]. by exists (d :: u).
Qed.

Lemma rstrip_idempotent (s : pystr) : rstrip (rstrip s) = rstrip s.
Proof. unfold rstrip. by rewrite rev_involutive, lstrip_idempotent. Qed.

Lemma lstrip_rstrip_fixed (s : pystr) :
  match s with [] => True | c :: _ => is_space c = false end ->
  lstrip (rstrip s) = rstrip s.
Proof.
  destruct s as [|c s]; [done|]. intros Hc. apply lstrip_fixed.
  unfold rstrip. cbn [rev].
  destruct (lstrip_snoc (rev s) c Hc) as (w & ->).
  rewrite rev_app_distr. exact Hc.
Qed.

Lemma strip_idempotent (s : pystr) : strip (strip s) = strip s.
Proof.
  unfold strip. rewrite lstrip_rstrip_fixed by apply lstrip_head.
  apply rstrip_idempotent.
Qed.

Lemma pipe_in_line_app (s t : pystr) :
  pipe_in_line s = true -> pipe_in_line (s ++ t) = true.
Proof.
  induction s as [|c s IH]; [done|]. cbn.
  destruct (c =? LF)%N; [done|]. by destruct (c =? 124)%N.
Qed.

Lemma hashes_then_space_app (s t : pystr) :
  hashes_then_space s = true -> hashes_then_space (s ++ t) = true.
Proof.
  induction s as [|c s IH]; [done|]. cbn. by destruct (c =? 35)%N.
Qed.

Lemma spaces_then_newline_app (s t : pystr) :
  spaces_then_newline s = true -> spaces_then_newline (s ++ t) = true.
Proof.
  induction s as [|c s IH]; [done|]. cbn.
  destruct (c =? LF)%N; [done|]. by destruct (is_space c).
Qed.

Lemma strip_keeps_free (p : regex) (first : N -> bool) (follows : pystr -> bool)
    (s : pystr) :
  match_told_by p first follows ->
  (forall s t, follows s = true -> follows (s ++ t) = true) ->
  has_match p s = false -> has_match p (strip s) = false.
Proof.
  intros told Hmono Hs. unfold strip.
  destruct (lstrip_suffix s) as (u & Hu).
  destruct (rstrip_prefix (lstrip s)) as (v & Hv).
  apply (free_prefix p first follows told _ v Hmono). rewrite <- Hv.
  apply (has_match_suffix p u). by rewrite <- Hu.
Qed.

(** *** The cleaned text *)

Lemma clean_text_no_table_row (text : pystr) :
  has_match TABLE_ROW (clean_text text) = false.
Proof.
  unfold clean_text.
  apply (strip_keeps_free _ _ _ _ table_row_told pipe_in_line_app).
  apply (free_preserved _ _ _ table_row_told);
    [apply blank_lines_keeps_no_pipe| |].
  { intros s Hs. cbn [app has_match]. by rewrite Hs, table_row_told. }
  apply (free_preserved _ _ _ table_row_told); [apply header_keeps_no_pipe|done|].
  apply (free_preserved _ _ _ table_row_told); [apply citation_keeps_no_pipe|done|].
  apply table_row_cleared.
Qed.

Lemma clean_text_no_header (text : pystr) :
  has_match HEADER (clean_text text) = false.
Proof.
  unfold clean_text.
  apply (strip_keeps_free _ _ _ _ header_told hashes_then_space_app).
  apply (free_preserved _ _ _ header_told);
    [apply blank_lines_keeps_no_header| |].
  { intros s Hs. cbn [app has_match]. by rewrite Hs, header_told. }
  apply header_cleared.
Qed.

Lemma clean_text_no_blank_lines (text : pystr) :
  has_match BLANK_LINES (clean_text text) = false.
Proof.
  unfold clean_text.
  apply (strip_keeps_free _ _ _ _ blank_lines_told spaces_then_newline_app).
  apply blank_lines_cleared.
Qed.

(** A text that is free of all four patterns and has no white space at
    its ends is its own cleaning. *)
Lemma clean_text_fixed (s : pystr) :
  has_match TABLE_ROW s = false -> has_match CITATION s = false ->
  has_match HEADER s = false -> has_match BLANK_LINES s = false ->
  strip s = s -> clean_text s = s.
Proof.
  intros Ht Hc Hh Hb Hs. unfold clean_text.
  rewrite (re_sub_no_match TABLE_ROW [] s Ht).
  rewrite (re_sub_no_match CITATION [] s Hc).
  rewrite (re_sub_no_match HEADER [] s Hh).
  rewrite (re_sub_no_match BLANK_LINES [LF] s Hb).
  exact Hs.
Qed.

(** C6 (as amended). Cleaning a cleaned text changes nothing whenever the
    cleaned text holds no citation marker [[digits]]: the table, header
    and blank-line passes and the final strip leave nothing for a second
    run to remove, and only the citation pass can leave a marker behind
    (by removing an inner one). *)
Theorem clean_text_idempotent_without_citation (text : pystr) :
  has_match CITATION (clean_text text) = false ->
  clean_text (clean_text text) = clean_text text.
Proof.
  intros Hc. apply clean_text_fixed.
  - apply clean_text_no_table_row.
  - exact Hc.
  - apply clean_text_no_header.
  - apply clean_text_no_blank_lines.
  - apply strip_idempotent.
Qed.

Lemma clean_text_idempotent_without_citation_witness :
  clean_text (clean_text SAMPLE_PAGE) = clean_text SAMPLE_PAGE.
Proof. apply clean_text_idempotent_without_citation. reflexivity. Defined.

(** C6 (as stated) fails: the citation pass removes the inner marker of
    [[[1]2]] and leaves [[2]], which a second cleaning removes. *)
Lemma clean_text_not_idempotent :
  ~ (forall text : pystr, clean_text (clean_text text) = clean_text text).
Proof. intros H. specialize (H (lit "[[1]2]")). discriminate H. Qed.

(** A text without [[] has no citation marker after cleaning. *)
Lemma re_sub_Forall (P : N -> Prop) p repl (s : pystr) :
  Forall P repl -> Forall P s -> Forall P (re_sub p repl s).
Proof.
  intros Hrepl.
  apply (re_sub_ind p repl (fun s o => Forall P s -> Forall P o)).
  - done.
  - intros c t _ IH [Hc Ht]%Forall_cons. constructor; [done|by apply IH].
  - intros c t n _ IH [_ Ht]%Forall_cons. apply Forall_app. split; [done|].
    apply IH. by apply Forall_drop.
Qed.

Lemma strip_Forall (P : N -> Prop) (s : pystr) : Forall P s -> Forall P (strip s).
Proof.
  intros Hs. unfold strip.
  destruct (lstrip_suffix s) as (u & Hu).
  destruct (rstrip_prefix (lstrip s)) as (v & Hv).
  rewrite Hu in Hs. apply Forall_app in Hs as [_ Hs].
  rewrite Hv in Hs. by apply Forall_app in Hs as [Hs _].
Qed.

Lemma no_bracket_no_citation (s : pystr) :
  Forall (fun c => c <> 91%N) s -> has_match CITATION s = false.
Proof.
  induction 1 as [|c s Hc _ IH]; [done|]. cbn [has_match]. rewrite IH, orb_false_r.
  unfold matches_at, CITATION. cbn [match_here]. unfold is_char at 1.
  by destruct (N.eqb_spec c 91).
Qed.

(** In particular, cleaning is idempotent on every text without [[]. *)
Corollary clean_text_idempotent_without_bracket (text : pystr) :
  Forall (fun c => c <> 91%N) text ->
  clean_text (clean_text text) = clean_text text.
Proof.
  intros Ht. apply clean_text_fixed.
  - apply clean_text_no_table_row.
  - apply no_bracket_no_citation. unfold clean_text.
    apply strip_Forall. repeat apply re_sub_Forall; try done.
    by repeat constructor.
  - apply clean_text_no_header.
  - apply clean_text_no_blank_lines.
  - apply strip_idempotent.
Qed.

(** ** Reasoning about requests *)

(** *** What a run does to the state: a preorder on states that every
    step respects. *)

Section Respects.

Variable R : State -> State -> Prop.
Hypothesis R_refl : forall st, R st st.
Hypothesis R_trans : forall st1 st2 st3, R st1 st2 -> R st2 st3 -> R st1 st3.

Local Abbreviation respects := (respects R).

Lemma respects_ret {A} (a : A) : respects (ret a).
Proof. intros st. apply R_refl. Qed.

Lemma respects_raise {A} (e : exn) : respects (@raise A e).
Proof. intros st. apply R_refl. Qed.

Lemma respects_diverge {A} : respects (@diverge A).
Proof. intros st. apply R_refl. Qed.

Lemma respects_lift {A} (r : result A) : respects (lift r).
Proof. intros st. unfold lift. destruct r; apply R_refl. Qed.

Lemma respects_bind {A B} (m : M A) (f : A -> M B) :
  respects m -> (forall a, respects (f a)) -> respects (bind m f).
Proof.
  intros Hm Hf st. unfold bind. specialize (Hm st).
  destruct (m st) as [[a|e|] st1]; simpl in *; [|done..].
  eapply R_trans; [exact Hm|apply Hf].
Qed.

Lemma respects_bind_ret {A B} (a : A) (f : A -> M B) :
  respects (f a) -> respects (bind (ret a) f).
Proof. intros Hf st. apply Hf. Qed.

Lemma respects_try_except {A} (m : M A) (handler : exn -> M A) :
  respects m -> (forall e, respects (handler e)) -> respects (try_except m handler).
Proof.
  intros Hm Hh st. unfold try_except. specialize (Hm st).
  destruct (m st) as [[a|e|] st1]; simpl in *; [done| |done].
  eapply R_trans; [exact Hm|apply Hh].
Qed.

Lemma respects_try_finally {A} (m : M A) (cleanup : M unit) :
  respects m -> respects cleanup -> respects (try_finally m cleanup).
Proof.
  intros Hm Hc st. unfold try_finally. specialize (Hm st).
  destruct (m st) as [[a|e|] st1]; simpl in *; [| |done];
    (specialize (Hc st1); destruct (cleanup st1) as [[[]|e'|] st2]; simpl in *;
     (eapply R_trans; [exact Hm|exact Hc])).
Qed.

Lemma respects_index0 {A} (l : list A) : respects (index0 l).
Proof. destruct l; [apply respects_raise|apply respects_ret]. Qed.

Lemma respects_try_bind_finally {L A} (m : M L) (k : L -> M A) (handler : exn -> M A)
    (cleanup : option L -> M unit) :
  respects m -> (forall x, respects (k x)) -> (forall e, respects (handler e)) ->
  (forall x, respects (cleanup x)) ->
  respects (try_bind_finally m k handler cleanup).
Proof.
  intros Hm Hk Hh Hc st. unfold try_bind_finally. specialize (Hm st).
  destruct (m st) as [[x|e|] st1]; simpl in *; [| |done].
  - eapply R_trans; [exact Hm|].
    apply respects_try_finally; [by apply respects_try_except|apply Hc].
  - eapply R_trans; [exact Hm|]. apply respects_try_finally; [apply Hh|apply Hc].
Qed.

End Respects.

Lemma frame_refl P keep st : frame P keep st st.
Proof. split; [exists []; by rewrite app_nil_r|done]. Qed.

Lemma frame_trans P keep st1 st2 st3 :
  frame P keep st1 st2 -> frame P keep st2 st3 -> frame P keep st1 st3.
Proof.
  intros [(evs1 & Ht1 & Hp1) Hk1] [(evs2 & Ht2 & Hp2) Hk2]. split.
  - exists (evs1 ++ evs2). rewrite Ht2, Ht1, app_assoc. split; [done|].
    by apply Forall_app.
  - intros name Hn. rewrite Hk2, Hk1; done.
Qed.

Lemma frame_new_events P keep st st' :
  frame P keep st st' -> Forall P (new_events st st').
Proof.
  intros [(evs & Ht & Hp) _]. unfold new_events. by rewrite Ht, drop_app_length.
Qed.

Section Frame.

Variable P : Event -> Prop.
Variable keep : pystr -> Prop.

Local Abbreviation ok := (respects (frame P keep)).

Lemma frame_event ev st : P ev -> frame P keep st (record_event ev st).
Proof. intros Hp. split; [exists [ev]; auto|done]. Qed.

Lemma frame_event_store ev st f :
  P ev ->
  (forall name, keep name -> f (collections st) !! name = collections st !! name) ->
  frame P keep st (set_collections f (record_event ev st)).
Proof. intros Hp Hf. split; [exists [ev]; auto|exact Hf]. Qed.

Lemma ok_call {A} ev (r : result A) : P ev -> ok (call ev r).
Proof. intros Hp st. unfold call. destruct r; by apply frame_event. Qed.

Lemma ok_get_collection name : P (EGetCollection name) -> ok (get_collection name).
Proof.
  intros Hp st. unfold get_collection. simpl.
  destruct (collections st !! name); by apply frame_event.
Qed.

Lemma ok_create_collection name :
  P (ECreateCollection name) -> ~ keep name -> ok (create_collection name).
Proof.
  intros Hp Hk st. unfold create_collection. simpl.
  destruct (collections st !! name); [by apply frame_event|].
  apply frame_event_store; [done|]. intros n Hn.
  apply lookup_insert_ne. by intros ->.
Qed.

(** Both hand the name back as the collection. *)
Lemma ok_bind_get_collection {B} name (f : pystr -> M B) :
  P (EGetCollection name) -> ok (f name) -> ok (bind (get_collection name) f).
Proof.
  intros Hp Hf st. unfold bind, get_collection. simpl.
  destruct (collections st !! name); [|by apply frame_event].
  eapply frame_trans; [by apply frame_event|apply Hf].
Qed.

Lemma ok_bind_create_collection {B} name (f : pystr -> M B) :
  P (ECreateCollection name) -> ~ keep name -> ok (f name) ->
  ok (bind (create_collection name) f).
Proof.
  intros Hp Hk Hf st. unfold bind.
  pose proof (ok_create_collection name Hp Hk st) as Hc.
  unfold create_collection in *. simpl in *.
  destruct (collections st !! name); [done|].
  eapply frame_trans; [exact Hc|apply Hf].
Qed.

Lemma ok_delete_collection name :
  P (EDeleteCollection name) -> ~ keep name -> ok (delete_collection name).
Proof.
  intros Hp Hk st. unfold delete_collection. simpl.
  destruct (collections st !! name); [|by apply frame_event].
  apply frame_event_store; [done|]. intros n Hn.
  apply lookup_delete_ne. by intros ->.
Qed.

Lemma ok_collection_add C name embeddings documents ids :
  P (EAdd name ids) -> ~ keep name ->
  ok (collection_add C name embeddings documents ids).
Proof.
  intros Hp Hk st. unfold collection_add. simpl.
  destruct (collections st !! name); [|by apply frame_event].
  destruct (negb _); [by apply frame_event|].
  destruct (add_rejects _ _ _ _); [by apply frame_event|].
  apply frame_event_store; [done|]. intros n Hn.
  apply lookup_insert_ne. by intros ->.
Qed.

Lemma ok_collection_query C name q n :
  P (EQuery name n) -> ok (collection_query C name q n).
Proof.
  intros Hp st. unfold collection_query, lift. simpl.
  destruct (collections st !! name); [|by apply frame_event].
  destruct (query_nearest _ _ _ _); by apply frame_event.
Qed.

Lemma ok_write_temp C path content : ok (write_temp C path content).
Proof.
  intros st. unfold write_temp.
  destruct (upload C content); (split; [exists []; by rewrite app_nil_r|done]).
Qed.

Lemma ok_close_temp C content : ok (close_temp C content).
Proof.
  intros st. unfold close_temp.
  destruct (upload C content); (split; [exists []; by rewrite app_nil_r|done]).
Qed.

Lemma ok_remove_if_exists path : ok (remove_if_exists path).
Proof.
  intros st. destruct path as [[|c path]|];
    (split; [exists []; by rewrite app_nil_r|done]).
Qed.

Lemma ok_convert C path : P (EConvert path) -> ok (convert_pdf_to_markdown C path).
Proof.
  intros Hp st. unfold convert_pdf_to_markdown.
  destruct (files st !! path); [by apply ok_call|apply frame_refl].
Qed.

Lemma ok_chunks_of text chunk_size overlap : ok (chunks_of text chunk_size overlap).
Proof.
  unfold chunks_of. destruct (chunk_text_by_char _ _ _ _);
    [apply respects_ret|apply respects_diverge]; apply frame_refl.
Qed.

Lemma ok_get_or_not_found v key : ok (get_or_not_found v key).
Proof.
  destruct v; simpl; (apply respects_ret || apply respects_raise); apply frame_refl.
Qed.

End Frame.

(** One structural step of a proof that a program respects a frame. *)
Ltac frame_struct :=
  lazymatch goal with
  | |- respects _ (ret _) => apply respects_ret, frame_refl
  | |- respects _ (raise _) => apply respects_raise, frame_refl
  | |- respects _ diverge => apply respects_diverge, frame_refl
  | |- respects _ (lift _) => apply respects_lift, frame_refl
  | |- respects _ (index0 _) => apply respects_index0, frame_refl
  | |- respects _ (bind _ _) =>
      apply respects_bind; [apply frame_trans| |intros ?]
  | |- respects _ (try_except _ _) =>
      apply respects_try_except; [apply frame_trans| |intros ?]
  | |- respects _ (try_finally _ _) =>
      apply respects_try_finally; [apply frame_trans| |]
  | |- respects _ (try_bind_finally _ _ _ _) =>
      apply respects_try_bind_finally;
        [apply frame_trans| |intros ?|intros ?|intros ?]
  | |- respects _ (write_temp _ _ _) => apply ok_write_temp
  | |- respects _ (close_temp _ _) => apply ok_close_temp
  | |- respects _ (remove_if_exists _) => apply ok_remove_if_exists
  | |- respects _ (chunks_of _ _ _) => apply ok_chunks_of
  | |- respects _ (get_or_not_found _ _) => apply ok_get_or_not_found
  | |- respects _ (match ?x with _ => _ end) => destruct x
  | |- respects _ (let _ := _ in _) => cbv zeta
  end.

(** *** Which runs return or raise: no step runs for ever. *)

Lemma total_ret {A} (a : A) : total (ret a).
Proof. done. Qed.

Lemma total_raise {A} (e : exn) : total (@raise A e).
Proof. done. Qed.

Lemma total_lift {A} (r : result A) : total (lift r).
Proof. intros st. unfold lift. by destruct r. Qed.

Lemma total_call {A} ev (r : result A) : total (call ev r).
Proof. intros st. unfold call. by destruct r. Qed.

Lemma total_bind {A B} (m : M A) (f : A -> M B) :
  total m -> (forall a, total (f a)) -> total (bind m f).
Proof.
  intros Hm Hf st. unfold bind. specialize (Hm st).
  destruct (m st) as [[a|e|] st1]; simpl in *; [apply Hf|done..].
Qed.

Lemma total_try_except {A} (m : M A) (handler : exn -> M A) :
  total m -> (forall e, total (handler e)) -> total (try_except m handler).
Proof.
  intros Hm Hh st. unfold try_except. specialize (Hm st).
  destruct (m st) as [[a|e|] st1]; simpl in *; [done|apply Hh|done].
Qed.

Lemma total_try_finally {A} (m : M A) (cleanup : M unit) :
  total m -> total cleanup -> total (try_finally m cleanup).
Proof.
  intros Hm Hc st. unfold try_finally. specialize (Hm st).
  destruct (m st) as [[a|e|] st1]; simpl in *; [| |done];
    (specialize (Hc st1); by destruct (cleanup st1) as [[[]|e'|] st2]).
Qed.

Lemma total_try_bind_finally {L A} (m : M L) (k : L -> M A) (handler : exn -> M A)
    (cleanup : option L -> M unit) :
  total m -> (forall x, total (k x)) -> (forall e, total (handler e)) ->
  (forall x, total (cleanup x)) ->
  total (try_bind_finally m k handler cleanup).
Proof.
  intros Hm Hk Hh Hc st. unfold try_bind_finally. specialize (Hm st).
  destruct (m st) as [[x|e|] st1]; simpl in *; [| |done].
  - apply total_try_finally; [by apply total_try_except|apply Hc].
  - apply total_try_finally; [apply Hh|apply Hc].
Qed.

Lemma total_write_temp C path content : total (write_temp C path content).
Proof. intros st. unfold write_temp. by destruct (upload C content). Qed.

Lemma total_close_temp C content : total (close_temp C content).
Proof. intros st. unfold close_temp. by destruct (upload C content). Qed.

Lemma total_remove_if_exists path : total (remove_if_exists path).
Proof. intros st. by destruct path as [[|c path]|]. Qed.

Lemma total_index0 {A} (l : list A) : total (index0 l).
Proof. by destruct l. Qed.

Lemma total_get_collection name : total (get_collection name).
Proof. intros st. unfold get_collection. simpl. by destruct (_ !! _). Qed.

Lemma total_create_collection name : total (create_collection name).
Proof. intros st. unfold create_collection. simpl. by destruct (_ !! _). Qed.

Lemma total_delete_collection name : total (delete_collection name).
Proof. intros st. unfold delete_collection. simpl. by destruct (_ !! _). Qed.

Lemma total_collection_add C name embeddings documents ids :
  total (collection_add C name embeddings documents ids).
Proof.
  intros st. unfold collection_add. simpl. destruct (_ !! _); [|done].
  destruct (negb _); [done|]. by destruct (add_rejects _ _ _ _).
Qed.

Lemma total_collection_query C name q n : total (collection_query C name q n).
Proof.
  intros st. unfold collection_query, lift. simpl. destruct (_ !! _); [|done].
  by destruct (query_nearest _ _ _ _).
Qed.

Lemma total_convert C path : total (convert_pdf_to_markdown C path).
Proof.
  intros st. unfold convert_pdf_to_markdown. destruct (_ !! _); [|done].
  apply total_call.
Qed.

Lemma total_get_or_not_found v key : total (get_or_not_found v key).
Proof. by destruct v. Qed.

(** The chunker of a request returns whenever its parameters are valid. *)
Lemma total_chunks_of text chunk_size overlap :
  0 <= overlap < chunk_size -> total (chunks_of text chunk_size overlap).
Proof.
  intros Hv st. unfold chunks_of.
  rewrite (chunk_text_by_char_windows text chunk_size overlap) by lia. done.
Qed.

Ltac total_struct :=
  lazymatch goal with
  | |- total (ret _) => apply total_ret
  | |- total (raise _) => apply total_raise
  | |- total (lift _) => apply total_lift
  | |- total (call _ _) => apply total_call
  | |- total (chat _ _ _ _ _) => apply total_call
  | |- total (index0 _) => apply total_index0
  | |- total (bind _ _) => apply total_bind; [|intros ?]
  | |- total (try_except _ _) => apply total_try_except; [|intros ?]
  | |- total (try_finally _ _) => apply total_try_finally
  | |- total (try_bind_finally _ _ _ _) =>
      apply total_try_bind_finally; [|intros ?|intros ?|intros ?]
  | |- total (write_temp _ _ _) => apply total_write_temp
  | |- total (close_temp _ _) => apply total_close_temp
  | |- total (remove_if_exists _) => apply total_remove_if_exists
  | |- total (get_collection _) => apply total_get_collection
  | |- total (create_collection _) => apply total_create_collection
  | |- total (delete_collection _) => apply total_delete_collection
  | |- total (collection_add _ _ _ _ _) => apply total_collection_add
  | |- total (collection_query _ _ _ _) => apply total_collection_query
  | |- total (convert_pdf_to_markdown _ _) => apply total_convert
  | |- total (get_or_not_found _ _) => apply total_get_or_not_found
  | |- total (chunks_of _ _ _) => apply total_chunks_of; lia
  | |- total (match ?x with _ => _ end) => destruct x
  | |- total (let _ := _ in _) => cbv zeta
  end.

Lemma total_map_phase C prompts chunks acc : total (map_phase C prompts chunks acc).
Proof.
  revert acc. induction chunks as [|chunk chunks IH]; intros acc; simpl.
  - apply total_ret.
  - apply total_bind; [apply total_call|]. intros content. apply IH.
Qed.

Lemma total_summarize_body C filename lang document_id tmp :
  total (summarize_body C filename lang document_id tmp).
Proof.
  unfold summarize_body, parse_summary, final_summary_of.
  repeat first [apply total_map_phase | total_struct].
Qed.

Lemma total_summarize_pdf C filename content lang uuid tmp :
  total (summarize_pdf C filename content lang uuid tmp).
Proof.
  unfold summarize_pdf, summarize_rollback.
  repeat first [apply total_summarize_body | total_struct].
Qed.

Lemma total_question_answering C request : total (question_answering C request).
Proof.
  unfold question_answering, step1, step2, step3.
  repeat total_struct.
Qed.

(** ** [POST /summarize] *)

Lemma length_hex digits x : length (hex digits x) = digits.
Proof.
  revert x. induction digits as [|k IH]; intros x; simpl; [done|].
  rewrite length_app, IH. simpl. lia.
Qed.

Lemma length_uuid_str u : length (uuid_str u) = 36%nat.
Proof.
  unfold uuid_str. rewrite !length_app, !length_hex. reflexivity.
Qed.

(** An identifier drawn for a document is never the name of the main
    collection. *)
Lemma uuid_str_not_main u : uuid_str u <> MAIN_COLLECTION.
Proof.
  intros H. apply (f_equal length) in H. rewrite length_uuid_str in H.
  discriminate H.
Qed.

Lemma prompt_templates_prompts_of language prompts :
  PROMPT_TEMPLATES language = Some prompts -> prompts = prompts_of language.
Proof.
  unfold PROMPT_TEMPLATES, prompts_of.
  destruct (bool_decide (language = lit "en")) eqn:Hen.
  - apply bool_decide_eq_true in Hen as ->. intros [= <-]. reflexivity.
  - destruct (bool_decide (language = lit "id")); [by intros [= <-]|done].
Qed.

Lemma prompts_of_normalize_lang language :
  prompts_of (normalize_lang language) = prompts_of language.
Proof.
  unfold normalize_lang, PROMPT_TEMPLATES.
  destruct (bool_decide (language = lit "en")); [done|].
  destruct (bool_decide (language = lit "id")) eqn:Hid; [done|].
  unfold prompts_of. rewrite Hid. reflexivity.
Qed.

(** After line 134 the language code is one of the dictionary. *)
Lemma prompt_templates_normalize_lang language :
  PROMPT_TEMPLATES (normalize_lang language) = Some (prompts_of language).
Proof.
  destruct (PROMPT_TEMPLATES (normalize_lang language)) as [prompts|] eqn:Hp.
  - apply prompt_templates_prompts_of in Hp.
    by rewrite Hp, prompts_of_normalize_lang.
  - unfold normalize_lang in Hp.
    destruct (PROMPT_TEMPLATES language) eqn:Hl; [congruence|].
    discriminate Hp.
Qed.

Section SummarizeFrame.

Variable C : Collaborators.
Variable P : Event -> Prop.
Variable keep : pystr -> Prop.
Variables (language document_id : pystr).

Hypothesis P_convert : forall path, P (EConvert path).
Hypothesis P_map : forall chunk,
  P (EChatCompletion
       (messages (map_system (prompts_of language)) (map_user (prompts_of language) chunk))
       512 0.2%float false).
Hypothesis P_reduce : forall combined,
  P (EChatCompletion
       (messages (reduce_system (prompts_of language))
          (reduce_user (prompts_of language) combined))
       1024 0.1%float true).
Hypothesis P_embed : forall texts, P (EEmbedDocuments texts).
Hypothesis P_create : P (ECreateCollection document_id).
Hypothesis P_add : forall ids, P (EAdd document_id ids).
Hypothesis P_delete : P (EDeleteCollection document_id).
Hypothesis not_kept : ~ keep document_id.

Lemma map_phase_frame chunks acc :
  respects (frame P keep) (map_phase C (prompts_of language) chunks acc).
Proof.
  revert acc. induction chunks as [|chunk chunks IH]; intros acc; simpl.
  - frame_struct.
  - frame_struct; [by apply ok_call|apply IH].
Qed.

Lemma summarize_body_frame filename tmp :
  respects (frame P keep)
    (summarize_body C filename (normalize_lang language) document_id tmp).
Proof.
  unfold summarize_body.
  frame_struct; [by apply ok_convert|].
  cbv zeta. destruct (_ || _); [frame_struct|].
  frame_struct; [frame_struct|].
  rewrite prompt_templates_normalize_lang. apply respects_bind_ret.
  frame_struct; [apply map_phase_frame|].
  frame_struct; [by apply ok_call|].
  frame_struct.
  { unfold parse_summary, final_summary_of. repeat frame_struct. }
  frame_struct; [frame_struct|].
  frame_struct; [by apply ok_call|].
  apply ok_bind_create_collection; [done..|].
  frame_struct; [by apply ok_collection_add|].
  frame_struct.
Qed.

Lemma summarize_pdf_frame filename content uuid tmp :
  document_id = uuid_str uuid ->
  respects (frame P keep) (summarize_pdf C filename content language uuid tmp).
Proof.
  intros Hid. unfold summarize_pdf, summarize_rollback. rewrite <- Hid.
  destruct (negb _); [frame_struct|]. cbv zeta.
  frame_struct; [frame_struct| | |frame_struct].
  { frame_struct; [frame_struct|apply summarize_body_frame]. }
  frame_struct; [|frame_struct].
  frame_struct; [by apply ok_delete_collection|frame_struct].
Qed.

End SummarizeFrame.

(** C10. An upload whose name does not end in [.pdf] is answered with
    HTTP 400 and nothing else happens: no call is made and the state
    (collections, files, trace) is the one before the request. *)
Theorem non_pdf_rejected (C : Collaborators) (filename : pystr)
    (content : list N) (language : pystr) (uuid : N) (tmp : pystr) (st : State) :
  endswith filename (lit ".pdf") = false ->
  summarize_pdf C filename content language uuid tmp st =
    (Raise (HTTPException 400 (lit "Invalid file type. Please upload a PDF.")), st).
Proof.
  intros H. unfold summarize_pdf. rewrite H. reflexivity.
Qed.


(** ** [POST /qa] *)

Section QAFrame.

Variable C : Collaborators.
Variable P : Event -> Prop.
Hypothesis P_other : forall ev, is_delete ev = false -> P ev.

Local Abbreviation ok := (respects (frame P (fun _ => True))).

Lemma step1_frame request q : ok (step1 C request q).
Proof.
  unfold step1.
  destruct (document_id request) as [[|c name]|]; [frame_struct| |frame_struct].
  cbv zeta. frame_struct; [|frame_struct].
  apply ok_bind_get_collection; [by apply P_other|].
  frame_struct; [by apply ok_collection_query, P_other|].
  repeat frame_struct.
Qed.

Lemma step2_frame q : ok (step2 C q).
Proof.
  unfold step2. frame_struct; [|frame_struct].
  apply ok_bind_get_collection; [by apply P_other|].
  frame_struct; [by apply ok_collection_query, P_other|].
  repeat frame_struct.
Qed.

Lemma step3_frame request context : ok (step3 C request context).
Proof.
  unfold step3, chat. destruct context; [|frame_struct].
  by apply ok_call, P_other.
Qed.

Lemma question_answering_frame request : ok (question_answering C request).
Proof.
  unfold question_answering.
  frame_struct; [|frame_struct].
  frame_struct; [by apply ok_call, P_other|].
  frame_struct; [apply step1_frame|].
  frame_struct; [|apply step3_frame].
  frame_struct; [frame_struct|apply step2_frame].
Qed.

End QAFrame.

(** ** The main collection *)

(** C8. No endpoint deletes the main collection. In a run of
    [/summarize], every call of [delete_collection] names the document id
    drawn for that request, which differs from [main_research_papers], and
    the main collection is afterwards what it was. A run of [/qa] calls
    [delete_collection] not at all and leaves every collection as it was;
    [/] does nothing. *)
Theorem main_collection_never_deleted (C : Collaborators) :
  (forall filename content language uuid tmp st,
     let st' := snd (summarize_pdf C filename content language uuid tmp st) in
     (forall name, EDeleteCollection name ∈ new_events st st' -> name = uuid_str uuid)
     /\ uuid_str uuid <> MAIN_COLLECTION
     /\ collections st' !! MAIN_COLLECTION = collections st !! MAIN_COLLECTION)
  /\ (forall request st,
        let st' := snd (question_answering C request st) in
        (forall name, EDeleteCollection name ∉ new_events st st')
        /\ collections st' = collections st)
  /\ (forall st, snd (root st) = st).
Proof.
  split; [|split].
  - intros filename content language uuid tmp st st'.
    assert (Hframe : frame (fun ev => forall name, ev = EDeleteCollection name ->
                                                   name = uuid_str uuid)
                       (fun name => name <> uuid_str uuid) st st').
    { apply (summarize_pdf_frame C _ _ language (uuid_str uuid)); try done.
      - by intros name [= ->].
      - by intros H. }
    split; [|split].
    + intros name Hin. apply frame_new_events in Hframe.
      rewrite Forall_forall in Hframe. by apply (Hframe _ Hin).
    + apply uuid_str_not_main.
    + destruct Hframe as [_ Hkeep]. apply Hkeep.
      intros H. by apply (uuid_str_not_main uuid).
  - intros request st st'.
    assert (Hframe : frame (fun ev => is_delete ev = false) (fun _ => True) st st').
    { by apply question_answering_frame. }
    split.
    + intros name Hin. apply frame_new_events in Hframe.
      rewrite Forall_forall in Hframe. by specialize (Hframe _ Hin).
    + destruct Hframe as [_ Hkeep]. apply map_eq. intros name. by apply Hkeep.
  - done.
Qed.

(** *** The two tiers *)

Lemma extends_refl st : extends st [] st.
Proof. unfold extends. by rewrite app_nil_r. Qed.

Lemma extends_event st ev : extends st [ev] (record_event ev st).
Proof. done. Qed.

Ltac extends_tac :=
  unfold extends; cbn [collections files trace record_event];
  rewrite <- ?app_assoc; done.

Lemma extends_trans st1 st2 st3 evs1 evs2 :
  extends st1 evs1 st2 -> extends st2 evs2 st3 -> extends st1 (evs1 ++ evs2) st3.
Proof.
  intros (Hc1 & Hf1 & Ht1) (Hc2 & Hf2 & Ht2). unfold extends.
  rewrite Hc2, Hc1, Hf2, Hf1, Ht2, Ht1, app_assoc. done.
Qed.

Lemma extends_new_events st evs st' : extends st evs st' -> new_events st st' = evs.
Proof.
  intros (_ & _ & Ht). unfold new_events. by rewrite Ht, drop_app_length.
Qed.

Lemma nearest_extends C st evs st' name q k :
  extends st evs st' -> nearest C st' name q k = nearest C st name q k.
Proof. intros (Hc & _ & _). unfold nearest. by rewrite Hc. Qed.

(** Step 1 finds exactly the context that tier 1 admits, and only talks
    to the store. *)
Lemma step1_spec C request q st :
  exists st1,
    step1 C request q st = (Ok (tier1_context C st request q), st1)
    /\ extends st (step1_events st request) st1.
Proof.
  unfold step1, tier1_context, step1_events, nearest.
  destruct (document_id request) as [[|c name]|];
    [eexists; split; [reflexivity|apply extends_refl]| |
     eexists; split; [reflexivity|apply extends_refl]].
  cbv zeta. unfold try_except, bind, get_collection, collection_query, lift.
  cbn [collections record_event].
  destruct (collections st !! (c :: name)) as [entries|] eqn:Hc;
    [|eexists; split; [reflexivity|extends_tac]].
  cbn [collections record_event]. rewrite Hc.
  destruct (query_nearest C entries q 2) as [r|e];
    [|eexists; split; [reflexivity|extends_tac]].
  destruct (documents r) as [|docs ds]; [eexists; split; [reflexivity|extends_tac]|].
  destruct (distances r) as [|[|d row] rows];
    [eexists; split; [reflexivity|extends_tac]..|].
  cbn. destruct (d <? T1)%float; eexists; (split; [reflexivity|extends_tac]).
Qed.

Lemma step2_spec C q st :
  exists st2,
    step2 C q st = (Ok (main_context C st q), st2)
    /\ extends st (step2_events st) st2.
Proof.
  unfold step2, main_context, step2_events, nearest.
  unfold try_except, bind, get_collection, collection_query, lift.
  cbn [collections record_event].
  destruct (collections st !! MAIN_COLLECTION) as [entries|] eqn:Hc;
    [|eexists; split; [reflexivity|extends_tac]].
  cbn [collections record_event]. rewrite Hc.
  destruct (query_nearest C entries q 1) as [r|e];
    [|eexists; split; [reflexivity|extends_tac]].
  destruct (documents r) as [|[|doc docs] ds];
    [eexists; split; [reflexivity|extends_tac]| |].
  { destruct (distances r) as [|[|d row] rows];
      eexists; (split; [reflexivity|extends_tac]). }
  destruct (distances r) as [|[|d row] rows];
    [eexists; split; [reflexivity|extends_tac]..|].
  cbn. destruct (d <? T2)%float; eexists; (split; [reflexivity|extends_tac]).
Qed.

Lemma llm_calls_step1 st request : llm_calls (step1_events st request) = [].
Proof.
  unfold step1_events. destruct (document_id request) as [[|c name]|]; try done.
  by destruct (collections st !! (c :: name)).
Qed.

Lemma llm_calls_step2 st : llm_calls (step2_events st) = [].
Proof. unfold step2_events. by destruct (collections st !! MAIN_COLLECTION). Qed.

Lemma llm_calls_app evs1 evs2 : llm_calls (evs1 ++ evs2) = llm_calls evs1 ++ llm_calls evs2.
Proof. apply List.filter_app. Qed.

Lemma no_context_message_default language :
  default
    (lit "Hmm, I can't seem to find a suitable answer from the current data. Perhaps the question could be clarified a bit.")
    (NO_CONTEXT_MESSAGES language) = no_answer_message language.
Proof.
  unfold NO_CONTEXT_MESSAGES, no_answer_message.
  destruct (bool_decide (language = lit "id")); [done|].
  by destruct (bool_decide (language = lit "en")).
Qed.

(** The whole endpoint, by what the two steps found. *)
Lemma question_answering_spec C request st q :
  embed_query C (question request) = Returns q ->
  exists st',
    question_answering C request st =
      (match tier1_context C st request q with
       | Some context => generated C request context
       | None =>
           match main_context C st q with
           | Some context => generated C request context
           | None => Ok (no_answer_message (lang request))
           end
       end, st')
    /\ extends st
         ([EEmbedQuery (question request)] ++ step1_events st request
          ++ match tier1_context C st request q with
             | Some context => [qa_call request context]
             | None =>
                 step2_events st
                 ++ match main_context C st q with
                    | Some context => [qa_call request context]
                    | None => []
                    end
             end) st'.
Proof.
  intros Hq. unfold question_answering, try_except, bind at 1, call. rewrite Hq.
  set (st0 := record_event (EEmbedQuery (question request)) st).
  assert (H0 : extends st [EEmbedQuery (question request)] st0) by done.
  unfold bind at 1.
  destruct (step1_spec C request q st0) as (st1 & -> & H1).
  change (tier1_context C st0 request q) with (tier1_context C st request q).
  change (step1_events st0 request) with (step1_events st request) in H1.
  pose proof (extends_trans _ _ _ _ _ H0 H1) as H01.
  assert (Hstep3 : forall context (sta : State),
            exists st',
              (let (o, stb) := step3 C request (Some context) sta in
               match o with
               | Ok a => (Ok a, stb)
               | Raise e =>
                   raise (HTTPException 500 (lit "Internal server error: " ++ str_exn e)) stb
               | Diverge => (Diverge, stb)
               end) = (generated C request context, st')
              /\ extends sta [qa_call request context] st').
  { intros context sta. unfold step3, chat, call, generated, qa_call, raise.
    destruct (create_chat_completion _ _ _ _ _); eexists; (split; [reflexivity|done]). }
  destruct (tier1_context C st request q) as [context|] eqn:Ht1.
  - unfold bind, ret.
    destruct (Hstep3 context st1) as (st' & -> & H3).
    exists st'. split; [done|].
    rewrite app_assoc. eapply extends_trans; [exact H01|exact H3].
  - unfold bind at 1.
    destruct (step2_spec C q st1) as (st2 & -> & H2).
    assert (Hm : main_context C st1 q = main_context C st q).
    { unfold main_context. by rewrite (nearest_extends C st _ st1 _ _ _ H01). }
    assert (Hev2 : step2_events st1 = step2_events st).
    { unfold step2_events. destruct H01 as (Hc & _ & _). by rewrite Hc. }
    rewrite Hm. rewrite Hev2 in H2.
    pose proof (extends_trans _ _ _ _ _ H01 H2) as H012.
    rewrite <- app_assoc in H012.
    destruct (main_context C st q) as [context|] eqn:Ht2.
    + destruct (Hstep3 context st2) as (st' & -> & H3).
      exists st'. split; [done|].
      pose proof (extends_trans _ _ _ _ _ H012 H3) as H. by rewrite <- !app_assoc in H.
    + unfold step3, ret. rewrite no_context_message_default.
      exists st2. split; [done|]. by rewrite app_nil_r.
Qed.

(** What "tier 1 does not admit" and "tier 2 does not admit" mean, in
    terms of the nearest distances. *)
Lemma tier1_context_None C st request q :
  tier1_context C st request q = None <->
  (forall name docs d1,
     document_id request = Some name -> name <> [] ->
     nearest C st name q 2 = Some (docs, d1) -> (d1 <? T1)%float = false).
Proof.
  unfold tier1_context. split.
  - intros H name docs d1 Hid Hne Hn. rewrite Hid in H.
    destruct name as [|c name]; [done|]. rewrite Hn in H.
    by destruct (d1 <? T1)%float.
  - intros H. destruct (document_id request) as [[|c name]|]; try done.
    destruct (nearest C st (c :: name) q 2) as [[docs d1]|] eqn:Hn; [|done].
    by rewrite (H (c :: name) docs d1).
Qed.

Lemma main_context_None C st q :
  main_context C st q = None <->
  (forall doc docs d2,
     nearest C st MAIN_COLLECTION q 1 = Some (doc :: docs, d2) ->
     (d2 <? T2)%float = false).
Proof.
  unfold main_context. split.
  - intros H doc docs d2 Hn. rewrite Hn in H. by destruct (d2 <? T2)%float.
  - intros H.
    destruct (nearest C st MAIN_COLLECTION q 1) as [[[|doc docs] d2]|] eqn:Hn;
      try done.
    by rewrite (H doc docs d2).
Qed.

(** C1. For a question whose embedding [q] the embedding model returns:
    - if a document id is supplied and the nearest distance [d1] in its
      collection is below 1.0, the answer is generated from the chunks
      that the collection returned for the 2 nearest, joined by a blank
      line; the main collection is not consulted, so its distance plays
      no part;
    - otherwise, if the nearest distance [d2] in the main collection is
      below 1.2, the answer is generated from the chunk returned there,
      with one call to the language model;
    - otherwise the answer is the fixed message of the requested language
      (the English one for a code other than [id]), and the language
      model is not called. *)
Theorem two_tier_selection (C : Collaborators) (request : QARequest)
    (st : State) (q : list float) :
  embed_query C (question request) = Returns q ->
  let answer := fst (question_answering C request st) in
  let st' := snd (question_answering C request st) in
  (forall name docs d1,
     document_id request = Some name -> name <> [] ->
     nearest C st name q 2 = Some (docs, d1) ->
     (d1 <? T1)%float = true ->
     answer = generated C request (join [LF; LF] docs) /\
     new_events st st' =
       [ EEmbedQuery (question request); EGetCollection name; EQuery name 2;
         qa_call request (join [LF; LF] docs) ])
  /\ (tier1_context C st request q = None ->
      forall doc docs d2,
        nearest C st MAIN_COLLECTION q 1 = Some (doc :: docs, d2) ->
        (d2 <? T2)%float = true ->
        answer = generated C request (join [LF; LF] (doc :: docs)) /\
        llm_calls (new_events st st')
          = [qa_call request (join [LF; LF] (doc :: docs))])
  /\ (tier1_context C st request q = None ->
      main_context C st q = None ->
      answer = Ok (no_answer_message (lang request)) /\
      llm_calls (new_events st st') = []).
Proof.
  intros Hq answer st'. subst answer st'.
  destruct (question_answering_spec C request st q Hq) as (st' & Hrun & Hext).
  rewrite Hrun. cbn [fst snd]. rewrite (extends_new_events _ _ _ Hext).
  split; [|split].
  - intros name docs d1 Hid Hne Hn Hd.
    assert (Ht : tier1_context C st request q = Some (join [LF; LF] docs)).
    { unfold tier1_context. rewrite Hid. destruct name as [|c name]; [done|].
      by rewrite Hn, Hd. }
    rewrite Ht. split; [done|].
    unfold step1_events. rewrite Hid. destruct name as [|c name]; [done|].
    unfold nearest in Hn. by destruct (collections st !! (c :: name)).
  - intros Ht doc docs d2 Hn Hd. rewrite Ht.
    assert (Hm : main_context C st q = Some (join [LF; LF] (doc :: docs))).
    { unfold main_context. by rewrite Hn, Hd. }
    rewrite Hm. split; [done|].
    rewrite !llm_calls_app, llm_calls_step1, llm_calls_step2. done.
  - intros Ht Hm. rewrite Ht, Hm. split; [done|].
    rewrite !llm_calls_app, llm_calls_step1, llm_calls_step2. done.
Qed.

(** The three cases on the sample store: a question about the ingested
    page (distance 0.25 in its collection), the same question without a
    document id when the main collection is near (0.5) and when it is far
    (1.5). *)
Lemma two_tier_selection_witness :
  let ask id := {| document_id := id; question := lit "Do nets work?";
                   lang := lit "en" |} in
  fst (question_answering (sample NoFault) (ask (Some (uuid_str SAMPLE_UUID)))
         (after_ingestion 2))
    = generated (sample NoFault) (ask (Some (uuid_str SAMPLE_UUID)))
        (join [LF; LF] [lit "Deep nets  work."])
  /\ fst (question_answering (sample NoFault) (ask None) (main_only 0))
     = generated (sample NoFault) (ask None)
         (join [LF; LF] [lit "Artificial intelligence is a branch of computer science."])
  /\ fst (question_answering (sample NoFault) (ask None) (main_only 2))
     = Ok (no_answer_message (lit "en"))
  /\ llm_calls (new_events (main_only 2)
        (snd (question_answering (sample NoFault) (ask None) (main_only 2)))) = [].
Proof.
  intros ask. split; [|split].
  - refine (proj1 (proj1 (two_tier_selection (sample NoFault)
              (ask (Some (uuid_str SAMPLE_UUID))) (after_ingestion 2)
              [0.5%float] eq_refl)
            (uuid_str SAMPLE_UUID) [lit "Deep nets  work."] 0.25%float
            eq_refl _ _ eq_refl)).
    + discriminate.
    + vm_compute. reflexivity.
  - refine (proj1 (proj1 (proj2 (two_tier_selection (sample NoFault) (ask None)
              (main_only 0) [0.5%float] eq_refl)) eq_refl
            (lit "Artificial intelligence is a branch of computer science.")
            [] 0.5%float _ eq_refl)).
    vm_compute. reflexivity.
  - refine (proj2 (proj2 (two_tier_selection (sample NoFault) (ask None)
              (main_only 2) [0.5%float] eq_refl)) eq_refl _).
    vm_compute. reflexivity.
Defined.

(** ** Examples of requests on the sample store *)

Lemma non_pdf_rejected_witness :
  summarize_pdf (sample NoFault) (lit "notes.txt") [] (lit "en") SAMPLE_UUID
      (lit "/tmp/tmpa1b2c3.pdf") (main_only 0)
    = (Raise (HTTPException 400 (lit "Invalid file type. Please upload a PDF.")),
       main_only 0).
Proof. apply non_pdf_rejected. reflexivity. Defined.

(** Whichever collaborator fails, the sample ingestion answers HTTP 500,
    its last call is the deletion of its own collection, and the store is
    back to the main collection alone. *)
Lemma sample_ingestion_fails (fault : Fault) :
  fault <> NoFault ->
  let run := summarize_pdf (sample fault) (lit "paper.pdf") [37; 80; 68; 70]%N
               (lit "en") SAMPLE_UUID (lit "/tmp/tmpa1b2c3.pdf") (main_only 0) in
  (exists detail, fst run = Raise (HTTPException 500 detail))
  /\ last (trace (snd run)) = Some (EDeleteCollection (uuid_str SAMPLE_UUID))
  /\ collections (snd run) = collections (main_only 0)
  /\ files (snd run) = ∅.
Proof.
  intros Hf run. subst run.
  destruct fault; [done|..]; (split; [eexists; vm_compute; reflexivity|]);
    vm_compute; done.
Qed.

(** A store failure happens after the collection was created. *)
Lemma sample_store_failure_after_create :
  let run := summarize_pdf (sample StoreRejects) (lit "paper.pdf") [37; 80; 68; 70]%N
               (lit "en") SAMPLE_UUID (lit "/tmp/tmpa1b2c3.pdf") (main_only 0) in
  fst run = Raise (HTTPException 500 (lit "Internal server error: batch rejected"))
  /\ List.filter (fun ev => match ev with
                            | ECreateCollection _ | EAdd _ _ | EDeleteCollection _ => true
                            | _ => false
                            end) (trace (snd run))
     = [ ECreateCollection (uuid_str SAMPLE_UUID);
         EAdd (uuid_str SAMPLE_UUID) [lit "chunk_0"];
         EDeleteCollection (uuid_str SAMPLE_UUID) ].
Proof. vm_compute. done. Qed.

(** The sample ingestion succeeds when nothing fails; the collection of
    the document holds the one chunk of the cleaned page. *)
Lemma sample_ingestion_succeeds :
  let run := summarize_pdf (sample NoFault) (lit "paper.pdf") [37; 80; 68; 70]%N
               (lit "en") SAMPLE_UUID (lit "/tmp/tmpa1b2c3.pdf") (main_only 0) in
  (exists summary,
     fst run = Ok {| response_filename := lit "paper.pdf";
                     structured_summary := summary;
                     response_document_id := uuid_str SAMPLE_UUID |})
  /\ List.map entry_document <$> collections (snd run) !! uuid_str SAMPLE_UUID
     = Some [lit "Deep nets  work."].
Proof. split; [eexists|]; vm_compute; reflexivity. Qed.

(** ** The structured summary *)

Lemma dict_get_lookup_key items key default_value :
  dict_get items key default_value = default default_value (lookup_key items key).
Proof.
  induction items as [|[k v] items IH]; simpl; [done|].
  by destruct (bool_decide (k = key)).
Qed.

(** C4 (as amended). For every parsed JSON object the summary has the four
    display fields, in order, none omitted; a key that is present maps to
    its value as it is (an empty string stays empty), and a key that is
    missing maps to the sentinel ["Tidak ditemukan."]. So when all four
    keys are bound to values other than that very string, no field of the
    summary is the sentinel. *)
Theorem summary_of_parsed_object (items : list (pystr * pyvalue)) (st : State) :
  exists summary,
    final_summary_of (PDict items) st = (Ok summary, st) /\
    List.map fst summary = List.map snd SUMMARY_KEYS /\
    (forall key field, (key, field) ∈ SUMMARY_KEYS ->
       lookup_key summary field = Some (default NOT_FOUND (lookup_key items key))) /\
    ((forall key field, (key, field) ∈ SUMMARY_KEYS ->
        exists v, lookup_key items key = Some v /\ v <> NOT_FOUND) ->
     Forall (fun entry => snd entry <> NOT_FOUND) summary).
Proof.
  eexists. split; [reflexivity|]. split; [reflexivity|]. split.
  - intros key field Hin. rewrite <- dict_get_lookup_key.
    unfold SUMMARY_KEYS in Hin.
    repeat (apply elem_of_cons in Hin as [[= -> ->]|Hin]; [reflexivity|]).
    by apply elem_of_nil in Hin.
  - intros Hall. rewrite !dict_get_lookup_key.
    repeat apply Forall_cons_2; try apply Forall_nil_2; simpl.
    + destruct (Hall (lit "research_objective") (lit "Tujuan Penelitian")) as (v & -> & Hv);
        [unfold SUMMARY_KEYS; set_solver|done].
    + destruct (Hall (lit "methods") (lit "Metode")) as (v & -> & Hv);
        [unfold SUMMARY_KEYS; set_solver|done].
    + destruct (Hall (lit "main_results") (lit "Hasil Utama")) as (v & -> & Hv);
        [unfold SUMMARY_KEYS; set_solver|done].
    + destruct (Hall (lit "conclusions") (lit "Kesimpulan")) as (v & -> & Hv);
        [unfold SUMMARY_KEYS; set_solver|done].
Qed.

(** C4 (as stated) fails: a key bound to the empty string keeps the empty
    string; the sentinel is for missing keys only. *)
Lemma empty_value_is_not_replaced :
  ~ (forall (items : list (pystr * pyvalue)) (st st' : State) summary,
       final_summary_of (PDict items) st = (Ok summary, st') ->
       forall key field, (key, field) ∈ SUMMARY_KEYS ->
         lookup_key items key = None \/ lookup_key items key = Some (PStr []) ->
         lookup_key summary field = Some NOT_FOUND).
Proof.
  intros H.
  specialize (H [(lit "methods", PStr [])] (main_only 0) (main_only 0) _ eq_refl
                (lit "methods") (lit "Metode")).
  discriminate H; [unfold SUMMARY_KEYS; set_solver|by right].
Qed.
(** ** What an ingestion comes to *)

Lemma bind_Ok_inv {A B} (m : M A) (f : A -> M B) st b st' :
  bind m f st = (Ok b, st') ->
  exists a st1, m st = (Ok a, st1) /\ f a st1 = (Ok b, st').
Proof.
  unfold bind. destruct (m st) as [[a|e|] st1]; [|done..]. intros H. by exists a, st1.
Qed.

Lemma bind_Ok {A B} (m : M A) (f : A -> M B) st a st1 :
  m st = (Ok a, st1) -> bind m f st = f a st1.
Proof. unfold bind. by intros ->. Qed.

(** A summary that [parse_summary] returns comes from a parsed object. *)
Lemma parse_summary_Ok_inv C output st summary st' :
  parse_summary C output st = (Ok summary, st') ->
  exists items,
    json_loads C output = Returns (PDict items) /\
    summary = List.map (fun kf => (snd kf, default NOT_FOUND (lookup_key items (fst kf))))
                SUMMARY_KEYS.
Proof.
  unfold parse_summary, try_except, bind, lift.
  destruct (json_loads C output) as [v|e]; [|by destruct (is_value_error e)].
  destruct v; try by (cbn; intros [=]).
  cbn. intros [= <- <-]. exists items. split; [done|].
  by rewrite !dict_get_lookup_key.
Qed.

Lemma parse_summary_object C output st items :
  json_loads C output = Returns (PDict items) ->
  parse_summary C output st = (Ok (summary_of_items items), st).
Proof.
  intros H. unfold parse_summary, try_except, bind, lift. rewrite H.
  cbn. unfold summary_of_items. cbn [List.map SUMMARY_KEYS fst snd].
  by rewrite !dict_get_lookup_key.
Qed.

Lemma call_Ok_inv {A} ev (r : result A) st a st' :
  call ev r st = (Ok a, st') -> r = Returns a /\ st' = record_event ev st.
Proof. unfold call. destruct r; [|done]. by intros [= -> <-]. Qed.

Lemma windows_length text chunk_size overlap :
  length (windows text chunk_size overlap) = chunk_number text chunk_size overlap.
Proof. unfold windows. by rewrite length_map, length_seq. Qed.

Lemma chunks_of_windows text chunk_size overlap st :
  0 <= overlap < chunk_size ->
  chunks_of text chunk_size overlap st = (Ok (windows text chunk_size overlap), st).
Proof.
  intros H. unfold chunks_of.
  rewrite (chunk_text_by_char_windows text chunk_size overlap) by (done || lia).
  reflexivity.
Qed.

Lemma map_phase_Ok_inv C prompts chunks acc st result st' :
  map_phase C prompts chunks acc st = (Ok result, st') ->
  exists summaries,
    result = acc ++ summaries /\
    Forall2 (fun chunk summary =>
               create_chat_completion C
                 (messages (map_system prompts) (map_user prompts chunk))
                 512 0.2%float false = Returns summary) chunks summaries /\
    extends st (List.map (map_call prompts) chunks) st'.
Proof.
  revert acc st. induction chunks as [|chunk chunks IH]; intros acc st H.
  - injection H as <- <-. exists []. rewrite app_nil_r. split; [done|].
    split; [constructor|apply extends_refl].
  - cbn [map_phase] in H. apply bind_Ok_inv in H as (summary & st1 & Hc & H).
    apply call_Ok_inv in Hc as [Hc ->].
    apply IH in H as (summaries & -> & Hall & Hext).
    exists (summary :: summaries). rewrite <- app_assoc. split; [done|].
    split; [by constructor|].
    apply (extends_trans _ _ _ [map_call prompts chunk] _ (extends_event _ _) Hext).
Qed.

(** The map phase returns when the model answers every chunk. *)
Lemma map_phase_answers C prompts chunks summaries acc st :
  Forall2 (fun chunk summary =>
             create_chat_completion C
               (messages (map_system prompts) (map_user prompts chunk))
               512 0.2%float false = Returns summary) chunks summaries ->
  exists st',
    map_phase C prompts chunks acc st = (Ok (acc ++ summaries), st')
    /\ extends st (List.map (map_call prompts) chunks) st'.
Proof.
  intros Hall. revert acc st.
  induction Hall as [|chunk summary chunks summaries Hc _ IH]; intros acc st.
  - exists st. rewrite app_nil_r. split; [done|apply extends_refl].
  - cbn [map_phase]. unfold bind, chat, call. rewrite Hc.
    destruct (IH (acc ++ [summary])
                (record_event
                   (EChatCompletion
                      (messages (map_system prompts) (map_user prompts chunk))
                      512 0.2%float false) st)) as (st' & -> & Hext).
    exists st'. rewrite <- app_assoc. split; [done|].
    apply (extends_trans _ _ _ [map_call prompts chunk] _ (extends_event _ _) Hext).
Qed.

Lemma parse_summary_state C output st :
  snd (parse_summary C output st) = st.
Proof.
  unfold parse_summary, try_except, bind, lift.
  destruct (json_loads C output) as [v|e]; [|by destruct (is_value_error e)].
  by destruct v.
Qed.

Lemma summary_of_parsed C output st summary st' :
  parse_summary C output st = (Ok summary, st') ->
  exists items,
    json_loads C output = Returns (PDict items) /\ summary = summary_of_items items
    /\ st' = st.
Proof.
  intros H. pose proof (parse_summary_state C output st) as Hs. rewrite H in Hs.
  apply parse_summary_Ok_inv in H as (items & Hj & ->). by exists items.
Qed.

Lemma create_collection_Ok_inv name st c st' :
  create_collection name st = (Ok c, st') ->
  c = name /\ collections st !! name = None /\
  st' = set_collections (insert name []) (record_event (ECreateCollection name) st).
Proof.
  unfold create_collection. cbn [collections record_event].
  destruct (collections st !! name); [done|]. by intros [= <- <-].
Qed.

Lemma collection_add_Ok_inv C name embeddings documents ids st u st' :
  collection_add C name embeddings documents ids st = (Ok u, st') ->
  exists entries,
    collections st !! name = Some entries /\
    length embeddings = length ids /\ length documents = length ids /\
    add_rejects C ids documents embeddings = None /\
    st' = set_collections (insert name (entries ++ entries_of ids documents embeddings))
            (record_event (EAdd name ids) st).
Proof.
  unfold collection_add. cbn [collections record_event].
  destruct (collections st !! name) as [entries|]; [|done].
  destruct (bool_decide (length embeddings = length ids)) eqn:H1; [|done].
  destruct (bool_decide (length documents = length ids)) eqn:H2; [|done].
  cbn [andb negb].
  destruct (add_rejects C ids documents embeddings); [done|].
  intros [= _ <-]. exists entries.
  apply bool_decide_eq_true in H1, H2. done.
Qed.

Lemma length_chunk_ids n : length (chunk_ids n) = n.
Proof. unfold chunk_ids. by rewrite length_map, length_seq. Qed.

(** A cleaned text is not a run of white space. *)
Lemma isspace_clean_text (text : pystr) : isspace (clean_text text) = false.
Proof.
  unfold clean_text. cbv zeta.
  set (s := re_sub BLANK_LINES [LF]
              (re_sub HEADER [] (re_sub CITATION [] (re_sub TABLE_ROW [] text)))).
  assert (Hh : match strip s with [] => True | c :: _ => is_space c = false end).
  { unfold strip. rewrite <- (lstrip_rstrip_fixed (lstrip s) (lstrip_head s)).
    apply lstrip_head. }
  destruct (strip s) as [|c s']; [done|]. cbn. by rewrite Hh.
Qed.

(** What a body that returns has done: every step succeeded, and the
    state is the one these steps leave. *)
Lemma summarize_body_Ok C filename content language document_id tmp st response st' :
  files st !! tmp = Some content ->
  summarize_body C filename (normalize_lang language) document_id tmp st
    = (Ok response, st') ->
  exists markdown summaries output items embeddings,
    let cleaned := clean_text markdown in
    let prompts := prompts_of language in
    let text_chunks := windows cleaned 3000 200 in
    let qa_chunks := windows cleaned 1000 150 in
    let ids := chunk_ids (length qa_chunks) in
    convert C content = Returns markdown /\
    cleaned <> [] /\
    Forall2 (fun chunk summary =>
               create_chat_completion C
                 (messages (map_system prompts) (map_user prompts chunk))
                 512 0.2%float false = Returns summary) text_chunks summaries /\
    create_chat_completion C
      (messages (reduce_system prompts)
         (reduce_user prompts (join [LF; LF] summaries)))
      1024 0.1%float true = Returns output /\
    json_loads C output = Returns (PDict items) /\
    embed_documents C qa_chunks = Returns embeddings /\
    length embeddings = length qa_chunks /\
    add_rejects C ids qa_chunks embeddings = None /\
    collections st !! document_id = None /\
    response = {| response_filename := filename;
                  structured_summary := summary_of_items items;
                  response_document_id := document_id |} /\
    collections st' = <[document_id := entries_of ids qa_chunks embeddings]> (collections st) /\
    files st' = files st /\
    trace st' = trace st ++ [EConvert tmp] ++ List.map (map_call prompts) text_chunks
                ++ [reduce_call prompts (join [LF; LF] summaries);
                    EEmbedDocuments qa_chunks;
                    ECreateCollection document_id;
                    EAdd document_id ids].
Proof.
  unfold summarize_body. intros Hfile H.
  apply bind_Ok_inv in H as (markdown & st2 & Hconv & H). cbv zeta in H.
  unfold convert_pdf_to_markdown in Hconv. rewrite Hfile in Hconv.
  apply call_Ok_inv in Hconv as [Hconv ->].
  destruct (bool_decide (clean_text markdown = [])) eqn:Hempty; [done|].
  apply bool_decide_eq_false in Hempty.
  destruct (isspace (clean_text markdown)); [done|]. cbn [orb] in H.
  apply bind_Ok_inv in H as (text_chunks & st3 & Hchunks & H).
  rewrite (chunks_of_windows _ 3000 200) in Hchunks by lia.
  injection Hchunks as <- <-.
  rewrite prompt_templates_normalize_lang in H.
  apply bind_Ok_inv in H as (prompts & st4 & Hprompts & H).
  injection Hprompts as <- <-.
  apply bind_Ok_inv in H as (chunk_summaries & st5 & Hmap & H).
  apply map_phase_Ok_inv in Hmap as (summaries & -> & Hall & Hc5 & Hf5 & Ht5).
  rewrite app_nil_l in H.
  apply bind_Ok_inv in H as (output & st6 & Hred & H).
  apply call_Ok_inv in Hred as [Hred ->].
  apply bind_Ok_inv in H as (summary & st7 & Hparse & H).
  apply summary_of_parsed in Hparse as (items & Hjson & -> & ->).
  apply bind_Ok_inv in H as (qa_chunks & st8 & Hchunks & H).
  rewrite (chunks_of_windows _ 1000 150) in Hchunks by lia.
  injection Hchunks as <- <-.
  apply bind_Ok_inv in H as (embeddings & st9 & Hemb & H).
  apply call_Ok_inv in Hemb as [Hemb ->].
  apply bind_Ok_inv in H as (collection & st10 & Hcreate & H).
  apply create_collection_Ok_inv in Hcreate as (-> & Hnew & ->).
  apply bind_Ok_inv in H as (? & st11 & Hadd & H).
  apply collection_add_Ok_inv in Hadd as (entries & Hentries & Hlen & _ & Hrej & ->).
  injection H as <- <-.
  cbn [collections files trace record_event set_collections set_files] in *.
  rewrite lookup_insert_eq in Hentries. injection Hentries as <-.
  rewrite length_chunk_ids in Hlen.
  exists markdown, summaries, output, items, embeddings. cbv zeta.
  rewrite Hc5, Hf5, Ht5 in *. cbn [collections files trace record_event set_files] in *.
  repeat split; try done.
  - by rewrite insert_insert_eq.
  - by rewrite <- !app_assoc.
Qed.

(** And the body returns when every step succeeds. *)
Lemma summarize_body_succeeds C filename content language document_id tmp st
    markdown summaries items embeddings :
  files st !! tmp = Some content ->
  ingestion_succeeds C content language document_id st markdown summaries items embeddings ->
  exists response st',
    summarize_body C filename (normalize_lang language) document_id tmp st
      = (Ok response, st').
Proof.
  intros Hfile (_ & Hconv & Hne & Hall & (output & Hred & Hjson) & Hemb & Hlen & Hnew & Hrej).
  unfold summarize_body.
  rewrite (bind_Ok _ _ st markdown (record_event (EConvert tmp) st)); cycle 1.
  { unfold convert_pdf_to_markdown, call. by rewrite Hfile, Hconv. }
  cbv zeta. rewrite (bool_decide_eq_false_2 _ Hne), isspace_clean_text. cbn [orb].
  erewrite bind_Ok by (apply chunks_of_windows; lia).
  rewrite prompt_templates_normalize_lang. erewrite bind_Ok by reflexivity.
  destruct (map_phase_answers C (prompts_of language) _ _ []
              (record_event (EConvert tmp) st) Hall) as (st5 & Hmap & Hc5 & _ & _).
  rewrite app_nil_l in Hmap. erewrite bind_Ok by exact Hmap.
  erewrite bind_Ok; cycle 1.
  { unfold chat, call. rewrite Hred. reflexivity. }
  erewrite bind_Ok by (by apply parse_summary_object).
  erewrite bind_Ok by (apply chunks_of_windows; lia).
  erewrite bind_Ok; cycle 1.
  { unfold call. rewrite Hemb. reflexivity. }
  erewrite bind_Ok; cycle 1.
  { unfold create_collection. cbn [collections record_event].
    rewrite Hc5. cbn [collections record_event]. rewrite Hnew. reflexivity. }
  erewrite bind_Ok; cycle 1.
  { unfold collection_add. cbn [collections record_event set_collections].
    rewrite lookup_insert_eq, length_chunk_ids.
    rewrite !bool_decide_eq_true_2 by done. cbn [andb negb]. rewrite Hrej.
    reflexivity. }
  by eexists _, _.
Qed.

(** A request that passed the name check, by what the upload and the
    body did. *)
Lemma summarize_pdf_by_body C filename content language uuid tmp st :
  endswith filename (lit ".pdf") = true ->
  let run := summarize_pdf C filename content language uuid tmp st in
  let rolled_back cause path st1 :=
    fst run = Raise (HTTPException 500 (lit "Internal server error: " ++ str_exn cause))
    /\ collections (snd run) = delete (uuid_str uuid) (collections st1)
    /\ trace (snd run) = trace st1 ++ [EDeleteCollection (uuid_str uuid)]
    /\ files (snd run) = files (snd (remove_if_exists path st1)) in
  match upload C content with
  | CreateFails cause => rolled_back cause None st
  | WriteFails cause written =>
      rolled_back cause None (set_files (insert tmp (take written content)) st)
  | CloseFails cause =>
      rolled_back cause (Some tmp) (set_files (insert tmp content) st)
  | Saved =>
      match summarize_body C filename (normalize_lang language) (uuid_str uuid) tmp
              (set_files (insert tmp content) st) with
      | (Ok response, st1) =>
          fst run = Ok response /\ collections (snd run) = collections st1
          /\ trace (snd run) = trace st1
          /\ files (snd run) = files (snd (remove_if_exists (Some tmp) st1))
      | (Raise cause, st1) => rolled_back cause (Some tmp) st1
      | (Diverge, _) => False
      end
  end.
Proof.
  intros Hpdf run rolled_back. subst run rolled_back. cbv beta.
  assert (Hroll : forall cause path st1,
    let r := try_finally (summarize_rollback (uuid_str uuid) cause)
               (remove_if_exists path) st1 in
    fst r = Raise (HTTPException 500 (lit "Internal server error: " ++ str_exn cause))
    /\ collections (snd r) = delete (uuid_str uuid) (collections st1)
    /\ trace (snd r) = trace st1 ++ [EDeleteCollection (uuid_str uuid)]
    /\ files (snd r) = files (snd (remove_if_exists path st1))).
  { intros cause path st1.
    unfold try_finally, summarize_rollback, bind, try_except, delete_collection,
      raise, ret.
    cbn [collections record_event set_collections set_files trace].
    destruct (collections st1 !! uuid_str uuid) as [entries|] eqn:Hc;
      destruct path as [[|c path]|];
      cbn [fst snd collections record_event set_collections set_files trace files
           remove_if_exists];
      repeat split; try done; by rewrite delete_id. }
  assert (Hraised : forall {A} (m : M A) h c s cause st1,
            m s = (Raise cause, st1) ->
            try_finally (try_except m h) c s = try_finally (h cause) c st1).
  { intros A m h c s cause st1 Hm. unfold try_finally at 1, try_except. by rewrite Hm. }
  pose proof (total_summarize_body C filename (normalize_lang language)
                (uuid_str uuid) tmp (set_files (insert tmp content) st)) as Htotal.
  unfold summarize_pdf. rewrite Hpdf. cbv beta iota zeta delta [negb].
  unfold try_bind_finally, write_temp.
  destruct (upload C content) as [|cause|cause written|cause] eqn:Hup;
    [|apply Hroll|apply Hroll|].
  - (* saved *)
    destruct (summarize_body _ _ _ _ _ _) as [[response|cause|] st1] eqn:Hbody;
      cbn [fst snd] in *; [| |done].
    + unfold try_finally, try_except, bind, close_temp. rewrite Hup, Hbody.
      by destruct tmp as [|c tmp].
    + erewrite Hraised; [apply Hroll|].
      unfold bind, close_temp. by rewrite Hup, Hbody.
  - (* the file cannot be closed *)
    erewrite Hraised; [apply Hroll|].
    unfold bind, close_temp. by rewrite Hup.
Qed.

(** What a request that returns has done. *)
Lemma summarize_pdf_Ok C filename content language uuid tmp st response st' :
  summarize_pdf C filename content language uuid tmp st = (Ok response, st') ->
  exists markdown summaries output items embeddings,
    let cleaned := clean_text markdown in
    let prompts := prompts_of language in
    let text_chunks := windows cleaned 3000 200 in
    let qa_chunks := windows cleaned 1000 150 in
    let ids := chunk_ids (length qa_chunks) in
    ingestion_succeeds C content language (uuid_str uuid) st
      markdown summaries items embeddings /\
    create_chat_completion C
      (messages (reduce_system prompts)
         (reduce_user prompts (join [LF; LF] summaries)))
      1024 0.1%float true = Returns output /\
    json_loads C output = Returns (PDict items) /\
    response = {| response_filename := filename;
                  structured_summary := summary_of_items items;
                  response_document_id := uuid_str uuid |} /\
    collections st' = <[uuid_str uuid := entries_of ids qa_chunks embeddings]> (collections st) /\
    trace st' = trace st ++ [EConvert tmp] ++ List.map (map_call prompts) text_chunks
                ++ [reduce_call prompts (join [LF; LF] summaries);
                    EEmbedDocuments qa_chunks;
                    ECreateCollection (uuid_str uuid);
                    EAdd (uuid_str uuid) ids].
Proof.
  intros Hrun.
  assert (Hpdf : endswith filename (lit ".pdf") = true).
  { unfold summarize_pdf in Hrun. by destruct (endswith filename (lit ".pdf")). }
  pose proof (summarize_pdf_by_body C filename content language uuid tmp st Hpdf) as H.
  cbv zeta beta in H. rewrite Hrun in H. cbn [fst snd] in H.
  destruct (upload C content) as [|cause|cause written|cause] eqn:Hw;
    [|by destruct H..].
  destruct (summarize_body _ _ _ _ _ _) as [[r|cause|] st1] eqn:Hbody;
    [|by destruct H|done].
  destruct H as ([= <-] & Hc & Ht & _).
  apply (summarize_body_Ok C filename content) in Hbody
    as (markdown & summaries & output & items & embeddings & Hbody);
    [|apply lookup_insert_eq].
  cbv zeta in Hbody.
  cbn [collections files trace set_files] in Hbody.
  destruct Hbody as (Hconv & Hne & Hall & Hred & Hjson & Hemb & Hlen & Hrej & Hnew
                     & -> & Hc1 & _ & Ht1).
  exists markdown, summaries, output, items, embeddings. cbv zeta.
  rewrite Hc, Ht, Hc1, Ht1.
  split; [|done].
  unfold ingestion_succeeds. cbv zeta.
  split; [done|]. split; [done|]. split; [done|]. split; [done|].
  split; [by exists output|]. done.
Qed.

(** C3. A request that passed the name check returns exactly when every
    step of the ingestion succeeds: the upload is saved, the converter
    returns a text that is not empty after cleaning, the model answers
    every map call and the reduce call, the answer parses to an object,
    the embedding model returns one vector per chunk, the document id is
    unused and the store accepts the chunks. In every other case, that is
    whenever the upload, the extraction, the generation, the parse, the
    embedding or the store fails, the request is answered with HTTP 500 (never with the
    error of the deletion, which is swallowed), the deletion of the
    collection named by its document id is its last call, no collection of
    that name is left in the store, and the other collections are as
    before the request. No request runs for ever. (The store deletes an
    existing collection without fail.) *)
Theorem failed_ingestion_rolls_back (C : Collaborators) (filename : pystr)
    (content : list N) (language : pystr) (uuid : N) (tmp : pystr) (st : State) :
  endswith filename (lit ".pdf") = true ->
  let document_id := uuid_str uuid in
  let run := summarize_pdf C filename content language uuid tmp st in
  let st' := snd run in
  let rolled_back e :=
    (exists cause,
       e = HTTPException 500 (lit "Internal server error: " ++ str_exn cause)) /\
    last (trace st') = Some (EDeleteCollection document_id) /\
    collections st' !! document_id = None /\
    (forall name, name <> document_id ->
       collections st' !! name = collections st !! name) in
  ((exists response, fst run = Ok response) <->
   (exists markdown summaries items embeddings,
      ingestion_succeeds C content language document_id st
        markdown summaries items embeddings))
  /\ (forall e, fst run = Raise e -> rolled_back e)
  /\ fst run <> Diverge
  /\ ((forall markdown summaries items embeddings,
         ~ ingestion_succeeds C content language document_id st
             markdown summaries items embeddings) ->
      exists e, fst run = Raise e /\ rolled_back e).
Proof.
  intros Hpdf document_id run st' rolled_back.
  assert (Hiff : (exists response, fst run = Ok response) <->
                 (exists markdown summaries items embeddings,
                    ingestion_succeeds C content language document_id st
                      markdown summaries items embeddings)).
  { split.
    - intros [response Hrun]. subst run.
      destruct (summarize_pdf C filename content language uuid tmp st)
        as [o st1] eqn:Hr.
      cbn [fst] in Hrun. subst o.
      apply summarize_pdf_Ok in Hr
        as (markdown & summaries & output & items & embeddings & Hs & _).
      by exists markdown, summaries, items, embeddings.
    - intros (markdown & summaries & items & embeddings & Hs).
      pose proof (summarize_pdf_by_body C filename content language uuid tmp st Hpdf)
        as H.
      cbv zeta beta in H. fold run in H.
      pose proof Hs as (Hw & _). rewrite Hw in H.
      destruct (summarize_body_succeeds C filename content language document_id tmp
                  (set_files (insert tmp content) st)
                  markdown summaries items embeddings)
        as (response & st1 & Hbody); [apply lookup_insert_eq|exact Hs|].
      fold document_id in H. rewrite Hbody in H. destruct H as [H _].
      by exists response. }
  assert (Hraise : forall e, fst run = Raise e -> rolled_back e).
  { intros e Hrun. subst rolled_back. cbv beta.
    assert (Hframe : frame (fun _ => True) (fun name => name <> document_id) st st').
    { apply (summarize_pdf_frame C _ _ language document_id); try done.
      by intros H. }
    destruct Hframe as [_ Hkeep].
    pose proof (summarize_pdf_by_body C filename content language uuid tmp st Hpdf)
      as H.
    cbv zeta beta in H. fold run st' document_id in H.
    assert (Hrolled : forall cause st1,
              fst run = Raise (HTTPException 500
                                 (lit "Internal server error: " ++ str_exn cause)) ->
              collections st' = delete document_id (collections st1) ->
              trace st' = trace st1 ++ [EDeleteCollection document_id] ->
              (exists cause,
                 e = HTTPException 500 (lit "Internal server error: " ++ str_exn cause))
              /\ last (trace st') = Some (EDeleteCollection document_id)
              /\ collections st' !! document_id = None
              /\ (forall name, name <> document_id ->
                    collections st' !! name = collections st !! name)).
    { intros cause st1 Hf Hc Ht. rewrite Hrun in Hf. injection Hf as ->.
      split; [by exists cause|]. split; [by rewrite Ht, last_snoc|].
      split; [rewrite Hc; apply lookup_delete_eq|exact Hkeep]. }
    destruct (upload C content) as [|cause|cause written|cause];
      [|destruct H as (Hf & Hc & Ht & _); by apply (Hrolled cause _ Hf Hc Ht)..].
    destruct (summarize_body _ _ _ _ _ _) as [[r|cause|] st1]; [| |done].
    + destruct H as [Hf _]. rewrite Hrun in Hf. discriminate Hf.
    + destruct H as (Hf & Hc & Ht & _). by apply (Hrolled cause _ Hf Hc Ht). }
  assert (Htotal : fst run <> Diverge) by apply total_summarize_pdf.
  split; [exact Hiff|]. split; [exact Hraise|]. split; [exact Htotal|].
  intros Hfail. destruct (fst run) as [response|e|] eqn:Hrun; [|by eauto|done].
  exfalso. destruct (proj1 Hiff) as (markdown & summaries & items & embeddings & Hs);
    [by exists response|].
  by apply (Hfail markdown summaries items embeddings).
Qed.

(** The store rejects the batch after the collection has been created:
    the request fails and the collection is gone. *)
Lemma failed_ingestion_rolls_back_witness :
  let run := summarize_pdf (sample StoreRejects) (lit "paper.pdf") [37; 80; 68; 70]%N
               (lit "en") SAMPLE_UUID (lit "/tmp/tmpa1b2c3.pdf") (main_only 0) in
  exists e,
    fst run = Raise e /\
    last (trace (snd run)) = Some (EDeleteCollection (uuid_str SAMPLE_UUID)) /\
    collections (snd run) !! uuid_str SAMPLE_UUID = None.
Proof.
  intros run.
  destruct (failed_ingestion_rolls_back (sample StoreRejects) (lit "paper.pdf")
              [37; 80; 68; 70]%N (lit "en") SAMPLE_UUID (lit "/tmp/tmpa1b2c3.pdf")
              (main_only 0) eq_refl) as (_ & _ & _ & H).
  destruct H as (e & He & _ & Hlast & Hgone & _).
  - intros markdown summaries items embeddings Hs.
    destruct Hs as (_ & _ & _ & _ & _ & _ & _ & _ & Hrej). discriminate Hrej.
  - exists e. split; [exact He|]. split; [exact Hlast|exact Hgone].
Defined.

(** C5 (as amended). The language code of an ingestion selects the
    prompts: every call to the language model is made with the map or the
    reduce prompt of the code's language, Indonesian for [id] and English
    for every other code, so that a code other than [en] and [id] behaves
    as [en]. It does not select the sentinel: whatever the code, the
    summary of a request that returns is built from the object that the
    answer of the reduce call parses to, each field holding the value of
    its key, and ["Tidak ditemukan."] when the object lacks the key. *)
Theorem language_selects_prompts (C : Collaborators) (filename : pystr)
    (content : list N) (language : pystr) (uuid : N) (tmp : pystr) (st : State) :
  let run := summarize_pdf C filename content language uuid tmp st in
  let prompts := prompts_of language in
  (language <> lit "en" -> language <> lit "id" ->
     run = summarize_pdf C filename content (lit "en") uuid tmp st)
  /\ Forall (summarizer_call prompts) (new_events st (snd run))
  /\ (forall response, fst run = Ok response ->
        exists markdown summaries output items,
          convert C content = Returns markdown /\
          Forall2 (fun chunk summary =>
                     create_chat_completion C
                       (messages (map_system prompts) (map_user prompts chunk))
                       512 0.2%float false = Returns summary)
            (windows (clean_text markdown) 3000 200) summaries /\
          create_chat_completion C
            (messages (reduce_system prompts)
               (reduce_user prompts (join [LF; LF] summaries)))
            1024 0.1%float true = Returns output /\
          json_loads C output = Returns (PDict items) /\
          structured_summary response
            = List.map (fun kf => (snd kf, default NOT_FOUND (lookup_key items (fst kf))))
                SUMMARY_KEYS /\
          (forall key field, (key, field) ∈ SUMMARY_KEYS ->
             lookup_key (structured_summary response) field
             = Some (match lookup_key items key with
                     | Some value => value
                     | None => PStr (lit "Tidak ditemukan.")
                     end))).
Proof.
  intros run prompts. subst run prompts. split; [|split].
  - intros Hen Hid. unfold summarize_pdf.
    assert (Hn : normalize_lang language = normalize_lang (lit "en")).
    { unfold normalize_lang, PROMPT_TEMPLATES.
      rewrite !bool_decide_eq_false_2 by done. reflexivity. }
    by rewrite Hn.
  - eapply frame_new_events.
    apply (summarize_pdf_frame C (summarizer_call (prompts_of language))
             (fun name => name <> uuid_str uuid) language (uuid_str uuid));
      try done.
    + intros chunk. left. by exists chunk.
    + intros combined. right. by exists combined.
    + by intros H.
  - intros response Hrun.
    destruct (summarize_pdf C filename content language uuid tmp st) as [r st'] eqn:Hr.
    cbn [fst] in Hrun. subst r.
    apply summarize_pdf_Ok in Hr
      as (markdown & summaries & output & items & embeddings & Hs & Hred & Hjson
          & -> & _).
    destruct Hs as (_ & Hconv & _ & Hall & _).
    exists markdown, summaries, output, items.
    split; [exact Hconv|]. split; [exact Hall|]. split; [exact Hred|].
    split; [exact Hjson|]. split; [reflexivity|].
    intros key field Hin. cbn [structured_summary]. unfold summary_of_items.
    unfold SUMMARY_KEYS in Hin.
    repeat (apply elem_of_cons in Hin as [[= -> ->]|Hin];
            [cbn; by destruct (lookup_key items _)|]).
    by apply elem_of_nil in Hin.
Qed.

(** On the sample, where the model's object lacks [main_results] and
    [conclusions]: an [en] request and an [xx] request call the model with
    the English prompts, and the summary of the [en] request carries the
    sentinel ["Tidak ditemukan."]. *)
Lemma language_selects_prompts_witness :
  let run language :=
    summarize_pdf (sample NoFault) (lit "paper.pdf") [37; 80; 68; 70]%N language
      SAMPLE_UUID (lit "/tmp/tmpa1b2c3.pdf") (main_only 0) in
  run (lit "xx") = run (lit "en")
  /\ Forall (summarizer_call PROMPTS_EN) (new_events (main_only 0) (snd (run (lit "en"))))
  /\ exists response,
       fst (run (lit "en")) = Ok response /\
       lookup_key (structured_summary response) (lit "Hasil Utama")
         = Some (PStr (lit "Tidak ditemukan.")).
Proof.
  intros run.
  pose proof (language_selects_prompts (sample NoFault) (lit "paper.pdf")
                [37; 80; 68; 70]%N (lit "xx") SAMPLE_UUID (lit "/tmp/tmpa1b2c3.pdf")
                (main_only 0)) as Hxx.
  pose proof (language_selects_prompts (sample NoFault) (lit "paper.pdf")
                [37; 80; 68; 70]%N (lit "en") SAMPLE_UUID (lit "/tmp/tmpa1b2c3.pdf")
                (main_only 0)) as Hen.
  cbv zeta in Hxx, Hen.
  split; [|split].
  - apply (proj1 Hxx); discriminate.
  - exact (proj1 (proj2 Hen)).
  - destruct (fst (run (lit "en"))) as [response| |] eqn:Hr;
      [|vm_compute in Hr; discriminate..].
    destruct (proj2 (proj2 Hen) response Hr)
      as (markdown & summaries & output & items & _ & _ & _ & Hjson & _ & Hfield).
    exists response. split; [reflexivity|].
    injection Hjson as <-.
    apply (Hfield (lit "main_results") (lit "Hasil Utama")).
    unfold SUMMARY_KEYS.
    apply list_elem_of_further, list_elem_of_further, list_elem_of_here.
Defined.

(** C5 (as stated) fails: an English request whose model output lacks a
    key gets the Indonesian sentinel, the same summary as an Indonesian
    request. *)
Lemma english_request_gets_indonesian_sentinel :
  let run language :=
    summarize_pdf (sample NoFault) (lit "paper.pdf") [37; 80; 68; 70]%N language
      SAMPLE_UUID (lit "/tmp/tmpa1b2c3.pdf") (main_only 0) in
  (exists response,
     fst (run (lit "en")) = Ok response /\
     lookup_key (structured_summary response) (lit "Hasil Utama")
       = Some (PStr (lit "Tidak ditemukan.")))
  /\ fst (run (lit "en")) = fst (run (lit "id")).
Proof. split; [eexists; split|]; vm_compute; reflexivity. Qed.

(** * Part III: further properties of the code *)

(** ** The chunker, continued *)

(** The windows as slices of natural bounds. *)
Lemma chunk_windows_nat (text : pystr) (chunk_size overlap : Z) (fuel : nat) :
  0 <= overlap < chunk_size ->
  (length text < fuel)%nat ->
  chunk_text_by_char fuel text chunk_size overlap =
    Some (List.map
            (fun k => take (Z.to_nat chunk_size)
                        (drop (k * Z.to_nat (chunk_size - overlap)) text))
            (seq 0 (chunk_number text chunk_size overlap))).
Proof.
  intros Hv Hfuel. rewrite chunk_text_by_char_windows by done. f_equal.
  apply List.map_ext. intros k. apply window_take_drop; lia.
Qed.

Lemma chunk_number_bounds (text : pystr) (chunk_size overlap : Z) :
  0 <= overlap < chunk_size ->
  let n := chunk_number text chunk_size overlap in
  let step := Z.to_nat (chunk_size - overlap) in
  (1 <= n)%nat
  /\ (length text <= (n - 1) * step + Z.to_nat chunk_size)%nat
  /\ (text <> [] -> (n - 1) * step < length text)%nat.
Proof.
  intros Hv n step. subst n step. unfold chunk_number.
  destruct (Z.leb_spec (len text) chunk_size) as [Hle|Hgt]; unfold len in *.
  - repeat split; try lia. intros Ht. destruct text; [done|]. simpl. lia.
  - pose proof (ceil_div_bounds (Z.of_nat (length text)) (chunk_size - overlap)
                  ltac:(lia)) as Hc.
    set (n := ceil_div (Z.of_nat (length text)) (chunk_size - overlap)) in *.
    assert (1 <= n) by nia.
    repeat split; try lia; try nia.
Qed.

Lemma reassemble_prefix (text : pystr) (size overlap : nat) (j : nat) :
  (overlap <= size)%nat ->
  take size text
    ++ concat (List.map (fun k => drop overlap (take size (drop (k * (size - overlap)) text)))
                 (seq 1 j))
  = take (j * (size - overlap) + size) text.
Proof.
  intros Ho. induction j as [|j IH]; [by rewrite app_nil_r|].
  rewrite seq_S, List.map_app, concat_app, app_assoc, IH. cbn [List.map concat].
  rewrite app_nil_r.
  assert (E : forall X : pystr,
            drop overlap (take size X) = take (size - overlap) (drop overlap X)).
  { intros X. rewrite take_drop_commute. do 2 f_equal. lia. }
  rewrite E, drop_drop.
  replace ((1 + j) * (size - overlap) + overlap)%nat
    with (j * (size - overlap) + size)%nat by lia.
  rewrite take_take_drop. f_equal. lia.
Qed.

(** X1. The text can be put together again from its chunks: the first
    chunk, followed by every later chunk without its first [overlap]
    characters. *)
Theorem chunks_reassemble (text : pystr) (chunk_size overlap : Z) (fuel : nat) :
  0 <= overlap < chunk_size ->
  (length text < fuel)%nat ->
  exists first rest,
    chunk_text_by_char fuel text chunk_size overlap = Some (first :: rest) /\
    first ++ concat (List.map (drop (Z.to_nat overlap)) rest) = text.
Proof.
  intros Hv Hfuel. rewrite chunk_windows_nat by done.
  destruct (chunk_number_bounds text chunk_size overlap Hv) as (Hn & Hlen & _).
  destruct (chunk_number text chunk_size overlap) as [|n]; [lia|].
  cbn [seq List.map]. eexists _, _. split; [reflexivity|].
  rewrite List.map_map.
  set (sz := Z.to_nat chunk_size) in *. set (ov := Z.to_nat overlap).
  replace (Z.to_nat (chunk_size - overlap)) with (sz - ov)%nat in * by lia.
  pose proof (reassemble_prefix text sz ov n ltac:(lia)) as H.
  transitivity (take (n * (sz - ov) + sz) text); [exact H|apply take_ge; lia].
Qed.

Lemma chunks_reassemble_witness :
  exists first rest,
    chunk_text_by_char 11 (lit "abcdefghij") 4 2 = Some (first :: rest) /\
    first ++ concat (List.map (drop (Z.to_nat 2)) rest) = lit "abcdefghij".
Proof. apply (chunks_reassemble (lit "abcdefghij") 4 2 11); simpl; lia. Defined.

(** X2. Two consecutive chunks share exactly the overlap: what is left of
    a chunk after one step is the first [overlap] characters of the
    next. *)
Theorem consecutive_chunks_overlap (text : pystr) (chunk_size overlap : Z)
    (fuel : nat) (chunks : list pystr) (k : nat) (c c' : pystr) :
  0 <= overlap < chunk_size ->
  (length text < fuel)%nat ->
  chunk_text_by_char fuel text chunk_size overlap = Some chunks ->
  chunks !! k = Some c -> chunks !! S k = Some c' ->
  drop (Z.to_nat (chunk_size - overlap)) c = take (Z.to_nat overlap) c'.
Proof.
  intros Hv Hfuel Hrun Hk Hk'. rewrite chunk_windows_nat in Hrun by done.
  injection Hrun as <-.
  rewrite list_lookup_fmap in Hk, Hk'.
  destruct (seq 0 _ !! k) as [i|] eqn:Hi; [|done].
  destruct (seq 0 _ !! S k) as [i'|] eqn:Hi'; [|done].
  apply lookup_seq in Hi as [-> _]. apply lookup_seq in Hi' as [-> _].
  cbn in Hk, Hk'. injection Hk as <-. injection Hk' as <-.
  set (sz := Z.to_nat chunk_size). set (ov := Z.to_nat overlap).
  replace (Z.to_nat (chunk_size - overlap)) with (sz - ov)%nat by lia.
  rewrite take_take, Nat.min_l by lia.
  assert (E : forall X : pystr,
            drop (sz - ov) (take sz X) = take ov (drop (sz - ov) X)).
  { intros X. rewrite take_drop_commute. do 2 f_equal. lia. }
  rewrite E, drop_drop. do 2 f_equal. lia.
Qed.

Lemma consecutive_chunks_overlap_witness :
  drop (Z.to_nat (4 - 2)) (lit "cdef") = take (Z.to_nat 2) (lit "efgh").
Proof.
  apply (consecutive_chunks_overlap (lit "abcdefghij") 4 2 11
           [lit "abcd"; lit "cdef"; lit "efgh"; lit "ghij"; lit "ij"] 1);
    try reflexivity; simpl; lia.
Defined.

(** X3. With valid parameters the chunker returns at least one chunk, and
    no chunk of a text that is not empty is empty. *)
Theorem chunks_not_empty (text : pystr) (chunk_size overlap : Z) (fuel : nat) :
  0 <= overlap < chunk_size ->
  (length text < fuel)%nat ->
  exists chunks,
    chunk_text_by_char fuel text chunk_size overlap = Some chunks /\
    chunks <> [] /\
    (text <> [] -> Forall (fun c => c <> []) chunks).
Proof.
  intros Hv Hfuel. rewrite chunk_windows_nat by done.
  destruct (chunk_number_bounds text chunk_size overlap Hv) as (Hn & _ & Hlast).
  eexists. split; [reflexivity|]. split.
  - destruct (chunk_number text chunk_size overlap); [lia|done].
  - intros Ht. specialize (Hlast Ht). apply Forall_forall. intros c Hc.
    apply list_elem_of_fmap in Hc as (k & -> & Hk).
    apply elem_of_seq in Hk. intros Hnil. apply (f_equal length) in Hnil.
    rewrite length_take, length_drop in Hnil. simpl in Hnil.
    assert (k * Z.to_nat (chunk_size - overlap)
            <= (chunk_number text chunk_size overlap - 1)
               * Z.to_nat (chunk_size - overlap))%nat by (apply Nat.mul_le_mono_r; lia).
    lia.
Qed.

Lemma chunks_not_empty_witness :
  exists chunks,
    chunk_text_by_char 11 (lit "abcdefghij") 4 2 = Some chunks /\
    chunks <> [] /\
    (lit "abcdefghij" <> [] -> Forall (fun c => c <> []) chunks).
Proof. apply (chunks_not_empty (lit "abcdefghij") 4 2 11); simpl; lia. Defined.

Lemma chunk_loop_stuck (text : pystr) (chunk_size overlap : Z) :
  chunk_size <= overlap -> 0 < len text ->
  forall fuel start chunks,
    start <= 0 -> chunk_loop fuel text chunk_size overlap start chunks = None.
Proof.
  intros Hs Hlen. induction fuel as [|fuel IH]; intros start chunks Hstart; [done|].
  simpl. destruct (Z.ltb_spec start (len text)); [|lia]. apply IH. lia.
Qed.

(** X4. When the overlap is not smaller than the chunk size, the loop
    makes no progress: on a text that is not empty and longer than the
    chunk size it never leaves, however much fuel it gets. *)
Theorem chunker_hangs_without_progress (text : pystr) (chunk_size overlap : Z)
    (fuel : nat) :
  chunk_size <= overlap -> chunk_size < len text -> text <> [] ->
  chunk_text_by_char fuel text chunk_size overlap = None.
Proof.
  intros Hs Hlen Ht. unfold chunk_text_by_char.
  destruct (Z.leb_spec (len text) chunk_size); [lia|].
  apply chunk_loop_stuck; [done| |done].
  unfold len. destruct text; [done|]. simpl. lia.
Qed.

Lemma chunker_hangs_without_progress_witness :
  chunk_text_by_char 1000 (lit "abcdefghij") 4 5 = None.
Proof.
  apply (chunker_hangs_without_progress (lit "abcdefghij") 4 5 1000);
    [lia|reflexivity|discriminate].
Defined.

(** ** The cleaning passes, continued *)

Lemma re_sub_delete_sublist (p : regex) (s : pystr) : re_sub p [] s `sublist_of` s.
Proof.
  apply (re_sub_ind p [] (fun s o => o `sublist_of` s)).
  - done.
  - intros c t _ IH. by apply sublist_skip.
  - intros c t n _ IH. apply sublist_cons. cbn [app].
    etrans; [exact IH|apply sublist_drop].
Qed.

Lemma blank_lines_sublist (s : pystr) : re_sub BLANK_LINES [LF] s `sublist_of` s.
Proof.
  apply (re_sub_ind BLANK_LINES [LF] (fun s o => o `sublist_of` s)).
  - done.
  - intros c t _ IH. by apply sublist_skip.
  - intros c t n Hm IH.
    assert (Ht : matches_at BLANK_LINES (c :: t) = true)
      by (unfold matches_at; by rewrite Hm).
    rewrite blank_lines_told in Ht. apply andb_true_iff in Ht as [Hc _].
    unfold is_char in Hc. apply N.eqb_eq in Hc as ->. cbn [app].
    apply sublist_skip. etrans; [exact IH|apply sublist_drop].
Qed.

Lemma strip_sublist (s : pystr) : strip s `sublist_of` s.
Proof.
  unfold strip.
  destruct (lstrip_suffix s) as (u & Hu).
  destruct (rstrip_prefix (lstrip s)) as (v & Hv).
  rewrite Hu at 2. apply sublist_inserts_l.
  rewrite Hv at 2. by apply sublist_inserts_r.
Qed.

Lemma clean_text_sublist (text : pystr) : clean_text text `sublist_of` text.
Proof.
  unfold clean_text.
  etrans; [apply strip_sublist|].
  etrans; [apply blank_lines_sublist|].
  etrans; [apply re_sub_delete_sublist|].
  etrans; [apply re_sub_delete_sublist|].
  apply re_sub_delete_sublist.
Qed.

(** X5. Cleaning only deletes: the cleaned text is what is left of the
    text after some of its characters are removed, the others staying in
    their order; so it is never longer than the text, and it has no
    character that the text has not. *)
Theorem clean_text_only_deletes (text : pystr) :
  clean_text text `sublist_of` text
  /\ (length (clean_text text) <= length text)%nat
  /\ (forall c, c ∈ clean_text text -> c ∈ text).
Proof.
  pose proof (clean_text_sublist text) as H. split; [done|]. split.
  - by apply sublist_length.
  - intros c Hc. by eapply elem_of_sublist.
Qed.

(** X6. In a cleaned text none of the table-row, header and blank-line
    patterns matches anywhere, and there is no white space at either
    end. *)
Theorem cleaned_text_shape (text : pystr) :
  has_match TABLE_ROW (clean_text text) = false
  /\ has_match HEADER (clean_text text) = false
  /\ has_match BLANK_LINES (clean_text text) = false
  /\ strip (clean_text text) = clean_text text.
Proof.
  split; [apply clean_text_no_table_row|].
  split; [apply clean_text_no_header|].
  split; [apply clean_text_no_blank_lines|].
  apply strip_idempotent.
Qed.

Lemma strip_head (s : pystr) :
  match strip s with [] => True | c :: _ => is_space c = false end.
Proof.
  unfold strip. pose proof (lstrip_rstrip_fixed (lstrip s) (lstrip_head s)) as H.
  rewrite <- H. apply lstrip_head.
Qed.

(** X7. A cleaned text is never made of white space only: the
    [isspace()] half of the test of line 142 is never true, and the
    extraction error is raised exactly for the empty cleaned text. *)
Theorem cleaned_text_not_blank (text : pystr) :
  isspace (clean_text text) = false
  /\ (bool_decide (clean_text text = []) || isspace (clean_text text)
      = bool_decide (clean_text text = [])).
Proof.
  assert (H : isspace (clean_text text) = false).
  { unfold clean_text. cbv zeta.
    pose proof (strip_head (re_sub BLANK_LINES [LF]
                  (re_sub HEADER [] (re_sub CITATION [] (re_sub TABLE_ROW [] text)))))
      as Hh.
    destruct (strip _) as [|c s]; [done|]. cbn. by rewrite Hh. }
  split; [done|]. by rewrite H, orb_false_r.
Qed.

(** ** The temporary file *)

Section Files.

Local Abbreviation keeps := (respects (fun st st' => files st' = files st)).

Lemma keeps_trans (st1 st2 st3 : State) :
  files st2 = files st1 -> files st3 = files st2 -> files st3 = files st1.
Proof. congruence. Qed.

Lemma keeps_call {A} ev (r : result A) : keeps (call ev r).
Proof. intros st. unfold call. by destruct r. Qed.

Lemma keeps_create_collection name : keeps (create_collection name).
Proof.
  intros st. unfold create_collection. cbn [collections record_event].
  by destruct (collections st !! name).
Qed.

Lemma keeps_delete_collection name : keeps (delete_collection name).
Proof.
  intros st. unfold delete_collection. cbn [collections record_event].
  by destruct (collections st !! name).
Qed.

Lemma keeps_collection_add C name embeddings documents ids :
  keeps (collection_add C name embeddings documents ids).
Proof.
  intros st. unfold collection_add. cbn [collections record_event].
  destruct (collections st !! name); [|done].
  destruct (negb _); [done|]. by destruct (add_rejects C ids documents embeddings).
Qed.

Lemma keeps_convert C path : keeps (convert_pdf_to_markdown C path).
Proof.
  intros st. unfold convert_pdf_to_markdown.
  destruct (files st !! path); [apply keeps_call|done].
Qed.

Lemma keeps_chunks_of text chunk_size overlap : keeps (chunks_of text chunk_size overlap).
Proof. intros st. unfold chunks_of. by destruct (chunk_text_by_char _ _ _ _). Qed.

Lemma keeps_parse_summary C output : keeps (parse_summary C output).
Proof. intros st. by rewrite parse_summary_state. Qed.

Lemma keeps_map_phase C prompts chunks acc : keeps (map_phase C prompts chunks acc).
Proof.
  revert acc. induction chunks as [|chunk chunks IH]; intros acc; simpl.
  - by apply respects_ret.
  - apply respects_bind; [apply keeps_trans|apply keeps_call|intros ?; apply IH].
Qed.

(** The body touches no file: the temporary file was written before. *)
Lemma summarize_body_files C filename language document_id tmp st :
  files (snd (summarize_body C filename language document_id tmp st)) = files st.
Proof.
  unfold summarize_body.
  match goal with |- files (snd (?m ?s)) = _ => assert (H : keeps m); [|apply (H s)] end.
  apply respects_bind; [apply keeps_trans|apply keeps_convert|intros markdown].
  cbv zeta. destruct (_ || _); [by apply respects_raise|].
  apply respects_bind; [apply keeps_trans|apply keeps_chunks_of|intros ?].
  apply respects_bind; [apply keeps_trans| |intros ?].
  { destruct (PROMPT_TEMPLATES language); [by apply respects_ret|by apply respects_raise]. }
  apply respects_bind; [apply keeps_trans|apply keeps_map_phase|intros ?].
  apply respects_bind; [apply keeps_trans|apply keeps_call|intros ?].
  apply respects_bind; [apply keeps_trans|apply keeps_parse_summary|intros ?].
  apply respects_bind; [apply keeps_trans|apply keeps_chunks_of|intros ?].
  apply respects_bind; [apply keeps_trans|apply keeps_call|intros ?].
  apply respects_bind; [apply keeps_trans|apply keeps_create_collection|intros ?].
  apply respects_bind; [apply keeps_trans|apply keeps_collection_add|intros ?].
  by apply respects_ret.
Qed.

End Files.

(** ** The request around the body *)

Lemma endswith_spec (s suffix : pystr) :
  endswith s suffix = true <-> exists prefix, s = prefix ++ suffix.
Proof.
  unfold endswith. rewrite bool_decide_eq_true. split.
  - intros H. exists (take (length s - length suffix) s).
    rewrite <- (take_drop (length s - length suffix) s) at 1. by rewrite H.
  - intros [prefix ->]. rewrite length_app.
    replace (length prefix + length suffix - length suffix)%nat with (length prefix) by lia.
    by rewrite drop_app_length.
Qed.

Lemma entries_of_fields ids documents embeddings :
  length embeddings = length ids -> length documents = length ids ->
  List.map entry_id (entries_of ids documents embeddings) = ids
  /\ List.map entry_document (entries_of ids documents embeddings) = documents
  /\ List.map entry_embedding (entries_of ids documents embeddings) = embeddings.
Proof.
  revert documents embeddings.
  induction ids as [|i ids IH]; intros [|d documents] [|e embeddings]; simpl; try done.
  intros [= H1] [= H2]. destruct (IH documents embeddings H1 H2) as (-> & -> & ->).
  done.
Qed.

(** X8. A request that returns has stored the document: no collection
    had the document id before; afterwards the collection of that id
    holds, in order, the 1000/150 chunks of the cleaned text of the
    upload, under the ids [chunk_0], [chunk_1], ..., each with the
    embedding that the model returned for it. Every other collection is
    as before, and the response carries the id and the file name. *)
Theorem ingestion_stores_chunks (C : Collaborators) (filename : pystr)
    (content : list N) (language : pystr) (uuid : N) (tmp : pystr)
    (st st' : State) (response : SummarizeResponse) :
  summarize_pdf C filename content language uuid tmp st = (Ok response, st') ->
  exists markdown entries,
    let qa_chunks := windows (clean_text markdown) 1000 150 in
    convert C content = Returns markdown /\
    response_document_id response = uuid_str uuid /\
    response_filename response = filename /\
    collections st !! uuid_str uuid = None /\
    collections st' !! uuid_str uuid = Some entries /\
    List.map entry_document entries = qa_chunks /\
    List.map entry_id entries = chunk_ids (chunk_number (clean_text markdown) 1000 150) /\
    embed_documents C qa_chunks = Returns (List.map entry_embedding entries) /\
    (forall name, name <> uuid_str uuid ->
       collections st' !! name = collections st !! name).
Proof.
  intros Hrun.
  apply summarize_pdf_Ok in Hrun
    as (markdown & summaries & output & items & embeddings & Hs & _ & _ & -> & Hc & _).
  cbv zeta in Hc.
  destruct Hs as (_ & Hconv & _ & _ & _ & Hemb & Hlen & Hnew & _).
  rewrite windows_length in Hlen.
  destruct (entries_of_fields
              (chunk_ids (length (windows (clean_text markdown) 1000 150)))
              (windows (clean_text markdown) 1000 150) embeddings)
    as (Hids & Hdocs & Hembs).
  { by rewrite length_chunk_ids, windows_length. }
  { by rewrite length_chunk_ids. }
  eexists markdown, _. cbv zeta. rewrite Hc.
  split; [done|]. split; [done|]. split; [done|]. split; [done|].
  split; [apply lookup_insert_eq|].
  split; [exact Hdocs|].
  split; [by rewrite Hids, windows_length|].
  split; [by rewrite Hembs|].
  intros name Hname. by rewrite lookup_insert_ne.
Qed.

Lemma ingestion_stores_chunks_witness :
  exists markdown entries,
    convert (sample NoFault) [37; 80; 68; 70]%N = Returns markdown /\
    collections (after_ingestion 0) !! uuid_str SAMPLE_UUID = Some entries /\
    List.map entry_document entries = windows (clean_text markdown) 1000 150.
Proof.
  destruct (ingestion_stores_chunks (sample NoFault) (lit "paper.pdf")
              [37; 80; 68; 70]%N (lit "en") SAMPLE_UUID (lit "/tmp/tmpa1b2c3.pdf")
              (main_only 0) (after_ingestion 0)
              {| response_filename := lit "paper.pdf";
                 structured_summary :=
                   summary_of_items [ (lit "research_objective", PStr (lit "Study nets"));
                                      (lit "methods", PStr []) ];
                 response_document_id := uuid_str SAMPLE_UUID |})
    as (markdown & entries & H).
  - vm_compute. reflexivity.
  - exists markdown, entries. cbv zeta in H.
    destruct H as (H1 & _ & _ & _ & H2 & H3 & _).
    split; [exact H1|]. split; [exact H2|exact H3].
Defined.

(** X9. The calls of a request that returns, in order: the conversion of
    the temporary file; one call to the language model per 3000/200 chunk
    of the cleaned text, in the order of the chunks, each with the map
    prompt, 512 tokens and temperature 0.2; one call with the reduce
    prompt over the answers joined by blank lines, 1024 tokens,
    temperature 0.1, in JSON mode; one embedding call for all 1000/150
    chunks; the creation of the collection and one [add]. So the model is
    called one time more than there are 3000/200 chunks, and nothing is
    deleted. *)
Theorem ingestion_calls (C : Collaborators) (filename : pystr)
    (content : list N) (language : pystr) (uuid : N) (tmp : pystr)
    (st st' : State) (response : SummarizeResponse) :
  summarize_pdf C filename content language uuid tmp st = (Ok response, st') ->
  exists markdown summaries,
    let cleaned := clean_text markdown in
    let prompts := prompts_of language in
    convert C content = Returns markdown /\
    Forall2 (fun chunk summary =>
               create_chat_completion C
                 (messages (map_system prompts) (map_user prompts chunk))
                 512 0.2%float false = Returns summary)
      (windows cleaned 3000 200) summaries /\
    new_events st st' =
      [EConvert tmp] ++ List.map (map_call prompts) (windows cleaned 3000 200)
      ++ [ reduce_call prompts (join [LF; LF] summaries);
           EEmbedDocuments (windows cleaned 1000 150);
           ECreateCollection (uuid_str uuid);
           EAdd (uuid_str uuid) (chunk_ids (chunk_number cleaned 1000 150)) ] /\
    length (llm_calls (new_events st st')) = S (chunk_number cleaned 3000 200).
Proof.
  intros Hrun.
  apply summarize_pdf_Ok in Hrun
    as (markdown & summaries & output & items & embeddings & Hs & _ & _ & _ & _ & Ht).
  cbv zeta in Ht.
  destruct Hs as (_ & Hconv & _ & Hall & _).
  exists markdown, summaries. cbv zeta.
  assert (Hev : new_events st st' =
      [EConvert tmp]
      ++ List.map (map_call (prompts_of language)) (windows (clean_text markdown) 3000 200)
      ++ [ reduce_call (prompts_of language) (join [LF; LF] summaries);
           EEmbedDocuments (windows (clean_text markdown) 1000 150);
           ECreateCollection (uuid_str uuid);
           EAdd (uuid_str uuid) (chunk_ids (chunk_number (clean_text markdown) 1000 150)) ]).
  { unfold new_events. rewrite Ht, drop_app_length.
    by rewrite windows_length. }
  repeat split; try done.
  rewrite Hev, !llm_calls_app. cbn [llm_calls List.filter is_chat reduce_call app length].
  rewrite length_app. cbn [length].
  assert (Hmap : forall chunks,
             llm_calls (List.map (map_call (prompts_of language)) chunks)
             = List.map (map_call (prompts_of language)) chunks).
  { induction chunks as [|c chunks IH]; [done|].
    cbn [List.map]. unfold llm_calls in *. cbn [List.filter map_call is_chat].
    by rewrite IH. }
  rewrite Hmap, length_map, windows_length. lia.
Qed.

Lemma ingestion_calls_witness :
  length (llm_calls (new_events (main_only 0) (after_ingestion 0))) = 2%nat.
Proof.
  destruct (ingestion_calls (sample NoFault) (lit "paper.pdf")
              [37; 80; 68; 70]%N (lit "en") SAMPLE_UUID (lit "/tmp/tmpa1b2c3.pdf")
              (main_only 0) (after_ingestion 0)
              {| response_filename := lit "paper.pdf";
                 structured_summary :=
                   summary_of_items [ (lit "research_objective", PStr (lit "Study nets"));
                                      (lit "methods", PStr []) ];
                 response_document_id := uuid_str SAMPLE_UUID |})
    as (markdown & summaries & Hconv & _ & _ & Hn).
  - vm_compute. reflexivity.
  - injection Hconv as <-. exact Hn.
Defined.

(** X10. The temporary file of an upload. Once the upload has been
    written and [tmp_pdf_path] is bound, the file does not outlive the
    request: whether the request returns or fails, and wherever it fails
    after that (closing the file included), the file is gone afterwards.
    When the write itself raises, [tmp_pdf_path] is still [None] at the
    [finally], nothing is removed, and the file stays behind with what was
    written. When the file could not be created, there is nothing to
    remove. Every other file is what it was. ([tmp], the name of the
    temporary file, is not empty.) *)
Theorem temp_file_removed_once_written (C : Collaborators) (filename : pystr)
    (content : list N) (language : pystr) (uuid : N) (tmp : pystr) (st : State) :
  endswith filename (lit ".pdf") = true ->
  tmp <> [] ->
  let st' := snd (summarize_pdf C filename content language uuid tmp st) in
  match upload C content with
  | Saved | CloseFails _ => files st' !! tmp = None
  | WriteFails _ written => files st' !! tmp = Some (take written content)
  | CreateFails _ => files st' !! tmp = files st !! tmp
  end
  /\ (forall path, path <> tmp -> files st' !! path = files st !! path).
Proof.
  intros Hpdf Htmp st'.
  assert (H : files st' = match upload C content with
                          | Saved | CloseFails _ => delete tmp (files st)
                          | WriteFails _ written => <[tmp := take written content]> (files st)
                          | CreateFails _ => files st
                          end).
  { subst st'.
    pose proof (summarize_pdf_by_body C filename content language uuid tmp st Hpdf) as H.
    cbv zeta beta in H.
    assert (Hdel : forall st1,
              files st1 = <[tmp := content]> (files st) ->
              files (snd (remove_if_exists (Some tmp) st1)) = delete tmp (files st)).
    { intros st1 H1. destruct tmp as [|c tmp]; [done|].
      cbn [remove_if_exists snd files set_files].
      by rewrite H1, delete_insert_eq. }
    destruct (upload C content) as [|cause|cause written|cause];
      [|by destruct H as (_ & _ & _ & ->)..|].
    - pose proof (summarize_body_files C filename (normalize_lang language)
                    (uuid_str uuid) tmp (set_files (insert tmp content) st)) as Hf.
      destruct (summarize_body _ _ _ _ _ _) as [[r|cause|] st1]; [| |done];
        cbn [snd files set_files] in Hf; destruct H as (_ & _ & _ & ->);
        by apply Hdel.
    - destruct H as (_ & _ & _ & ->). by apply Hdel. }
  rewrite H. split.
  - destruct (upload C content);
      [apply lookup_delete_eq|done|apply lookup_insert_eq|apply lookup_delete_eq].
  - intros path Hpath. destruct (upload C content);
      [by rewrite lookup_delete_ne|done|by rewrite lookup_insert_ne
      |by rewrite lookup_delete_ne].
Qed.

(** The model fails after the upload was written: the file is gone. The
    disk is full: the file stays, with the two bytes that were written. *)
Lemma temp_file_removed_once_written_witness :
  files (snd (summarize_pdf (sample ModelFails) (lit "paper.pdf") [37; 80; 68; 70]%N
                (lit "en") SAMPLE_UUID (lit "/tmp/tmpa1b2c3.pdf") (main_only 0)))
    !! lit "/tmp/tmpa1b2c3.pdf" = None
  /\ files (snd (summarize_pdf sample_disk_full (lit "paper.pdf") [37; 80; 68; 70]%N
                   (lit "en") SAMPLE_UUID (lit "/tmp/tmpa1b2c3.pdf") (main_only 0)))
       !! lit "/tmp/tmpa1b2c3.pdf" = Some [37; 80]%N.
Proof.
  split.
  - destruct (temp_file_removed_once_written (sample ModelFails) (lit "paper.pdf")
                [37; 80; 68; 70]%N (lit "en") SAMPLE_UUID (lit "/tmp/tmpa1b2c3.pdf")
                (main_only 0)) as [H _]; [reflexivity|discriminate|exact H].
  - destruct (temp_file_removed_once_written sample_disk_full (lit "paper.pdf")
                [37; 80; 68; 70]%N (lit "en") SAMPLE_UUID (lit "/tmp/tmpa1b2c3.pdf")
                (main_only 0)) as [H _]; [reflexivity|discriminate|exact H].
Defined.

(** X11. An upload whose text is empty after cleaning (a scanned page, a
    document of tables and headers only) fails before the language model
    is called: the only calls are the conversion and the deletion of the
    collection that was never created, the collections are as before, and
    the answer is HTTP 500 whose detail wraps the inner 500. (When the
    upload cannot even be saved, the conversion is not reached either:
    the only call is the deletion, and the 500 carries the error of the
    upload.) *)
Theorem empty_extraction_fails (C : Collaborators) (filename : pystr)
    (content : list N) (language : pystr) (uuid : N) (tmp : pystr) (st : State)
    (markdown : pystr) :
  endswith filename (lit ".pdf") = true ->
  convert C content = Returns markdown ->
  clean_text markdown = [] ->
  let run := summarize_pdf C filename content language uuid tmp st in
  match upload C content with
  | Saved =>
      fst run = Raise (HTTPException 500
                         (lit "Internal server error: 500: Failed to extract meaningful text from PDF."))
      /\ new_events st (snd run) = [EConvert tmp; EDeleteCollection (uuid_str uuid)]
  | CreateFails e | WriteFails e _ | CloseFails e =>
      fst run = Raise (HTTPException 500 (lit "Internal server error: " ++ str_exn e))
      /\ new_events st (snd run) = [EDeleteCollection (uuid_str uuid)]
  end
  /\ (collections st !! uuid_str uuid = None -> collections (snd run) = collections st).
Proof.
  intros Hpdf Hconv Hclean run. subst run.
  pose proof (summarize_pdf_by_body C filename content language uuid tmp st Hpdf) as H.
  cbv zeta beta in H.
  destruct (upload C content) as [|e|e written|e];
    [|destruct H as (Hf & Hc & Ht & _); cbn [collections trace set_files] in Hc, Ht;
      (split; [split; [exact Hf|unfold new_events; by rewrite Ht, drop_app_length]
              |intros Hnew; rewrite Hc; by apply delete_id])..].
  set (st0 := set_files (insert tmp content) st) in *.
  assert (Hbody : summarize_body C filename (normalize_lang language) (uuid_str uuid) tmp st0
                  = (Raise (HTTPException 500 (lit "Failed to extract meaningful text from PDF.")),
                     record_event (EConvert tmp) st0)).
  { unfold summarize_body, bind at 1, convert_pdf_to_markdown.
    assert (Hfile : files st0 !! tmp = Some content) by apply lookup_insert_eq.
    rewrite Hfile. unfold call. rewrite Hconv.
    cbv zeta. rewrite Hclean. reflexivity. }
  rewrite Hbody in H. destruct H as (-> & Hc & Ht & _).
  cbn [collections trace record_event set_files st0] in Hc, Ht.
  split; [split; [reflexivity|]|].
  - unfold new_events. rewrite Ht, <- app_assoc, drop_app_length. reflexivity.
  - intros Hnew. rewrite Hc. by apply delete_id.
Qed.

Lemma empty_extraction_fails_witness :
  new_events (main_only 0)
    (snd (summarize_pdf sample_scan (lit "scan.pdf") [37; 80; 68; 70]%N (lit "en")
            SAMPLE_UUID (lit "/tmp/tmpa1b2c3.pdf") (main_only 0)))
  = [EConvert (lit "/tmp/tmpa1b2c3.pdf"); EDeleteCollection (uuid_str SAMPLE_UUID)].
Proof.
  destruct (empty_extraction_fails sample_scan (lit "scan.pdf") [37; 80; 68; 70]%N
              (lit "en") SAMPLE_UUID (lit "/tmp/tmpa1b2c3.pdf") (main_only 0)
              (lit "| a | b |" ++ [LF] ++ lit "| 1 | 2 |"))
    as ((_ & H) & _); [reflexivity..|exact H].
Defined.

(** X12. The rollback deletes by name: when the store already has a
    collection under the id drawn for a request, the request cannot
    return (the creation is refused at the latest), and its rollback
    deletes that earlier collection. *)
Theorem id_clash_loses_collection (C : Collaborators) (filename : pystr)
    (content : list N) (language : pystr) (uuid : N) (tmp : pystr) (st : State)
    (entries : list Entry) :
  endswith filename (lit ".pdf") = true ->
  collections st !! uuid_str uuid = Some entries ->
  let run := summarize_pdf C filename content language uuid tmp st in
  (exists cause,
     fst run = Raise (HTTPException 500 (lit "Internal server error: " ++ str_exn cause)))
  /\ collections (snd run) !! uuid_str uuid = None.
Proof.
  intros Hpdf Hold run. subst run.
  pose proof (summarize_pdf_by_body C filename content language uuid tmp st Hpdf) as H.
  cbv zeta beta in H.
  destruct (upload C content) as [|cause|cause written|cause];
    [|destruct H as (-> & -> & _); split; [by exists cause|apply lookup_delete_eq]..].
  destruct (summarize_body _ _ _ _ _ _) as [[r|cause|] st1] eqn:Hbody; [| |done].
  - apply (summarize_body_Ok C filename content) in Hbody
      as (markdown & summaries & output & items & embeddings & Hbody);
      [|apply lookup_insert_eq].
    cbv zeta in Hbody. cbn [collections set_files] in Hbody.
    destruct Hbody as (_ & _ & _ & _ & _ & _ & _ & _ & Hnew & _). congruence.
  - destruct H as (-> & -> & _). split; [by exists cause|apply lookup_delete_eq].
Qed.

Lemma id_clash_loses_collection_witness :
  collections
    (snd (summarize_pdf (sample NoFault) (lit "again.pdf") [37; 80; 68; 70]%N
            (lit "en") SAMPLE_UUID (lit "/tmp/tmpd4e5f6.pdf") (after_ingestion 0)))
    !! uuid_str SAMPLE_UUID = None.
Proof.
  destruct (id_clash_loses_collection (sample NoFault) (lit "again.pdf")
              [37; 80; 68; 70]%N (lit "en") SAMPLE_UUID (lit "/tmp/tmpd4e5f6.pdf")
              (after_ingestion 0)
              [ {| entry_id := lit "chunk_0";
                   entry_document := lit "Deep nets  work.";
                   entry_embedding := [0.25%float] |} ])
    as (_ & H); [reflexivity|vm_compute; reflexivity|exact H].
Defined.

(** X13. The name check is a case-sensitive test of the suffix: a request
    is answered with the 400 of the check exactly when its file name is
    not some prefix followed by [.pdf]; an upper-case [.PDF] is refused,
    the bare name [.pdf] is accepted. *)
Theorem name_check_is_suffix_test (C : Collaborators) (filename : pystr)
    (content : list N) (language : pystr) (uuid : N) (tmp : pystr) (st : State) :
  fst (summarize_pdf C filename content language uuid tmp st)
    = Raise (HTTPException 400 (lit "Invalid file type. Please upload a PDF."))
  <-> ~ exists prefix, filename = prefix ++ lit ".pdf".
Proof.
  rewrite <- endswith_spec. split.
  - intros Hrun Hpdf.
    pose proof (summarize_pdf_by_body C filename content language uuid tmp st Hpdf) as H.
    cbv zeta beta in H. rewrite Hrun in H.
    destruct (upload C content) as [|cause|cause written|cause];
      [|by destruct H as [? _]..].
    destruct (summarize_body _ _ _ _ _ _) as [[r|cause|] st1]; [| |done];
      by destruct H as [? _].
  - intros Hpdf. apply not_true_is_false in Hpdf.
    unfold summarize_pdf. rewrite Hpdf. reflexivity.
Qed.

(** X14. What the parse of the model's output gives, and that it leaves
    the state alone. It returns a summary exactly for a JSON object. A
    [ValueError] of the parser is answered with the 500 of the parse;
    any other error of the parser passes through; and JSON that is valid
    but not an object (a list, a string, a number, [null]) is not a
    parse failure: it surfaces as the missing attribute [get]. *)
Theorem parse_summary_cases (C : Collaborators) (output : pystr) (st : State) :
  parse_summary C output st =
    (match json_loads C output with
     | Returns (PDict items) => Ok (summary_of_items items)
     | Returns other =>
         Raise (OtherError (lit "'" ++ type_name other
                            ++ lit "' object has no attribute 'get'"))
     | Throws (ValueError _) =>
         Raise (HTTPException 500 (lit "Failed to parse summary from LLM."))
     | Throws e => Raise e
     end, st)
  /\ ((exists summary, fst (parse_summary C output st) = Ok summary)
      <-> exists items, json_loads C output = Returns (PDict items)).
Proof.
  assert (H : parse_summary C output st =
    (match json_loads C output with
     | Returns (PDict items) => Ok (summary_of_items items)
     | Returns other =>
         Raise (OtherError (lit "'" ++ type_name other
                            ++ lit "' object has no attribute 'get'"))
     | Throws (ValueError _) =>
         Raise (HTTPException 500 (lit "Failed to parse summary from LLM."))
     | Throws e => Raise e
     end, st)).
  { unfold parse_summary, try_except, bind, lift.
    destruct (json_loads C output) as [v|e]; [|by destruct e].
    destruct v; try done.
    cbn. unfold summary_of_items. cbn [List.map SUMMARY_KEYS fst snd].
    by rewrite !dict_get_lookup_key. }
  split; [exact H|]. rewrite H. cbn [fst]. split.
  - intros [summary Hs]. destruct (json_loads C output) as [v|e].
    + destruct v; try done. by eexists.
    + by destruct e.
  - intros [items ->]. by eexists.
Qed.

(** ** More on [POST /qa] *)

Lemma question_answering_embed_fails C request st cause :
  embed_query C (question request) = Throws cause ->
  question_answering C request st =
    (Raise (HTTPException 500 (lit "Internal server error: " ++ str_exn cause)),
     record_event (EEmbedQuery (question request)) st).
Proof.
  intros H. unfold question_answering, try_except, bind, call. by rewrite H.
Qed.

Lemma generated_Raise_inv C request context e :
  generated C request context = Raise e ->
  exists cause,
    e = HTTPException 500 (lit "Internal server error: " ++ str_exn cause) /\
    create_chat_completion C
      (messages (qa_system (default PROMPTS_EN (PROMPT_TEMPLATES (lang request))))
         (qa_user (default PROMPTS_EN (PROMPT_TEMPLATES (lang request))) context
            (question request)))
      512 0.3%float false = Throws cause.
Proof.
  unfold generated. destruct (create_chat_completion _ _ _ _ _) as [a|cause]; [done|].
  intros [= <-]. by exists cause.
Qed.

(** X15. A question fails only when a model fails: the error of a failed
    request is HTTP 500 whose detail carries the error of the embedding
    model or of the call that generates the answer. An error of the store
    (a missing collection, a failed query, an empty answer) never fails a
    question, and no question runs for ever. *)
Theorem question_fails_only_with_a_model (C : Collaborators) (request : QARequest)
    (st : State) (e : exn) :
  fst (question_answering C request st) = Raise e ->
  exists cause,
    e = HTTPException 500 (lit "Internal server error: " ++ str_exn cause) /\
    (embed_query C (question request) = Throws cause
     \/ exists context,
          create_chat_completion C
            (messages (qa_system (default PROMPTS_EN (PROMPT_TEMPLATES (lang request))))
               (qa_user (default PROMPTS_EN (PROMPT_TEMPLATES (lang request))) context
                  (question request)))
            512 0.3%float false = Throws cause).
Proof.
  intros Hrun. destruct (embed_query C (question request)) as [q|cause] eqn:Hq.
  - destruct (question_answering_spec C request st q Hq) as (st' & Hqa & _).
    rewrite Hqa in Hrun. cbn [fst] in Hrun.
    destruct (tier1_context C st request q) as [context|].
    + apply generated_Raise_inv in Hrun as (cause & -> & Hc).
      exists cause. split; [done|]. right. by exists context.
    + destruct (main_context C st q) as [context|]; [|done].
      apply generated_Raise_inv in Hrun as (cause & -> & Hc).
      exists cause. split; [done|]. right. by exists context.
  - rewrite (question_answering_embed_fails C request st cause Hq) in Hrun.
    injection Hrun as <-. exists cause. split; [done|]. by left.
Qed.

Lemma question_fails_only_with_a_model_witness :
  exists cause,
    HTTPException 500 (lit "Internal server error: model failed")
    = HTTPException 500 (lit "Internal server error: " ++ str_exn cause).
Proof.
  destruct (question_fails_only_with_a_model (sample ModelFails)
              {| document_id := None; question := lit "What is AI?"; lang := lit "en" |}
              (main_only 0.5)
              (HTTPException 500 (lit "Internal server error: model failed")))
    as (cause & H & _).
  - vm_compute. reflexivity.
  - exists cause. exact H.
Defined.



(** X17. The calls of a question: one embedding of the question, first;
    then at most four reads of the store ([get_collection] and [query]);
    then at most one call to the language model, last. Nothing is written:
    collections and files are as before. *)
Theorem question_calls (C : Collaborators) (request : QARequest) (st : State) :
  let st' := snd (question_answering C request st) in
  exists reads generation,
    new_events st st' = [EEmbedQuery (question request)] ++ reads ++ generation /\
    Forall (fun ev => is_store_read ev = true) reads /\
    (length reads <= 4)%nat /\
    (generation = [] \/ exists context, generation = [qa_call request context]) /\
    collections st' = collections st /\ files st' = files st.
Proof.
  intros st'. subst st'.
  assert (Hs1 : Forall (fun ev => is_store_read ev = true) (step1_events st request)
                /\ (length (step1_events st request) <= 2)%nat).
  { unfold step1_events. destruct (document_id request) as [[|c name]|];
      [split; [constructor|simpl; lia]| |split; [constructor|simpl; lia]].
    destruct (collections st !! (c :: name)); split; repeat constructor. }
  assert (Hs2 : Forall (fun ev => is_store_read ev = true) (step2_events st)
                /\ (length (step2_events st) <= 2)%nat).
  { unfold step2_events. destruct (collections st !! MAIN_COLLECTION);
      split; repeat constructor. }
  destruct Hs1 as [Hr1 Hl1], Hs2 as [Hr2 Hl2].
  destruct (embed_query C (question request)) as [q|cause] eqn:Hq.
  - destruct (question_answering_spec C request st q Hq) as (st1 & -> & Hext).
    cbn [snd]. pose proof Hext as (Hc & Hf & _).
    rewrite (extends_new_events _ _ _ Hext).
    destruct (tier1_context C st request q) as [context|].
    + exists (step1_events st request), [qa_call request context].
      split; [done|]. split; [done|]. split; [lia|].
      split; [right; by exists context|done].
    + destruct (main_context C st q) as [context|].
      * exists (step1_events st request ++ step2_events st), [qa_call request context].
        rewrite <- !app_assoc. split; [done|]. split; [by apply Forall_app|].
        split; [rewrite length_app; lia|].
        split; [right; by exists context|done].
      * exists (step1_events st request ++ step2_events st), [].
        rewrite <- !app_assoc. split; [done|]. split; [by apply Forall_app|].
        split; [rewrite length_app; lia|].
        split; [by left|done].
  - rewrite (question_answering_embed_fails C request st cause Hq). cbn [snd].
    exists [], []. unfold new_events. cbn [trace record_event].
    rewrite drop_app_length. split; [done|]. split; [constructor|].
    split; [simpl; lia|]. split; [by left|done].
Qed.

(** ** Start-up *)

(** The start-up, by the state of the main collection and by what the
    seeding does. *)
Lemma lifespan_store_cases C default_embedding st :
  exists st',
    lifespan_store C default_embedding st = (Ok tt, st') /\
    files st' = files st /\
    match collections st !! MAIN_COLLECTION with
    | Some (entry :: entries) => st' = st
    | _ =>
        match default_embedding [DUMMY_DOCUMENT] with
        | Returns [e] =>
            match add_rejects C [DUMMY_ID] [DUMMY_DOCUMENT] [e] with
            | None =>
                collections st'
                = <[MAIN_COLLECTION := [ {| entry_id := DUMMY_ID;
                                            entry_document := DUMMY_DOCUMENT;
                                            entry_embedding := e |} ]]> (collections st)
            | Some _ => collections st' = <[MAIN_COLLECTION := []]> (collections st)
            end
        | _ => collections st' = <[MAIN_COLLECTION := []]> (collections st)
        end
    end.
Proof.
  unfold lifespan_store, try_except, bind, get_or_create_collection, collection_count,
    lift, collection_add, ret.
  destruct (collections st !! MAIN_COLLECTION) as [[|entry entries]|] eqn:Hmain.
  - (* the collection is there and empty *)
    rewrite Hmain. cbn [length]. change (Z.of_nat 0 =? 0) with true. cbv iota beta.
    destruct (default_embedding [DUMMY_DOCUMENT]) as [embeddings|err];
      [|eexists; split; [reflexivity|]; by rewrite insert_id].
    cbn [collections record_event]. rewrite Hmain.
    destruct embeddings as [|e [|e' embeddings]];
      [eexists; split; [reflexivity|]; by rewrite insert_id|
      |eexists; split; [reflexivity|]; by rewrite insert_id].
    cbn [length andb negb]. rewrite !bool_decide_eq_true_2 by done. cbn [andb negb].
    destruct (add_rejects C [DUMMY_ID] [DUMMY_DOCUMENT] [e]);
      [eexists; split; [reflexivity|]; by rewrite insert_id|].
    cbn [collections record_event set_collections].
    rewrite lookup_insert_eq. eexists; split; [reflexivity|].
    cbn [collections files set_collections record_event app entries_of]. done.
  - (* the collection is there and has entries *)
    rewrite Hmain. cbn [length]. rewrite (proj2 (Z.eqb_neq _ 0)) by lia.
    rewrite Hmain. eexists; split; [reflexivity|]. done.
  - (* the collection is created *)
    cbn [collections set_collections].
    rewrite lookup_insert_eq. cbn [length]. change (Z.of_nat 0 =? 0) with true. cbv iota beta.
    destruct (default_embedding [DUMMY_DOCUMENT]) as [embeddings|err];
      [|eexists; split; [reflexivity|]; done].
    cbn [collections record_event set_collections].
    rewrite lookup_insert_eq.
    destruct embeddings as [|e [|e' embeddings]];
      [eexists; split; [reflexivity|]; done| |eexists; split; [reflexivity|]; done].
    cbn [length]. rewrite !bool_decide_eq_true_2 by done. cbn [andb negb].
    destruct (add_rejects C [DUMMY_ID] [DUMMY_DOCUMENT] [e]);
      [eexists; split; [reflexivity|]; done|].
    cbn [collections record_event set_collections].
    rewrite lookup_insert_eq. eexists; split; [reflexivity|].
    cbn [collections files set_collections record_event app entries_of].
    by rewrite insert_insert_eq.
Qed.

(** X18. The start-up never fails and leaves a main collection behind:
    whatever the store, the embedding function or the validation do, it
    returns, the main collection exists afterwards, every other collection
    and every file is what it was, and the entries that the main
    collection had are still its first entries. *)
Theorem startup_leaves_main_collection (C : Collaborators)
    (default_embedding : list pystr -> result (list (list float))) (st : State) :
  let st' := snd (lifespan_store C default_embedding st) in
  fst (lifespan_store C default_embedding st) = Ok tt
  /\ (exists entries,
        collections st' !! MAIN_COLLECTION = Some entries
        /\ default [] (collections st !! MAIN_COLLECTION) `prefix_of` entries)
  /\ (forall name, name <> MAIN_COLLECTION ->
        collections st' !! name = collections st !! name)
  /\ files st' = files st.
Proof.
  destruct (lifespan_store_cases C default_embedding st) as (st' & Hrun & Hf & Hc).
  rewrite Hrun. cbn [fst snd]. split; [done|].
  assert (H : (exists entries,
                 collections st' !! MAIN_COLLECTION = Some entries
                 /\ default [] (collections st !! MAIN_COLLECTION) `prefix_of` entries)
              /\ (forall name, name <> MAIN_COLLECTION ->
                    collections st' !! name = collections st !! name)).
  { assert (Hins : forall entries,
              default [] (collections st !! MAIN_COLLECTION) = [] ->
              collections st' = <[MAIN_COLLECTION := entries]> (collections st) ->
              (exists entries,
                 collections st' !! MAIN_COLLECTION = Some entries
                 /\ default [] (collections st !! MAIN_COLLECTION) `prefix_of` entries)
              /\ (forall name, name <> MAIN_COLLECTION ->
                    collections st' !! name = collections st !! name)).
    { intros entries Hd ->. split.
      - exists entries. rewrite lookup_insert_eq, Hd. split; [done|apply prefix_nil].
      - intros name Hname. by rewrite lookup_insert_ne. }
    destruct (collections st !! MAIN_COLLECTION) as [[|entry entries]|] eqn:Hmain.
    - destruct (default_embedding [DUMMY_DOCUMENT]) as [[|e [|e' es]]|err];
        try (by eapply Hins).
      destruct (add_rejects C [DUMMY_ID] [DUMMY_DOCUMENT] [e]); by eapply Hins.
    - subst st'. rewrite Hmain. split; [|done]. by exists (entry :: entries).
    - destruct (default_embedding [DUMMY_DOCUMENT]) as [[|e [|e' es]]|err];
        try (by eapply Hins).
      destruct (add_rejects C [DUMMY_ID] [DUMMY_DOCUMENT] [e]); by eapply Hins. }
  destruct H as [H1 H2]. done.
Qed.

(** X19. The start-up seeds an empty main collection and only an empty
    one. A main collection that has entries is not touched (the state is
    the one before). A main collection that is missing or empty gets the
    dummy entry, when the store's embedding function returns one vector
    for the dummy document and the store accepts the entry. *)
Theorem startup_seeds_only_when_empty (C : Collaborators)
    (default_embedding : list pystr -> result (list (list float))) (st : State) :
  let st' := snd (lifespan_store C default_embedding st) in
  (forall entry entries,
     collections st !! MAIN_COLLECTION = Some (entry :: entries) -> st' = st)
  /\ (forall e,
        default [] (collections st !! MAIN_COLLECTION) = [] ->
        default_embedding [DUMMY_DOCUMENT] = Returns [e] ->
        add_rejects C [DUMMY_ID] [DUMMY_DOCUMENT] [e] = None ->
        collections st' !! MAIN_COLLECTION
        = Some [ {| entry_id := lit "dummy_entry_1";
                    entry_document :=
                      lit "Artificial intelligence is a branch of computer science.";
                    entry_embedding := e |} ]).
Proof.
  destruct (lifespan_store_cases C default_embedding st) as (st' & Hrun & _ & Hc).
  rewrite Hrun. cbn [snd]. split.
  - intros entry entries Hmain. by rewrite Hmain in Hc.
  - intros e Hd He Hrej. rewrite He, Hrej in Hc.
    destruct (collections st !! MAIN_COLLECTION) as [[|entry entries]|]; [|done|];
      rewrite Hc; apply lookup_insert_eq.
Qed.

Lemma startup_seeds_only_when_empty_witness :
  collections (snd (lifespan_store (sample NoFault) (sample_default_embedding true)
                      empty_store)) !! MAIN_COLLECTION
  = Some [ {| entry_id := lit "dummy_entry_1";
              entry_document :=
                lit "Artificial intelligence is a branch of computer science.";
              entry_embedding := [0.5%float] |} ].
Proof.
  destruct (startup_seeds_only_when_empty (sample NoFault)
              (sample_default_embedding true) empty_store) as [_ H].
  apply H; reflexivity.
Defined.

(** X20. Starting twice is starting once, as far as the collections go:
    a second start-up leaves them as the first did, whether the seeding
    succeeded or failed. And when the seeding fails (the embedding
    function or the store raises), the error is swallowed and the main
    collection is left empty. *)
Theorem startup_idempotent (C : Collaborators)
    (default_embedding : list pystr -> result (list (list float))) (st : State) :
  let st1 := snd (lifespan_store C default_embedding st) in
  let st2 := snd (lifespan_store C default_embedding st1) in
  collections st2 = collections st1
  /\ (forall err,
        default [] (collections st !! MAIN_COLLECTION) = [] ->
        default_embedding [DUMMY_DOCUMENT] = Throws err ->
        collections st1 !! MAIN_COLLECTION = Some []).
Proof.
  destruct (lifespan_store_cases C default_embedding st) as (st1 & Hrun1 & _ & Hc1).
  rewrite Hrun1. cbn [snd].
  destruct (lifespan_store_cases C default_embedding st1) as (st2 & Hrun2 & _ & Hc2).
  rewrite Hrun2. cbn [snd]. split.
  - assert (Hempty : collections st1 = <[MAIN_COLLECTION := []]> (collections st) ->
                     (forall e, default_embedding [DUMMY_DOCUMENT] = Returns [e] ->
                        add_rejects C [DUMMY_ID] [DUMMY_DOCUMENT] [e] <> None) ->
                     collections st2 = collections st1).
    { intros H1 Hfail. rewrite H1 in Hc2. rewrite lookup_insert_eq in Hc2.
      rewrite insert_insert_eq in Hc2. rewrite H1.
      destruct (default_embedding [DUMMY_DOCUMENT]) as [[|e [|e' es]]|err]; try done.
      destruct (add_rejects C [DUMMY_ID] [DUMMY_DOCUMENT] [e]) eqn:Hr; [done|].
      by destruct (Hfail e). }
    assert (Hseeded : forall e,
              collections st1
              = <[MAIN_COLLECTION := [ {| entry_id := DUMMY_ID;
                                          entry_document := DUMMY_DOCUMENT;
                                          entry_embedding := e |} ]]> (collections st) ->
              collections st2 = collections st1).
    { intros e H1. rewrite H1, lookup_insert_eq in Hc2. by rewrite Hc2. }
    destruct (collections st !! MAIN_COLLECTION) as [[|entry entries]|] eqn:Hmain.
    + destruct (default_embedding [DUMMY_DOCUMENT]) as [[|e [|e' es]]|err];
        try (apply Hempty; [done|]; by intros ? [=]).
      destruct (add_rejects C [DUMMY_ID] [DUMMY_DOCUMENT] [e]) eqn:Hr.
      * apply Hempty; [done|]. intros ? [= <-]. by rewrite Hr.
      * by apply (Hseeded e).
    + subst st1. rewrite Hmain in Hc2. by rewrite Hc2.
    + destruct (default_embedding [DUMMY_DOCUMENT]) as [[|e [|e' es]]|err];
        try (apply Hempty; [done|]; by intros ? [=]).
      destruct (add_rejects C [DUMMY_ID] [DUMMY_DOCUMENT] [e]) eqn:Hr.
      * apply Hempty; [done|]. intros ? [= <-]. by rewrite Hr.
      * by apply (Hseeded e).
  - intros err Hd He. rewrite He in Hc1.
    destruct (collections st !! MAIN_COLLECTION) as [[|entry entries]|]; [|done|];
      rewrite Hc1; apply lookup_insert_eq.
Qed.

Lemma startup_idempotent_witness :
  collections (snd (lifespan_store (sample NoFault) (sample_default_embedding false)
                      empty_store)) !! MAIN_COLLECTION
  = Some [].
Proof.
  destruct (startup_idempotent (sample NoFault) (sample_default_embedding false)
              empty_store) as [_ H].
  apply (H (OtherError (lit "no embedding model"))); reflexivity.
Defined.

(** ** White space in [preprocessing.py] *)

Lemma split_from_words (word s : pystr) :
  Forall (fun c => is_space c = false) word ->
  Forall is_word (split_from word s).
Proof.
  revert word. induction s as [|c s IH]; intros word Hw; cbn [split_from].
  - destruct word as [|d word]; [constructor|].
    constructor; [by split|constructor].
  - destruct (is_space c) eqn:Hc.
    + destruct word as [|d word]; [by apply IH|].
      constructor; [by split|]. by apply IH.
    + apply IH. apply Forall_app. split; [done|]. by repeat constructor.
Qed.

Lemma split_from_word (p word t : pystr) :
  Forall (fun c => is_space c = false) p ->
  split_from word (p ++ t) = split_from (word ++ p) t.
Proof.
  revert word. induction p as [|c p IH]; intros word Hp; cbn [app split_from].
  - by rewrite app_nil_r.
  - inversion Hp as [|? ? Hc Hp']; subst. rewrite Hc, IH by done.
    by rewrite <- app_assoc.
Qed.

Lemma is_space_SPACE : is_space SPACE = true.
Proof. reflexivity. Qed.

(** Splitting undoes joining: the words of words joined by single spaces
    are these words. *)
Lemma split_join (words : list pystr) :
  Forall is_word words -> split (join [SPACE] words) = words.
Proof.
  unfold split. induction words as [|p [|p' words] IH]; intros Hw; [done|..].
  - inversion Hw as [|? ? [Hne Hp] _]; subst. cbn [join].
    rewrite <- (app_nil_r p) at 1. rewrite split_from_word by done.
    cbn [app split_from]. by destruct p.
  - inversion Hw as [|? ? [Hne Hp] Hw']; subst.
    change (join [SPACE] (p :: p' :: words))
      with (p ++ SPACE :: join [SPACE] (p' :: words)).
    rewrite split_from_word by done. cbn [app split_from]. rewrite is_space_SPACE.
    rewrite IH by done. by destruct p.
Qed.

Lemma concat_split_from (word s : pystr) :
  concat (split_from word s) = word ++ List.filter (fun c => negb (is_space c)) s.
Proof.
  revert word. induction s as [|c s IH]; intros word; cbn [split_from List.filter].
  - destruct word; [done|]. cbn [concat]. by rewrite !app_nil_r.
  - destruct (is_space c) eqn:Hc; cbn [negb].
    + destruct word as [|d word]; [by rewrite IH|]. cbn [concat]. by rewrite IH.
    + rewrite IH. by rewrite <- app_assoc.
Qed.

Lemma filter_word (p : pystr) :
  Forall (fun c => is_space c = false) p ->
  List.filter (fun c => negb (is_space c)) p = p.
Proof.
  induction 1 as [|c p Hc _ IH]; [done|]. cbn [List.filter]. by rewrite Hc, IH.
Qed.

Lemma filter_join (words : list pystr) :
  Forall is_word words ->
  List.filter (fun c => negb (is_space c)) (join [SPACE] words) = concat words.
Proof.
  induction words as [|p [|p' words] IH]; intros Hw; [done|..].
  - inversion Hw as [|? ? [_ Hp] _]; subst. cbn [join concat].
    by rewrite app_nil_r, filter_word.
  - inversion Hw as [|? ? [_ Hp] Hw']; subst.
    change (join [SPACE] (p :: p' :: words))
      with (p ++ [SPACE] ++ join [SPACE] (p' :: words)).
    rewrite !List.filter_app, filter_word, IH by done. reflexivity.
Qed.

Lemma join_head (words : list pystr) :
  Forall is_word words ->
  match join [SPACE] words with [] => words = [] | c :: _ => is_space c = false end.
Proof.
  destruct words as [|[|c p] [|p' words]]; intros Hw; [done|..];
    inversion Hw as [|? ? [Hne Hp] _]; subst; try done;
    by inversion Hp.
Qed.

Lemma join_last (words : list pystr) (c : N) :
  Forall is_word words -> last (join [SPACE] words) = Some c -> is_space c = false.
Proof.
  induction words as [|p [|p' words] IH]; intros Hw; [done|..].
  - inversion Hw as [|? ? [Hne Hp] _]; subst. cbn [join]. intros Hl.
    rewrite Forall_forall in Hp. apply Hp.
    apply last_Some_elem_of in Hl. exact Hl.
  - inversion Hw as [|? ? [Hne Hp] Hw']; subst.
    change (join [SPACE] (p :: p' :: words))
      with (p ++ [SPACE] ++ join [SPACE] (p' :: words)).
    pose proof (join_head (p' :: words) Hw') as Hh.
    destruct (join [SPACE] (p' :: words)) as [|d rest] eqn:Hj; [done|].
    rewrite app_assoc, last_app_cons. intros Hl. by apply (IH Hw').
Qed.

Lemma join_single_spaces (words : list pystr) (u v : pystr) (c d : N) :
  Forall is_word words ->
  join [SPACE] words = u ++ c :: d :: v ->
  is_space c = true -> is_space d = false.
Proof.
  revert u. induction words as [|p [|p' words] IH]; intros u Hw Hj Hc.
  - by destruct u.
  - inversion Hw as [|? ? [Hne Hp] _]; subst. cbn [join] in Hj.
    rewrite Forall_forall in Hp. rewrite (Hp c) in Hc; [done|].
    rewrite Hj. set_solver.
  - inversion Hw as [|? ? [Hne Hp] Hw']; subst.
    change (join [SPACE] (p :: p' :: words))
      with (p ++ SPACE :: join [SPACE] (p' :: words)) in Hj.
    pose proof (join_head (p' :: words) Hw') as Hh.
    apply app_eq_inv in Hj as [(k & Hp1 & Hk)|(k & Hu & Hk)].
    + destruct k as [|e k].
      * assert (Hk' : join [SPACE] (p' :: words) = d :: v).
        { cbn [app] in Hk. injection Hk as _ Hk. symmetry. exact Hk. }
        rewrite Hk' in Hh. exact Hh.
      * (* the white space would lie in the first word *)
        injection Hk as <- Hk. rewrite Forall_forall in Hp.
        rewrite (Hp c) in Hc; [done|]. rewrite Hp1. set_solver.
    + destruct k as [|e k].
      * assert (Hk' : join [SPACE] (p' :: words) = d :: v).
        { cbn [app] in Hk. injection Hk as _ Hk. exact Hk. }
        rewrite Hk' in Hh. exact Hh.
      * assert (Hk' : join [SPACE] (p' :: words) = k ++ c :: d :: v).
        { injection Hk as _ Hk. exact Hk. }
        by apply (IH k).
Qed.

(** X21. Normalising the white space twice is normalising it once, and
    the words of a text are not changed by it. *)
Theorem normalize_spaces_idempotent (s : pystr) :
  normalize_spaces (normalize_spaces s) = normalize_spaces s
  /\ split (normalize_spaces s) = split s.
Proof.
  assert (H : split (normalize_spaces s) = split s).
  { unfold normalize_spaces. apply split_join. unfold split.
    apply split_from_words. constructor. }
  split; [|exact H]. unfold normalize_spaces at 1. by rewrite H.
Qed.

(** X22. The shape of a normalised text: it neither starts nor ends with
    white space; every white-space character of it is a space, and is
    followed by a character that is not white space (so every run of
    white space has become one space); its other characters are those of
    the text, in order; and it is not longer than the text. *)
Theorem normalize_spaces_shape (s : pystr) :
  let r := normalize_spaces s in
  (forall c, head r = Some c \/ last r = Some c -> is_space c = false)
  /\ (forall c, c ∈ r -> is_space c = true -> c = SPACE)
  /\ (forall u v c d, r = u ++ c :: d :: v -> is_space c = true -> is_space d = false)
  /\ List.filter (fun c => negb (is_space c)) r
     = List.filter (fun c => negb (is_space c)) s
  /\ (length r <= length s)%nat.
Proof.
  intros r. subst r. unfold normalize_spaces.
  assert (Hw : Forall is_word (split s)).
  { unfold split. apply split_from_words. constructor. }
  split; [|split; [|split; [|split]]].
  - intros c [Hh|Hl]; [|by apply (join_last (split s))].
    pose proof (join_head (split s) Hw) as H.
    destruct (join [SPACE] (split s)); [done|]. by injection Hh as <-.
  - intros c Hin Hc. revert Hin. generalize (split s) Hw. clear s Hw.
    induction l as [|p [|p' words] IH]; intros Hw Hin; [by apply elem_of_nil in Hin|..].
    + inversion Hw as [|? ? [_ Hp] _]; subst. cbn [join] in Hin.
      rewrite Forall_forall in Hp. by rewrite (Hp c Hin) in Hc.
    + inversion Hw as [|? ? [_ Hp] Hw']; subst.
      change (join [SPACE] (p :: p' :: words))
        with (p ++ SPACE :: join [SPACE] (p' :: words)) in Hin.
      apply elem_of_app in Hin as [Hin|Hin].
      * rewrite Forall_forall in Hp. by rewrite (Hp c Hin) in Hc.
      * apply elem_of_cons in Hin as [->|Hin]; [done|]. by apply IH.
  - intros u v c d. by apply join_single_spaces.
  - rewrite filter_join by done. unfold split. by rewrite concat_split_from.
  - assert (Hlen : forall words word t,
              split_from word t = words ->
              (length (join [SPACE] words) <= length word + length t)%nat).
    { clear. intros words word t <-. revert word.
      induction t as [|c t IH]; intros word; cbn [split_from].
      - destruct word; cbn [join length]; lia.
      - destruct (is_space c).
        + destruct word as [|d word].
          * specialize (IH []). cbn [length] in *. lia.
          * specialize (IH []). cbn [length] in IH.
            destruct (split_from [] t) as [|p ps] eqn:Hs.
            -- cbn [join length]. lia.
            -- change (join [SPACE] ((d :: word) :: p :: ps))
                 with ((d :: word) ++ SPACE :: join [SPACE] (p :: ps)).
               rewrite length_app. cbn [length] in *. lia.
        + specialize (IH (word ++ [c])). rewrite length_app in IH.
          cbn [length] in *. lia. }
    apply (Hlen (split s) [] s). reflexivity.
Qed.

(** ** The ids of the stored chunks *)

Lemma lit_inj (s t : string) : lit s = lit t -> s = t.
Proof.
  unfold lit. intros H.
  rewrite <- (string_of_list_ascii_of_string s), <- (string_of_list_ascii_of_string t).
  f_equal. revert H. generalize (list_ascii_of_string s) (list_ascii_of_string t).
  induction l as [|a l IH]; intros [|b l']; cbn [List.map]; try done.
  intros [= Hab Hl]. f_equal; [|by apply IH].
  by rewrite <- (ascii_N_embedding a), <- (ascii_N_embedding b), Hab.
Qed.

Lemma str_nat_inj (n m : nat) : str_nat n = str_nat m -> n = m.
Proof.
  unfold str_nat. intros H. apply lit_inj in H.
  apply (f_equal NilEmpty.uint_of_string) in H. rewrite !NilEmpty.usu in H.
  injection H as H. apply (f_equal Nat.of_uint) in H.
  by rewrite !DecimalNat.Unsigned.of_to in H.
Qed.

Lemma chunk_ids_lookup (n i : nat) :
  chunk_ids n !! i = if decide (i < n)%nat then Some (lit "chunk_" ++ str_nat i) else None.
Proof.
  unfold chunk_ids.
  assert (H : forall (f : nat -> pystr) l, List.map f l = f <$> l).
  { intros f l. induction l as [|x l IH]; [done|]. cbn. by rewrite IH. }
  rewrite H, list_lookup_fmap.
  destruct (decide (i < n)%nat) as [Hi|Hi].
  - by rewrite lookup_seq_lt.
  - by rewrite lookup_seq_ge by lia.
Qed.

Lemma chunk_ids_NoDup (n : nat) : NoDup (chunk_ids n).
Proof.
  apply NoDup_alt. intros i j x Hi Hj. rewrite chunk_ids_lookup in Hi, Hj.
  destruct (decide (i < n)%nat); [|done]. destruct (decide (j < n)%nat); [|done].
  injection Hi as <-. injection Hj as Hj. symmetry. by apply str_nat_inj.
Qed.

(** X23. The chunks of a stored document have pairwise distinct ids: the
    entry at position [i] of its collection has the id [chunk_<i>], the
    decimal numeral of its position, and no two entries share an id. *)
Theorem stored_ids_distinct (C : Collaborators) (filename : pystr)
    (content : list N) (language : pystr) (uuid : N) (tmp : pystr)
    (st st' : State) (response : SummarizeResponse) :
  summarize_pdf C filename content language uuid tmp st = (Ok response, st') ->
  exists entries,
    collections st' !! response_document_id response = Some entries /\
    NoDup (List.map entry_id entries) /\
    (forall i entry, entries !! i = Some entry ->
       entry_id entry = lit "chunk_" ++ str_nat i).
Proof.
  intros Hrun.
  apply summarize_pdf_Ok in Hrun
    as (markdown & summaries & output & items & embeddings & Hs & _ & _ & -> & Hc & _).
  cbv zeta in Hc.
  destruct Hs as (_ & _ & _ & _ & _ & _ & Hlen & _).
  destruct (entries_of_fields
              (chunk_ids (length (windows (clean_text markdown) 1000 150)))
              (windows (clean_text markdown) 1000 150) embeddings)
    as (Hids & _ & _).
  { by rewrite length_chunk_ids. }
  { by rewrite length_chunk_ids. }
  set (entries := entries_of (chunk_ids (length (windows (clean_text markdown) 1000 150)))
                    (windows (clean_text markdown) 1000 150) embeddings) in *.
  assert (Hentries : collections st' !! uuid_str uuid = Some entries).
  { rewrite Hc. apply lookup_insert_eq. }
  cbn [response_document_id].
  exists entries. split; [done|]. split.
  - rewrite Hids. apply chunk_ids_NoDup.
  - intros i entry Hi.
    assert (H : List.map entry_id entries !! i = Some (entry_id entry)).
    { assert (Hm : List.map entry_id entries = entry_id <$> entries).
      { clear. induction entries as [|x l IH]; [done|]. cbn. by rewrite IH. }
      by rewrite Hm, list_lookup_fmap, Hi. }
    rewrite Hids, chunk_ids_lookup in H.
    destruct (decide _); [|done]. by injection H as <-.
Qed.

Lemma stored_ids_distinct_witness :
  exists entries,
    collections (after_ingestion 0) !! uuid_str SAMPLE_UUID = Some entries /\
    NoDup (List.map entry_id entries).
Proof.
  destruct (stored_ids_distinct (sample NoFault) (lit "paper.pdf")
              [37; 80; 68; 70]%N (lit "en") SAMPLE_UUID (lit "/tmp/tmpa1b2c3.pdf")
              (main_only 0) (after_ingestion 0)
              {| response_filename := lit "paper.pdf";
                 structured_summary :=
                   summary_of_items [ (lit "research_objective", PStr (lit "Study nets"));
                                      (lit "methods", PStr []) ];
                 response_document_id := uuid_str SAMPLE_UUID |})
    as (entries & H1 & H2 & _).
  - vm_compute. reflexivity.
  - exists entries. split; [exact H1|exact H2].
Defined.
